(** * mediasoup-demo signalling gateway

    A shallow embedding of the two server files of the repository:

    - the script that starts the process, called server.js below (the
      worker pool, the serialized room creation queue, the protoo
      connection gateway), and
    - [server/server/room.js], which it requires (the room registry and
      the Express application for broadcasters).

    The collaborators that live outside these two files ([Room],
    [mediasoup], [protoo-server], [awaitqueue], [express], [body-parser])
    are represented by what the gateway does with them: the calls it
    makes are recorded in a trace, and what they answer is supplied by
    the environment. *)

From Stdlib Require Import ZArith String Ascii List Lia.
From stdpp Require Import base option list gmap strings pretty.

Local Open Scope string_scope.
Local Open Scope list_scope.

(** ** JavaScript values the gateway handles *)

(** A string stands for a JavaScript string through its UTF-8 encoding:
    equality, the empty string, concatenation and inclusion are the same on
    both sides. *)

(** A value read from [url.parse(u, true).query[name]]: absent, a string,
    or (for a repeated parameter) an array, which is an object with an
    identity of its own.  The gateway never looks inside such an array, so
    only its identity is kept. *)
Inductive value :=
| Undefined
| Str (s : string)
| Arr (ref : nat).

#[global] Instance value_eq_dec : EqDecision value.
Proof. solve_decision. Defined.

#[global] Instance value_countable : Countable value.
Proof.
  refine (inj_countable'
    (fun v => match v with
              | Undefined => inl tt
              | Str s => inr (inl s)
              | Arr r => inr (inr r)
              end)
    (fun x => match x with
              | inl _ => Undefined
              | inr (inl s) => Str s
              | inr (inr r) => Arr r
              end) _).
  by intros [].
Defined.

(** JavaScript truthiness, as used by [!roomId] and [!peerId]. *)
Definition truthy (v : value) : bool :=
  match v with
  | Undefined => false
  | Str s => negb (String.eqb s "")
  | Arr _ => true
  end.

(** "Missing or empty" query parameter. *)
Definition missing_or_empty (v : value) : Prop := v = Undefined \/ v = Str "".

(** JSON payloads of the REST interface. *)
#[warnings="-register-all"]
Inductive json :=
| JNull
| JBool (b : bool)
| JNumber (z : Z)
| JString (s : string)
| JArray (items : list json)
| JObject (fields : list (string * json)).

(** [obj.name] on a parsed object: [None] is [undefined]. *)
Fixpoint field (name : string) (fields : list (string * json)) : option json :=
  match fields with
  | [] => None
  | (k, v) :: rest => if String.eqb k name then Some v else field name rest
  end.

(** Error objects: [name], [message] and the optional [status] the REST
    error handler looks at ([None] is an [undefined] status). *)
Module Error.

Record t := make { name : string; message : string; status : option Z }.

(** [String(error)], that is [Error.prototype.toString]. *)
Definition toString (e : t) : string :=
  if String.eqb (name e) "" then message e
  else if String.eqb (message e) "" then name e
  else name e +:+ ": " +:+ message e.

End Error.

(** [a || b] on an optional number: [undefined] and [0] are falsy. *)
Definition js_or (a : option Z) (b : Z) : Z :=
  match a with
  | Some z => if Z.eqb z 0 then b else z
  | None => b
  end.

(** Does [needle] occur in [s]? *)
Fixpoint includes (needle s : string) : bool :=
  String.prefix needle s ||
  match s with
  | EmptyString => false
  | String _ rest => includes needle rest
  end.

(** ** The status line of an HTTP response, as node writes it *)

(** [res.status(code)] stores the code as it is (Express 4 has no check
    of its own); when the response is sent, node does [statusCode |= 0]:
    it takes the status code as a 32-bit integer. *)
Definition to_int32 (z : Z) : Z := ((z + 2 ^ 31) mod 2 ^ 32 - 2 ^ 31)%Z.

(** node writes a status code from 100 to 999 and throws on any other. *)
Definition valid_statusCode (status : Z) : bool :=
  (100 <=? to_int32 status)%Z && (to_int32 status <=? 999)%Z.

(** node writes a status message made of tabs and of the characters
    U+0020 to U+007E and U+0080 to U+00FF, and throws on any other
    character (a line feed, a character outside Latin-1).  In UTF-8 the
    characters it takes are the bytes 09 and 20 to 7E and the two-byte
    sequences led by C2 and C3, so that a string has a character it
    refuses when it has a byte that is none of 09, 20..7E, 80..C3. *)
Definition statusMessage_byte (c : ascii) : bool :=
  let n := nat_of_ascii c in
  (n =? 9)%nat || ((32 <=? n)%nat && (n <=? 126)%nat) || ((128 <=? n)%nat && (n <=? 195)%nat).

Fixpoint valid_statusMessage (message : string) : bool :=
  match message with
  | EmptyString => true
  | String c rest => statusMessage_byte c && valid_statusMessage rest
  end.

(** The errors node throws from [writeHead] in the two cases. *)
Definition ERR_HTTP_INVALID_STATUS_CODE (status : Z) : Error.t :=
  {| Error.name := "RangeError";
     Error.message := "Invalid status code: " +:+ pretty status;
     Error.status := None |}.

Definition ERR_INVALID_CHAR : Error.t :=
  {| Error.name := "TypeError";
     Error.message := "Invalid character in statusMessage";
     Error.status := None |}.

(** ** Objects, effects and the state of the process *)

(** A listener registered with [worker.on("died", ...)] in
    [runMediasoupWorkers].  There is one such arrow function in the source;
    it closes over the worker it is registered on. *)
Inductive diedListener := ExitInTwoSeconds.

(** A mediasoup [Worker] handle as the gateway sees it. *)
Record worker := { pid : Z; on_died : list diedListener }.

(** A [Room] instance is identified by its position in the list of the
    rooms constructed so far. *)
Abbreviation roomRef := nat (only parsing).

(** A listener registered with [room.on("close", ...)] in
    [getOrCreateRoom]: the arrow [() => rooms.delete(roomId)] with the
    [roomId] it closes over. *)
Inductive closeListener := DeleteFromRooms (roomId : value).

Record roomObj := {
  room_id : value;                    (* the roomId given to Room.create *)
  room_on_close : list closeListener; (* listeners of its "close" event *)
  room_closed : bool                  (* it has emitted "close" *)
}.

(** The methods of [Room] the REST endpoints delegate to, with the
    arguments each endpoint passes. *)
Inductive roomCall :=
| getRouterRtpCapabilities
| createBroadcaster (id displayName device rtpCapabilities : option json)
| deleteBroadcaster (broadcasterId : string)
| createBroadcasterTransport (broadcasterId : string)
    (type rtcpMux comedia sctpCapabilities : option json)
| connectBroadcasterTransport (broadcasterId transportId : string)
    (dtlsParameters : option json)
| createBroadcasterProducer (broadcasterId transportId : string)
    (kind rtpParameters : option json)
| createBroadcasterConsumer (broadcasterId transportId : string)
    (producerId : option json)
| createBroadcasterDataConsumer (broadcasterId transportId : string)
    (dataProducerId : option json)
| createBroadcasterDataProducer (broadcasterId transportId : string)
    (label protocol sctpStreamParameters appData : option json).

(** Log levels ([logger.info], [logger.warn], [logger.error]). *)
Inductive level := INFO | WARN | ERROR.

Inductive logArg :=
| ArgValue (v : value)
| ArgString (s : string)
| ArgNumber (z : Z)
| ArgError (e : Error.t).

(** The two ways the gateway calls protoo's [reject]. *)
Inductive rejection :=
| RejectWith (code : Z) (reason : string)   (* reject(400, "...") *)
| RejectError (e : Error.t).                (* reject(error) *)

Inductive responseBody :=
| SendText (s : string)   (* res.send(string) *)
| SendJson (j : json).    (* res.json(data) *)

(** A response a handler has sent: the status code and the status message
    of its status line ([None]: the handler left it to node, which writes
    its standard phrase for the code), and the body the handler gave to
    [res.send] or [res.json].  (What Express does with that body is its
    own: it sends none to a HEAD request, nor with a status that has no
    body.) *)
Record response := {
  res_status : Z;
  res_statusMessage : option string;
  res_body : responseBody
}.

(** The callback given to [setTimeout]: [() => process.exit(code)]. *)
Inductive timeoutCallback := ProcessExit (code : Z).

(** The callbacks given to [setInterval] (periodic reports). *)
Inductive intervalCallback :=
| LogWorkerUsage (pid : Z)
| LogRoomsStatus.

(** What the gateway does to the outside world, in the order it does it. *)
Inductive effect :=
| Log (l : level) (format : string) (args : list logArg)
| CallCreateWorker
| CallRoomCreate (mediasoupWorker : option worker) (roomId : value)
| CallAccept (request : nat)
| CallReject (request : nat) (r : rejection)
| CallHandleProtooConnection (room : roomRef) (peerId : value) (transport : nat)
| CallRoom (room : roomRef) (c : roomCall)
| SetInterval (callback : intervalCallback) (delay : Z)
| Respond (r : response).

(** The function value [expressApp] built by [createExpressApp]. *)
Inductive requestListener := ExpressApplication.

(** The async arrow pushed onto the queue by the [connectionrequest]
    handler, with the variables it closes over.  [task_accept] is what the
    [accept] callback protoo handed over will do when called: return the
    transport ([None]) or throw. *)
Record task := {
  task_roomId : value;
  task_peerId : value;
  task_request : nat;
  task_accept : option Error.t
}.

Record state := {
  mediasoupWorkers : list worker;
    (* const mediasoupWorkers = [] *)
  nextMediasoupWorkerIdx : nat;
    (* let nextMediasoupWorkerIdx = 0 *)
  rooms : gmap value roomRef;
    (* room.js: const rooms = new Map() *)
  roomObjects : list roomObj;
    (* every Room constructed so far *)
  queue : list task;
    (* the AwaitQueue; its head is the running task *)
  room_js_expressApp : option requestListener;
    (* room.js: let expressApp *)
  imported_expressApp : option requestListener;
    (* server.js: const { expressApp } = require(...) *)
  httpsServer : option (option requestListener);
    (* server.js: let httpsServer, with its request listener *)
  protooWebSocketServer : bool;
    (* server.js: let protooWebSocketServer (created?) *)
  timeouts : list (timeoutCallback * Z);
    (* pending setTimeout timers *)
  exited : option Z;
    (* process.exit(code) has been called *)
  trace : list effect
    (* the calls made so far *)
}.

(** Field updates. *)
Definition set_mediasoupWorkers (v : (list worker)) (st : state) : state :=
  {| mediasoupWorkers := v;
     nextMediasoupWorkerIdx := nextMediasoupWorkerIdx st;
     rooms := rooms st;
     roomObjects := roomObjects st;
     queue := queue st;
     room_js_expressApp := room_js_expressApp st;
     imported_expressApp := imported_expressApp st;
     httpsServer := httpsServer st;
     protooWebSocketServer := protooWebSocketServer st;
     timeouts := timeouts st;
     exited := exited st;
     trace := trace st |}.

Definition set_nextMediasoupWorkerIdx (v : nat) (st : state) : state :=
  {| mediasoupWorkers := mediasoupWorkers st;
     nextMediasoupWorkerIdx := v;
     rooms := rooms st;
     roomObjects := roomObjects st;
     queue := queue st;
     room_js_expressApp := room_js_expressApp st;
     imported_expressApp := imported_expressApp st;
     httpsServer := httpsServer st;
     protooWebSocketServer := protooWebSocketServer st;
     timeouts := timeouts st;
     exited := exited st;
     trace := trace st |}.

Definition set_rooms (v : (gmap value roomRef)) (st : state) : state :=
  {| mediasoupWorkers := mediasoupWorkers st;
     nextMediasoupWorkerIdx := nextMediasoupWorkerIdx st;
     rooms := v;
     roomObjects := roomObjects st;
     queue := queue st;
     room_js_expressApp := room_js_expressApp st;
     imported_expressApp := imported_expressApp st;
     httpsServer := httpsServer st;
     protooWebSocketServer := protooWebSocketServer st;
     timeouts := timeouts st;
     exited := exited st;
     trace := trace st |}.

Definition set_roomObjects (v : (list roomObj)) (st : state) : state :=
  {| mediasoupWorkers := mediasoupWorkers st;
     nextMediasoupWorkerIdx := nextMediasoupWorkerIdx st;
     rooms := rooms st;
     roomObjects := v;
     queue := queue st;
     room_js_expressApp := room_js_expressApp st;
     imported_expressApp := imported_expressApp st;
     httpsServer := httpsServer st;
     protooWebSocketServer := protooWebSocketServer st;
     timeouts := timeouts st;
     exited := exited st;
     trace := trace st |}.

Definition set_queue (v : (list task)) (st : state) : state :=
  {| mediasoupWorkers := mediasoupWorkers st;
     nextMediasoupWorkerIdx := nextMediasoupWorkerIdx st;
     rooms := rooms st;
     roomObjects := roomObjects st;
     queue := v;
     room_js_expressApp := room_js_expressApp st;
     imported_expressApp := imported_expressApp st;
     httpsServer := httpsServer st;
     protooWebSocketServer := protooWebSocketServer st;
     timeouts := timeouts st;
     exited := exited st;
     trace := trace st |}.

Definition set_room_js_expressApp (v : (option requestListener)) (st : state) : state :=
  {| mediasoupWorkers := mediasoupWorkers st;
     nextMediasoupWorkerIdx := nextMediasoupWorkerIdx st;
     rooms := rooms st;
     roomObjects := roomObjects st;
     queue := queue st;
     room_js_expressApp := v;
     imported_expressApp := imported_expressApp st;
     httpsServer := httpsServer st;
     protooWebSocketServer := protooWebSocketServer st;
     timeouts := timeouts st;
     exited := exited st;
     trace := trace st |}.

Definition set_imported_expressApp (v : (option requestListener)) (st : state) : state :=
  {| mediasoupWorkers := mediasoupWorkers st;
     nextMediasoupWorkerIdx := nextMediasoupWorkerIdx st;
     rooms := rooms st;
     roomObjects := roomObjects st;
     queue := queue st;
     room_js_expressApp := room_js_expressApp st;
     imported_expressApp := v;
     httpsServer := httpsServer st;
     protooWebSocketServer := protooWebSocketServer st;
     timeouts := timeouts st;
     exited := exited st;
     trace := trace st |}.

Definition set_httpsServer (v : (option (option requestListener))) (st : state) : state :=
  {| mediasoupWorkers := mediasoupWorkers st;
     nextMediasoupWorkerIdx := nextMediasoupWorkerIdx st;
     rooms := rooms st;
     roomObjects := roomObjects st;
     queue := queue st;
     room_js_expressApp := room_js_expressApp st;
     imported_expressApp := imported_expressApp st;
     httpsServer := v;
     protooWebSocketServer := protooWebSocketServer st;
     timeouts := timeouts st;
     exited := exited st;
     trace := trace st |}.

Definition set_protooWebSocketServer (v : bool) (st : state) : state :=
  {| mediasoupWorkers := mediasoupWorkers st;
     nextMediasoupWorkerIdx := nextMediasoupWorkerIdx st;
     rooms := rooms st;
     roomObjects := roomObjects st;
     queue := queue st;
     room_js_expressApp := room_js_expressApp st;
     imported_expressApp := imported_expressApp st;
     httpsServer := httpsServer st;
     protooWebSocketServer := v;
     timeouts := timeouts st;
     exited := exited st;
     trace := trace st |}.

Definition set_timeouts (v : (list (timeoutCallback * Z))) (st : state) : state :=
  {| mediasoupWorkers := mediasoupWorkers st;
     nextMediasoupWorkerIdx := nextMediasoupWorkerIdx st;
     rooms := rooms st;
     roomObjects := roomObjects st;
     queue := queue st;
     room_js_expressApp := room_js_expressApp st;
     imported_expressApp := imported_expressApp st;
     httpsServer := httpsServer st;
     protooWebSocketServer := protooWebSocketServer st;
     timeouts := v;
     exited := exited st;
     trace := trace st |}.

Definition set_exited (v : (option Z)) (st : state) : state :=
  {| mediasoupWorkers := mediasoupWorkers st;
     nextMediasoupWorkerIdx := nextMediasoupWorkerIdx st;
     rooms := rooms st;
     roomObjects := roomObjects st;
     queue := queue st;
     room_js_expressApp := room_js_expressApp st;
     imported_expressApp := imported_expressApp st;
     httpsServer := httpsServer st;
     protooWebSocketServer := protooWebSocketServer st;
     timeouts := timeouts st;
     exited := v;
     trace := trace st |}.

Definition set_trace (v : (list effect)) (st : state) : state :=
  {| mediasoupWorkers := mediasoupWorkers st;
     nextMediasoupWorkerIdx := nextMediasoupWorkerIdx st;
     rooms := rooms st;
     roomObjects := roomObjects st;
     queue := queue st;
     room_js_expressApp := room_js_expressApp st;
     imported_expressApp := imported_expressApp st;
     httpsServer := httpsServer st;
     protooWebSocketServer := protooWebSocketServer st;
     timeouts := timeouts st;
     exited := exited st;
     trace := v |}.

(** ** Computations: state threading with JavaScript exceptions *)

Inductive outcome (A : Type) :=
| Returns (a : A)
| Throws (e : Error.t).
Arguments Returns {A} a.
Arguments Throws {A} e.

Definition M (A : Type) : Type := state -> outcome A * state.

#[global] Instance M_ret : MRet M := fun A a st => (Returns a, st).

(** Sequencing; what was done before a [throw] stays done. *)
#[global] Instance M_bind : MBind M := fun A B f m st =>
  match m st with
  | (Returns a, st') => f a st'
  | (Throws e, st') => (Throws e, st')
  end.

Definition throw {A} (e : Error.t) : M A := fun st => (Throws e, st).

(** [try { body } catch (error) { handler(error) }] *)
Definition try_catch {A} (body : M A) (handler : Error.t -> M A) : M A :=
  fun st =>
    match body st with
    | (Returns a, st') => (Returns a, st')
    | (Throws e, st') => handler e st'
    end.

Definition gets {A} (f : state -> A) : M A := fun st => (Returns (f st), st).
Definition modify (f : state -> state) : M unit := fun st => (Returns tt, f st).

(** The state a computation leaves. *)
Definition exec {A} (m : M A) (st : state) : state := snd (m st).

Definition emit (e : effect) : M unit :=
  modify (fun st => set_trace (trace st ++ [e]) st).

Definition logger (l : level) (format : string) (args : list logArg) : M unit :=
  emit (Log l format args).

Definition setTimeout (callback : timeoutCallback) (delay : Z) : M unit :=
  modify (fun st => set_timeouts (timeouts st ++ [(callback, delay)]) st).

(** Run [f] on every element, in order ([for ... of], listener dispatch). *)
Fixpoint for_each {A} (f : A -> M unit) (l : list A) : M unit :=
  match l with
  | [] => mret tt
  | x :: rest => f x;; for_each f rest
  end.

(** What the collaborators answer.  [createWorker i] is the result of the
    [i]-th call of [mediasoup.createWorker]: the pid of the new worker, or
    a rejection.  [handleProtooConnection room peerId transport] is whether
    that call on [room] throws; what else the Room does with the
    connection is its own business, and when it closes it says so in an
    event of its own (see [room_close]). *)
Record environment := {
  createWorker : nat -> outcome Z;
  handleProtooConnection : roomRef -> value -> nat -> option Error.t
}.

Section Gateway.

Variable env : environment.

(** ** Worker pool (server.js, [runMediasoupWorkers], [getMediasoupWorker]) *)

Definition mediasoup_createWorker (i : nat) : M worker :=
  emit CallCreateWorker;;
  match createWorker env i with
  | Returns p => mret {| pid := p; on_died := [] |}
  | Throws e => throw e
  end.

(** [worker.on("died", listener)] *)
Definition worker_on_died (w : worker) (l : diedListener) : worker :=
  {| pid := pid w; on_died := on_died w ++ [l] |}.

(** The body of [for (let i = 0; i < numWorkers; ++i)], with [remaining]
    iterations to go. *)
Fixpoint runMediasoupWorkers_loop (remaining i : nat) : M unit :=
  match remaining with
  | 0 => mret tt
  | S n =>
      created ← mediasoup_createWorker i;
      let worker := worker_on_died created ExitInTwoSeconds in
      modify (fun st => set_mediasoupWorkers (mediasoupWorkers st ++ [worker]) st);;
      emit (SetInterval (LogWorkerUsage (pid worker)) 120000);;
      runMediasoupWorkers_loop n (S i)
  end.

Definition runMediasoupWorkers (numWorkers : nat) : M unit :=
  logger INFO "running %d mediasoup Workers..." [ArgNumber (Z.of_nat numWorkers)];;
  runMediasoupWorkers_loop numWorkers 0.

(** The listener of a worker's "died" event. *)
Definition run_diedListener (worker : worker) (l : diedListener) : M unit :=
  match l with
  | ExitInTwoSeconds =>
      logger ERROR "mediasoup Worker died, exiting  in 2 seconds... [pid:%d]"
        [ArgNumber (pid worker)];;
      setTimeout (ProcessExit 1) 2000
  end.

(** [worker] emits "died": its listeners run in registration order. *)
Definition worker_died (worker : worker) : M unit :=
  for_each (run_diedListener worker) (on_died worker).

(** [getMediasoupWorker()] *)
Definition getMediasoupWorker : M (option worker) :=
  worker ← gets (fun st => mediasoupWorkers st !! nextMediasoupWorkerIdx st);
  modify (fun st => set_nextMediasoupWorkerIdx (S (nextMediasoupWorkerIdx st)) st);;
  idx ← gets nextMediasoupWorkerIdx;
  len ← gets (fun st => length (mediasoupWorkers st));
  (if (idx =? len)%nat then modify (set_nextMediasoupWorkerIdx 0) else mret tt);;
  mret worker.

(** [n] consecutive calls, with what each returned. *)
Fixpoint getMediasoupWorker_times (n : nat) : M (list (option worker)) :=
  match n with
  | 0 => mret []
  | S k =>
      w ← getMediasoupWorker;
      ws ← getMediasoupWorker_times k;
      mret (w :: ws)
  end.

(** ** Room registry (room.js [rooms]; server.js [getOrCreateRoom]) *)

Definition rooms_get (roomId : value) : M (option roomRef) :=
  gets (fun st => rooms st !! roomId).

Definition rooms_has (roomId : value) : M bool :=
  gets (fun st => bool_decide (is_Some (rooms st !! roomId))).

Definition rooms_set (roomId : value) (room : roomRef) : M unit :=
  modify (fun st => set_rooms (<[roomId := room]> (rooms st)) st).

Definition rooms_delete (roomId : value) : M unit :=
  modify (fun st => set_rooms (delete roomId (rooms st)) st).

(** The call [Room.create({ mediasoupWorker, roomId })]. *)
Definition Room_create (mediasoupWorker : option worker) (roomId : value) : M unit :=
  emit (CallRoomCreate mediasoupWorker roomId).

(** Modelled from the spec: [Room.create] (lib/Room.js) is not among the
    sources; the spec has it "construct a new Room", an asynchronous call
    that may fail.  So: its promise settles, either rejected with an error
    ([Some e]) or resolved with a Room that did not exist before, open and
    without listeners. *)
Definition Room_create_settled (rejected : option Error.t) (roomId : value) : M roomRef :=
  match rejected with
  | Some e => throw e
  | None =>
      room ← gets (fun st => length (roomObjects st));
      modify (fun st =>
        set_roomObjects
          (roomObjects st ++ [{| room_id := roomId; room_on_close := []; room_closed := false |}])
          st);;
      mret room
  end.

(** [room.on("close", listener)] *)
Definition room_on (room : roomRef) (l : closeListener) : M unit :=
  modify (fun st =>
    set_roomObjects
      (alter (fun o => {| room_id := room_id o;
                          room_on_close := room_on_close o ++ [l];
                          room_closed := room_closed o |}) room (roomObjects st))
      st).

(** [getOrCreateRoom({ roomId })] up to its only suspension point:
    [Some room] when it returns without suspending, [None] when it is
    suspended in [await Room.create(...)]. *)
Definition getOrCreateRoom_begin (roomId : value) : M (option roomRef) :=
  room ← rooms_get roomId;
  match room with
  | Some room => mret (Some room)
  | None =>
      logger INFO "creating a new Room [roomId:%s]" [ArgValue roomId];;
      mediasoupWorker ← getMediasoupWorker;
      Room_create mediasoupWorker roomId;;
      mret None
  end.

(** [getOrCreateRoom] from the moment the promise of [Room.create]
    settles. *)
Definition getOrCreateRoom_resume (rejected : option Error.t) (roomId : value) : M roomRef :=
  room ← Room_create_settled rejected roomId;
  rooms_set roomId room;;
  room_on room (DeleteFromRooms roomId);;
  mret room.

(** One whole call of [getOrCreateRoom], given how [Room.create] settles
    if it is called. *)
Definition getOrCreateRoom (rejected : option Error.t) (roomId : value) : M roomRef :=
  found ← getOrCreateRoom_begin roomId;
  match found with
  | Some room => mret room
  | None => getOrCreateRoom_resume rejected roomId
  end.

(** The listener registered in [getOrCreateRoom]. *)
Definition run_closeListener (l : closeListener) : M unit :=
  match l with
  | DeleteFromRooms roomId => rooms_delete roomId
  end.

(** Modelled from the spec: the Room class (lib/Room.js) is not among the
    sources; of its life the spec says that it has "a `close` lifecycle
    signal" and that the registry holds a reference "whose lifetime ends on
    the room's own close signal".  So: a Room that has been constructed
    emits "close" when it closes, once; from then on it is closed, and the
    listeners of the event run in registration order. *)
Definition room_close (room : roomRef) : M unit :=
  o ← gets (fun st => roomObjects st !! room);
  match o with
  | Some o =>
      if room_closed o then mret tt
      else
        modify (fun st =>
          set_roomObjects
            (alter (fun o => {| room_id := room_id o;
                                room_on_close := room_on_close o;
                                room_closed := true |}) room (roomObjects st))
            st);;
        for_each run_closeListener (room_on_close o)
  | None => mret tt
  end.

(** ** Connection gateway (server.js, [runProtooWebSocketServer]) *)

(** What protoo hands to the "connectionrequest" listener: [info] (the
    two query parameters of [info.request.url], the remote address and the
    origin) and the callbacks [accept] and [reject] of that request, named
    here by the number [request]. *)
Record connectionRequest := {
  query_roomId : value;              (* u.query["roomId"] *)
  query_peerId : value;              (* u.query["peerId"] *)
  remoteAddress : string;            (* info.socket.remoteAddress *)
  origin : string;                   (* info.origin *)
  request : nat;
  accept_throws : option Error.t     (* what calling [accept] will do *)
}.

(** [accept()]: the transport of the request, named by its number. *)
Definition accept (t : task) : M nat :=
  emit (CallAccept (task_request t));;
  match task_accept t with
  | None => mret (task_request t)
  | Some e => throw e
  end.

Definition reject (request : nat) (r : rejection) : M unit :=
  emit (CallReject request r).

(** [room.handleProtooConnection({ peerId, protooWebSocketTransport })] *)
Definition room_handleProtooConnection (room : roomRef) (peerId : value) (transport : nat)
  : M unit :=
  emit (CallHandleProtooConnection room peerId transport);;
  match handleProtooConnection env room peerId transport with
  | None => mret tt
  | Some e => throw e
  end.

(** The queued arrow after [await getOrCreateRoom(...)] gave [room]. *)
Definition task_join (t : task) (room : roomRef) : M unit :=
  protooWebSocketTransport ← accept t;
  room_handleProtooConnection room (task_peerId t) protooWebSocketTransport.

(** The [.catch(...)] attached to [queue.push(...)]. *)
Definition task_catch (t : task) (error : Error.t) : M unit :=
  logger ERROR "room creation or room joining failed:%o" [ArgError error];;
  reject (task_request t) (RejectError error).

(** The suspended arrow from the moment [Room.create] settles, to its end. *)
Definition task_body_resume (rejected : option Error.t) (t : task) : M unit :=
  room ← getOrCreateRoom_resume rejected (task_roomId t);
  task_join t room.

(** How the promise of the arrow settles: fulfilled ([None]) or rejected
    with what the arrow threw. *)
Definition rejection_of {A} (arrow : M A) : M (option Error.t) :=
  try_catch (arrow;; mret None) (fun error => mret (Some error)).

(** The reaction [.catch(...)] attached to a task whose promise has been
    rejected, if there is one that has not run yet. *)
Definition run_catch (failed : option (task * Error.t)) : M unit :=
  match failed with
  | Some (t, error) => task_catch t error
  | None => mret tt
  end.

(** [AwaitQueue] (the awaitqueue package): the pending tasks run one at
    a time, in the order they were pushed; when the running task is over
    it is shifted off and the next one starts.  [pending] is the content
    of the queue; the function returns when the queue is empty or its
    head is suspended.

    When a task is over because its arrow threw, the promise that
    [queue.push(...)] returned is rejected, but [push] is an [async]
    function, and the reaction [.catch(...)] attached to its promise comes
    after the continuation in which the queue starts the next task.  That
    task runs up to its first [await] (in [getOrCreateRoom], up to the
    call of [Room.create] or to the [return]); then the reaction of the
    failed task runs; then the started task goes on if it has its room.
    [failed] is the task whose reaction is still to run. *)
Fixpoint queue_next (failed : option (task * Error.t)) (pending : list task) : M unit :=
  match pending with
  | [] => run_catch failed
  | t :: rest =>
      found ← getOrCreateRoom_begin (task_roomId t);
      run_catch failed;;
      match found with
      | None => mret tt
      | Some room =>
          thrown ← rejection_of (task_join t room);
          modify (set_queue rest);;
          queue_next (pair t <$> thrown) rest
      end
  end.

(** [queue.push(task)]: the task starts at once when nothing else is
    pending. *)
Definition queue_push (t : task) : M unit :=
  pending ← gets queue;
  modify (set_queue (pending ++ [t]));;
  match pending with
  | [] => queue_next None [t]
  | _ :: _ => mret tt
  end.

(** The promise the running task awaits settles: the task goes on to its
    end, and the queue on to the next task. *)
Definition queue_settled (rejected : option Error.t) : M unit :=
  pending ← gets queue;
  match pending with
  | [] => mret tt
  | t :: rest =>
      thrown ← rejection_of (task_body_resume rejected t);
      modify (set_queue rest);;
      queue_next (pair t <$> thrown) rest
  end.

(** The listener of "connectionrequest". *)
Definition on_connectionrequest (info : connectionRequest) : M unit :=
  let roomId := query_roomId info in
  let peerId := query_peerId info in
  if negb (truthy roomId) || negb (truthy peerId) then
    reject (request info) (RejectWith 400 "Connection request without roomId and/or peerId")
  else
    logger INFO
      "protoo connection request [roomId:%s, peerId:%s, address:%s, origin:%s]"
      [ArgValue roomId; ArgValue peerId;
       ArgString (remoteAddress info); ArgString (origin info)];;
    queue_push {| task_roomId := roomId; task_peerId := peerId;
                  task_request := request info;
                  task_accept := accept_throws info |}.

(** The task the listener queues for a request it does not reject. *)
Definition task_of (info : connectionRequest) : task :=
  {| task_roomId := query_roomId info; task_peerId := query_peerId info;
     task_request := request info; task_accept := accept_throws info |}.

(** The line the listener logs for such a request. *)
Definition logged_request (info : connectionRequest) : effect :=
  Log INFO "protoo connection request [roomId:%s, peerId:%s, address:%s, origin:%s]"
    [ArgValue (query_roomId info); ArgValue (query_peerId info);
     ArgString (remoteAddress info); ArgString (origin info)].

(** ** Express application (room.js, [createExpressApp]) *)

(** The nine routes, with the parameters of their paths. *)
Inductive route :=
| GET_room (roomId : string)
| POST_broadcasters (roomId : string)
| DELETE_broadcaster (roomId broadcasterId : string)
| POST_transports (roomId broadcasterId : string)
| POST_connect (roomId broadcasterId transportId : string)
| POST_producers (roomId broadcasterId transportId : string)
| POST_consume (roomId broadcasterId transportId : string)
| POST_consume_data (roomId broadcasterId transportId : string)
| POST_produce_data (roomId broadcasterId transportId : string).

(** [req.params.roomId] *)
Definition route_roomId (r : route) : string :=
  match r with
  | GET_room roomId | POST_broadcasters roomId
  | DELETE_broadcaster roomId _ | POST_transports roomId _
  | POST_connect roomId _ _ | POST_producers roomId _ _
  | POST_consume roomId _ _ | POST_consume_data roomId _ _
  | POST_produce_data roomId _ _ => roomId
  end.

(** A request that matches one of the routes.  [req_parsed] is what the
    [bodyParser.json()] middleware makes of its body: the value it stores
    in [req.body], or the error it passes on (for a body that is not valid
    JSON, an error whose [status] is 400).  The request has no
    conditional header ([If-None-Match], [If-Modified-Since]): [res.send]
    turns the 200 of a handler into 304 for a GET it finds fresh. *)
Record httpRequest := {
  req_route : route;
  req_parsed : outcome json;
  req_query : json                   (* req.query *)
}.

(** [const { name } = obj]: [None] is [undefined]. *)
Definition prop (name : string) (obj : json) : option json :=
  match obj with
  | JObject fields => field name fields
  | _ => None
  end.

Definition quote : string := String "034"%char EmptyString.

(** The error of an unknown room: [new Error(`room with id "${roomId}" not
    found`)] with [status] set to 404. *)
Definition room_not_found (roomId : string) : Error.t :=
  {| Error.name := "Error";
     Error.message := "room with id " +:+ quote +:+ roomId +:+ quote +:+ " not found";
     Error.status := Some 404%Z |}.

(** [expressApp.param("roomId", ...)]: the value stored in [req.room]. *)
Definition param_roomId (roomId : string) : M (option roomRef) :=
  has ← rooms_has (Str roomId);
  if negb has then throw (room_not_found roomId)
  else rooms_get (Str roomId).

(** What a method of the Room does when it is called: it returns a
    value, it throws, or it returns a promise, which is fulfilled with a
    value or rejected with an error. *)
Inductive roomAnswer :=
| Gives (data : json)
| Raises (e : Error.t)
| Resolves (data : json)
| Rejects (e : Error.t).

(** [await req.room.method(...)]: what the handler gets. *)
Definition awaited (answer : roomAnswer) : outcome json :=
  match answer with
  | Gives data | Resolves data => Returns data
  | Raises e | Rejects e => Throws e
  end.

(** [req.room.method(...)] without [await]: what the handler gets, as
    far as it can tell.  A promise is an object without properties of its
    own, which [res.json] writes as [{}]; if the promise is rejected later,
    no one handles the rejection (what node does with a rejection no one
    handles depends on its version and its flags, and is not part of this
    development). *)
Definition not_awaited (answer : roomAnswer) : outcome json :=
  match answer with
  | Gives data => Returns data
  | Raises e => Throws e
  | Resolves _ | Rejects _ => Returns (JObject [])
  end.

(** A method call on [req.room]; [answer] is what the handler gets from
    it. *)
Definition req_room_call (room : option roomRef) (c : roomCall) (answer : outcome json)
  : M json :=
  match room with
  | None =>
      throw {| Error.name := "TypeError";
               Error.message := "Cannot read properties of undefined";
               Error.status := None |}
  | Some room =>
      emit (CallRoom room c);;
      match answer with
      | Returns data => mret data
      | Throws e => throw e
      end
  end.

(** [res.status(200).json(data)] and [res.status(200).send(text)] *)
Definition res_json (data : json) : M unit :=
  emit (Respond {| res_status := 200; res_statusMessage := None; res_body := SendJson data |}).

Definition res_send (text : string) : M unit :=
  emit (Respond {| res_status := 200; res_statusMessage := None; res_body := SendText text |}).

(** The handler of each route.  The handlers of [GET] and [DELETE] call
    the Room without [await]; the seven others are [async], await the
    call inside [try], and pass what it throws to [next(error)].  Either
    way an error leaves the handler for the error handler. *)
Definition endpoint (r : route) (body query : json) (room : option roomRef)
    (answer : roomAnswer) : M unit :=
  match r with
  | GET_room _ =>
      data ← req_room_call room getRouterRtpCapabilities (not_awaited answer);
      res_json data
  | POST_broadcasters _ =>
      data ← req_room_call room
        (createBroadcaster (prop "id" body) (prop "displayName" body)
           (prop "device" body) (prop "rtpCapabilities" body)) (awaited answer);
      res_json data
  | DELETE_broadcaster _ broadcasterId =>
      req_room_call room (deleteBroadcaster broadcasterId) (not_awaited answer);;
      res_send "broadcaster deleted"
  | POST_transports _ broadcasterId =>
      data ← req_room_call room
        (createBroadcasterTransport broadcasterId (prop "type" body)
           (prop "rtcpMux" body) (prop "comedia" body)
           (prop "sctpCapabilities" body)) (awaited answer);
      res_json data
  | POST_connect _ broadcasterId transportId =>
      data ← req_room_call room
        (connectBroadcasterTransport broadcasterId transportId
           (prop "dtlsParameters" body)) (awaited answer);
      res_json data
  | POST_producers _ broadcasterId transportId =>
      data ← req_room_call room
        (createBroadcasterProducer broadcasterId transportId
           (prop "kind" body) (prop "rtpParameters" body)) (awaited answer);
      res_json data
  | POST_consume _ broadcasterId transportId =>
      data ← req_room_call room
        (createBroadcasterConsumer broadcasterId transportId
           (prop "producerId" query)) (awaited answer);
      res_json data
  | POST_consume_data _ broadcasterId transportId =>
      data ← req_room_call room
        (createBroadcasterDataConsumer broadcasterId transportId
           (prop "dataProducerId" body)) (awaited answer);
      res_json data
  | POST_produce_data _ broadcasterId transportId =>
      data ← req_room_call room
        (createBroadcasterDataProducer broadcasterId transportId
           (prop "label" body) (prop "protocol" body)
           (prop "sctpStreamParameters" body) (prop "appData" body)) (awaited answer);
      res_json data
  end.

(** [error.status = error.status || (error.name === "TypeError" ? 400 :
    500)]: the status the error handler answers with. *)
Definition error_status (error : Error.t) : Z :=
  js_or (Error.status error)
        (if String.eqb (Error.name error) "TypeError" then 400 else 500)%Z.

(** The response the error handler sends for [error], when node writes
    it: an empty status message makes node write its standard phrase. *)
Definition error_response (error : Error.t) : response :=
  {| res_status := to_int32 (error_status error);
     res_statusMessage :=
       if String.eqb (Error.message error) "" then None else Some (Error.message error);
     res_body := SendText (Error.toString error) |}.

(** [res.statusMessage = message; res.status(status).send(text)]: node
    writes the status line when the response is sent, and throws, before
    anything is written, on a status code or a status message it does not
    take. *)
Definition res_status_send (error : Error.t) : M unit :=
  if negb (valid_statusCode (error_status error)) then
    throw (ERR_HTTP_INVALID_STATUS_CODE (error_status error))
  else if negb (valid_statusMessage (Error.message error)) then
    throw ERR_INVALID_CHAR
  else emit (Respond (error_response error)).

(** The error handler, the last middleware.  What it throws is no longer
    the application's: Express hands it to its own final handler. *)
Definition errorHandler (error : Error.t) : M unit :=
  logger WARN "Express app %s" [ArgString (Error.toString error)];;
  res_status_send error.

(** [expressApp.use(bodyParser.json())] *)
Definition bodyParser_json (req : httpRequest) : M json :=
  match req_parsed req with
  | Returns body => mret body
  | Throws e => throw e
  end.

(** The application on a request: the middlewares in the order they were
    registered; an error of any of them goes to the error handler.
    [answer] is what the method of the Room does if the handler of the
    route calls it. *)
Definition expressApp (req : httpRequest) (answer : roomAnswer) : M unit :=
  try_catch
    (body ← bodyParser_json req;
     room ← param_roomId (route_roomId (req_route req));
     endpoint (req_route req) body (req_query req) room answer)
    errorHandler.

(** ** Start-up (both files at module level, then server.js [run]) *)

(** The state once room.js has been evaluated: [rooms] is an empty Map
    and [expressApp] is declared but not assigned. *)
Definition room_js_loaded : state :=
  {| mediasoupWorkers := []; nextMediasoupWorkerIdx := 0;
     rooms := ∅; roomObjects := []; queue := [];
     room_js_expressApp := None; imported_expressApp := None;
     httpsServer := None; protooWebSocketServer := false;
     timeouts := []; exited := None; trace := [] |}.

(** server.js, [const { createExpressApp, rooms, expressApp } =
    require("./room")]: [module.exports] was built when room.js was
    evaluated, so the constant gets the value its variable had then. *)
Definition require_room : M unit :=
  modify (fun st => set_imported_expressApp (room_js_expressApp st) st).

Definition createExpressApp : M unit :=
  logger INFO "creating Express app..." [];;
  modify (set_room_js_expressApp (Some ExpressApplication)).

(** [httpsServer = https.createServer(tls, expressApp)] *)
Definition runHttpsServer : M unit :=
  logger INFO "running an HTTPS server..." [];;
  listener ← gets imported_expressApp;
  modify (set_httpsServer (Some listener)).

(** The protoo server is created and its "connectionrequest" listener is
    registered. *)
Definition runProtooWebSocketServer : M unit :=
  logger INFO "running protoo WebSocketServer..." [];;
  modify (set_protooWebSocketServer true).

(** [run()]; the interactive console it opens first is left out. *)
Definition run (numWorkers : nat) : M unit :=
  runMediasoupWorkers numWorkers;;
  createExpressApp;;
  runHttpsServer;;
  runProtooWebSocketServer;;
  emit (SetInterval LogRoomsStatus 120000).

(** The process after start-up, for a configuration of [numWorkers]. *)
Definition started (numWorkers : nat) : state :=
  exec (require_room;; run numWorkers) room_js_loaded.

(** ** The event loop *)

(** What can happen next.  The process is single-threaded: each event
    runs its listener, and all that follows from it without waiting for
    the outside world, to the end before the next event is taken.  The
    one place where the gateway waits while holding state of its own is
    [await Room.create(...)] inside a queued task; the promise settling is
    an event ([RoomCreateSettled]), and other events may come before it.
    Seven endpoints of the Express application also await their Room,
    but what they do afterwards is only to write the response, so a
    request is handled in one piece, given what the Room answers. *)
Inductive event :=
| ConnectionRequest (info : connectionRequest)  (* protoo "connectionrequest" *)
| RoomCreateSettled (rejected : option Error.t) (* the awaited Room.create settles *)
| RoomClosed (room : roomRef)                   (* a room emits "close" *)
| WorkerDied (i : nat)                          (* the i-th worker emits "died" *)
| TimeoutExpired (i : nat)                      (* the i-th pending timeout fires *)
| HttpRequest (req : httpRequest) (answer : roomAnswer). (* HTTPS "request" *)

Definition run_timeoutCallback (c : timeoutCallback) : M unit :=
  match c with
  | ProcessExit code => modify (set_exited (Some code))
  end.

Definition handle (ev : event) : M unit :=
  match ev with
  | ConnectionRequest info =>
      listening ← gets protooWebSocketServer;
      if listening : bool then on_connectionrequest info else mret tt
  | RoomCreateSettled rejected => queue_settled rejected
  | RoomClosed room => room_close room
  | WorkerDied i =>
      w ← gets (fun st => mediasoupWorkers st !! i);
      match w with
      | Some worker => worker_died worker
      | None => mret tt
      end
  | TimeoutExpired i =>
      t ← gets (fun st => timeouts st !! i);
      match t with
      | Some (callback, _) =>
          modify (fun st => set_timeouts (delete i (timeouts st)) st);;
          run_timeoutCallback callback
      | None => mret tt
      end
  | HttpRequest req answer =>
      server ← gets httpsServer;
      match server with
      | Some (Some ExpressApplication) => expressApp req answer
      | _ => mret tt
      end
  end.

(** Nothing happens in a process that has exited. *)
Definition step (st : state) (ev : event) : state :=
  match exited st with
  | Some _ => st
  | None => exec (handle ev) st
  end.

Definition steps (evs : list event) (st : state) : state := fold_left step evs st.

End Gateway.

(** ** Properties of states *)

(** [room] is a live Room of identifier [roomId]: it has been constructed
    for that identifier and has not emitted "close". *)
Definition live (st : state) (room : roomRef) (roomId : value) : Prop :=
  ∃ o, roomObjects st !! room = Some o ∧ room_id o = roomId ∧ room_closed o = false.

(** At most one live Room per identifier. *)
Definition one_room_per_id (st : state) : Prop :=
  ∀ roomId r1 r2, live st r1 roomId → live st r2 roomId → r1 = r2.

(** The registry and the rooms agree: the registry holds exactly the live
    rooms, each under its identifier, and every room carries the one
    "close" listener [getOrCreateRoom] gave it. *)
Record registry_agrees (st : state) : Prop := {
  registered_live :
    ∀ roomId room, rooms st !! roomId = Some room → live st room roomId;
  live_registered :
    ∀ roomId room, live st room roomId → rooms st !! roomId = Some room;
  close_listener :
    ∀ room o, roomObjects st !! room = Some o →
              room_on_close o = [DeleteFromRooms (room_id o)]
}.

(** The running task, suspended in [Room.create], waits for a room the
    registry does not hold. *)
Definition running_absent (st : state) : Prop :=
  ∀ t rest, queue st = t :: rest → rooms st !! task_roomId t = None.

Definition registry_ok (st : state) : Prop :=
  registry_agrees st ∧ running_absent st.

(** Every worker of the pool carries the one "died" listener
    [runMediasoupWorkers] registers. *)
Definition watched (st : state) : Prop :=
  Forall (fun w => on_died w = [ExitInTwoSeconds]) (mediasoupWorkers st).

(** The cursor is on a slot of the pool (when the pool has one). *)
Definition cursor_in_pool (st : state) : Prop :=
  mediasoupWorkers st = []
  ∨ (nextMediasoupWorkerIdx st < length (mediasoupWorkers st))%nat.

(** The HTTPS server, if it has been created, has no "request" listener,
    and the constant [expressApp] of the server script is [undefined]. *)
Definition unwired (st : state) : Prop :=
  imported_expressApp st = None
  ∧ (httpsServer st = None ∨ httpsServer st = Some None).

(** The states the process can be in: after start-up, then after any
    events. *)
Definition reachable (env : environment) (st : state) : Prop :=
  ∃ numWorkers evs, st = steps env evs (started env numWorkers).

(** ** Properties of calls *)

Definition is_CallRoomCreate (e : effect) : bool :=
  match e with
  | CallRoomCreate _ _ => true
  | _ => false
  end.

Definition is_CallCreateWorker (e : effect) : bool :=
  match e with
  | CallCreateWorker => true
  | _ => false
  end.


(** Calls other than [mediasoup.createWorker], [Room.create], a method of
    a Room. *)
Definition not_createWorker (e : effect) : Prop := is_CallCreateWorker e = false.
Definition not_Room_create (e : effect) : Prop := is_CallRoomCreate e = false.

(** A call a task makes while it joins [room]: not [Room.create], and if
    it is [handleProtooConnection], it is on [room]. *)
Definition joins (room : roomRef) (e : effect) : Prop :=
  is_CallRoomCreate e = false
  ∧ ∀ r peerId transport, e = CallHandleProtooConnection r peerId transport → r = room.

(** How many times [Room.create] has been called. *)
Definition Room_create_calls (st : state) : nat :=
  length (List.filter is_CallRoomCreate (trace st)).

(** A request the listener does not reject, for the room [roomId]. *)
Definition asks_for (roomId : value) (info : connectionRequest) : Prop :=
  query_roomId info = roomId
  ∧ truthy (query_roomId info) = true
  ∧ truthy (query_peerId info) = true.

(** ** Calls of [getOrCreateRoom] in a row *)

(** A computation with its outcome as a value. *)
Definition attempt {A} (m : M A) : M (outcome A) :=
  fun st => let (o, st') := m st in (Returns o, st').

(** Calls of [getOrCreateRoom] for one identifier, each run to its end
    before the next starts, as the queue runs the tasks that make them.
    [settles] says, for each call, how [Room.create] settles if that call
    makes it. *)
Fixpoint getOrCreateRoom_serially (settles : list (option Error.t)) (roomId : value)
  : M (list (outcome roomRef)) :=
  match settles with
  | [] => mret []
  | rejected :: rest =>
      r ← attempt (getOrCreateRoom rejected roomId);
      rs ← getOrCreateRoom_serially rest roomId;
      mret (r :: rs)
  end.

(** ** The states [getOrCreateRoom] goes through *)

(** The Room [getOrCreateRoom] leaves behind: just constructed for
    [roomId], with the listener that deletes [roomId] from the registry. *)
Definition new_room (roomId : value) : roomObj :=
  {| room_id := roomId;
     room_on_close := [DeleteFromRooms roomId];
     room_closed := false |}.

(** The state a call of [getOrCreateRoom] is in while it awaits
    [Room.create]: the creation is logged, the cursor of the pool has
    moved on, [Room.create] has been called. *)
Definition awaiting_Room_create (roomId : value) (st : state) : state :=
  set_trace
    (trace st ++
       [Log INFO "creating a new Room [roomId:%s]" [ArgValue roomId];
        CallRoomCreate (mediasoupWorkers st !! nextMediasoupWorkerIdx st) roomId])
    (snd (getMediasoupWorker st)).

(** The state once [getOrCreateRoom] has registered the new Room. *)
Definition with_new_room (roomId : value) (st : state) : state :=
  set_roomObjects (roomObjects st ++ [new_room roomId])
    (set_rooms (<[roomId := length (roomObjects st)]> (rooms st)) st).

(** ** Relations between the state before and the state after *)

(** [m] keeps the relation [R] between the state it starts in and the
    state it leaves, whatever it returns or throws. *)
Definition respects (R : state → state → Prop) {A} (m : M A) : Prop :=
  ∀ st, R st (snd (m st)).

(** The pool is the same. *)
Definition same_pool (st st' : state) : Prop :=
  mediasoupWorkers st' = mediasoupWorkers st.

Definition stays_watched (st st' : state) : Prop := watched st → watched st'.

Definition keeps_cursor_in_pool (st st' : state) : Prop :=
  mediasoupWorkers st' = mediasoupWorkers st
  ∧ (cursor_in_pool st → cursor_in_pool st').

(** The registry and the rooms are the same. *)
Definition same_registry (st st' : state) : Prop :=
  rooms st' = rooms st ∧ roomObjects st' = roomObjects st.

(** The queue is the same too. *)
Definition same_registry_and_queue (st st' : state) : Prop :=
  same_registry st st' ∧ queue st' = queue st.

(** No identifier has left the registry. *)
Definition keeps_entries (st st' : state) : Prop :=
  ∀ roomId, is_Some (rooms st !! roomId) → is_Some (rooms st' !! roomId).

(** Nothing changed but the trace, which grew by calls that satisfy [P]. *)
Definition only_calls (P : effect → Prop) (st st' : state) : Prop :=
  ∃ effs, st' = set_trace (trace st ++ effs) st ∧ Forall P effs.

(** The trace grew by calls that satisfy [P]. *)
Definition more_calls (P : effect → Prop) (st st' : state) : Prop :=
  ∃ effs, trace st' = trace st ++ effs ∧ Forall P effs.

(** The HTTPS server and the imported [expressApp] are the same. *)
Definition same_wiring (st st' : state) : Prop :=
  imported_expressApp st' = imported_expressApp st
  ∧ httpsServer st' = httpsServer st.

(** ** An example process *)

(** A plain error, as a Room method may reject with. *)
Definition plain_error : Error.t :=
  {| Error.name := "Error"; Error.message := "boom"; Error.status := None |}.

(** An error whose [status] is set, to 0. *)
Definition zero_status_error : Error.t :=
  {| Error.name := "Error"; Error.message := "boom"; Error.status := Some 0%Z |}.



(** [GET /rooms/does-not-exist] *)
Definition get_unknown_room : httpRequest :=
  {| req_route := GET_room "does-not-exist";
     req_parsed := Returns (JObject []);
     req_query := JObject [] |}.

(** The collaborators of the examples: [createWorker] always resolves,
    [handleProtooConnection] never throws. *)
Definition example_env : environment :=
  {| createWorker := fun i => Returns (1000 + Z.of_nat i)%Z;
     handleProtooConnection := fun _ _ _ => None |}.

(** The process started with two workers. *)
Definition example_started : state := started example_env 2.

(** Two peers that ask for the room "room-A". *)
Definition alice : connectionRequest :=
  {| query_roomId := Str "room-A"; query_peerId := Str "alice";
     remoteAddress := "10.0.0.1"; origin := "https://example.org";
     request := 1; accept_throws := None |}.

Definition bob : connectionRequest :=
  {| query_roomId := Str "room-A"; query_peerId := Str "bob";
     remoteAddress := "10.0.0.2"; origin := "https://example.org";
     request := 2; accept_throws := None |}.

(** A request without [roomId]. *)
Definition nameless : connectionRequest :=
  {| query_roomId := Undefined; query_peerId := Str "carol";
     remoteAddress := "10.0.0.3"; origin := "https://example.org";
     request := 3; accept_throws := None |}.

(** The process once alice is in "room-A". *)
Definition example_with_room : state :=
  steps example_env [ConnectionRequest alice; RoomCreateSettled None] example_started.

(** The process while the task of alice awaits [Room.create]. *)
Definition example_awaiting : state :=
  steps example_env [ConnectionRequest alice] example_started.

(** The task of alice. *)
Definition alice_task : task :=
  {| task_roomId := Str "room-A"; task_peerId := Str "alice";
     task_request := 1; task_accept := None |}.

(** ** Start-up, told by what it leaves behind *)

(** The worker [runMediasoupWorkers] pushes onto the pool for a worker
    whose pid is [p]: it carries the "died" listener. *)
Definition launched (p : Z) : worker := {| pid := p; on_died := [ExitInTwoSeconds] |}.

(** The calls one iteration of the loop of [runMediasoupWorkers] makes
    when [mediasoup.createWorker] resolves with a worker of pid [p]. *)
Definition launch_calls (p : Z) : list effect :=
  [CallCreateWorker; SetInterval (LogWorkerUsage p) 120000].

(** ** The calls of a trace, sorted *)

(** The requests whose [accept] has been called, in the order of the
    calls. *)
Fixpoint accepted (calls : list effect) : list nat :=
  match calls with
  | [] => []
  | CallAccept request :: rest => request :: accepted rest
  | _ :: rest => accepted rest
  end.

(** The calls of [Room.create]: for which [roomId], on which worker, in
    the order of the calls. *)
Fixpoint placements (calls : list effect) : list (value * option worker) :=
  match calls with
  | [] => []
  | CallRoomCreate mediasoupWorker roomId :: rest =>
      (roomId, mediasoupWorker) :: placements rest
  | _ :: rest => placements rest
  end.


(** A call that carries the identifier a connection request must have:
    [Room.create] a [roomId], [handleProtooConnection] a [peerId]. *)
Definition identified (e : effect) : Prop :=
  match e with
  | CallRoomCreate _ roomId => truthy roomId = true
  | CallHandleProtooConnection _ peerId _ => truthy peerId = true
  | _ => True
  end.

(** A queued task whose [roomId] and [peerId] passed the check of the
    "connectionrequest" listener. *)
Definition task_identified (t : task) : Prop :=
  truthy (task_roomId t) = true ∧ truthy (task_peerId t) = true.

(** The request [request] has been answered: [accept] or [reject] has
    been called for it. *)
Definition answered (st : state) (request : nat) : Prop :=
  CallAccept request ∈ trace st ∨ ∃ r, CallReject request r ∈ trace st.

(** The request [request] waits in the queue. *)
Definition queued (st : state) (request : nat) : Prop :=
  ∃ t, t ∈ queue st ∧ task_request t = request.

(** ** What a queued task does, spelled out *)

(** The calls of the [.catch(...)] of a task for the error [e]. *)
Definition rejected_calls (t : task) (e : Error.t) : list effect :=
  [Log ERROR "room creation or room joining failed:%o" [ArgError e];
   CallReject (task_request t) (RejectError e)].

(** The calls of the arrow of a task from the moment it has its [room]:
    [accept], then, unless [accept] threw, [handleProtooConnection] on the
    room. *)
Definition attempt_calls (t : task) (room : roomRef) : list effect :=
  CallAccept (task_request t) ::
  match task_accept t with
  | Some _ => []
  | None => [CallHandleProtooConnection room (task_peerId t) (task_request t)]
  end.

(** What the arrow throws in doing so, if one of the two throws. *)
Definition join_thrown (env : environment) (t : task) (room : roomRef) : option Error.t :=
  match task_accept t with
  | Some e => Some e
  | None => handleProtooConnection env room (task_peerId t) (task_request t)
  end.

(** The calls of the reaction [.catch(...)] of a failed task. *)
Definition catch_calls (failed : option (task * Error.t)) : list effect :=
  match failed with
  | Some (t, e) => rejected_calls t e
  | None => []
  end.

(** The calls of a task from the moment it has its [room], when no other
    task is pending: [accept], then [handleProtooConnection] on the room;
    if one of the two throws, the error is logged and the request
    rejected. *)
Definition join_calls (env : environment) (t : task) (room : roomRef) : list effect :=
  CallAccept (task_request t) ::
  match task_accept t with
  | Some e => rejected_calls t e
  | None =>
      CallHandleProtooConnection room (task_peerId t) (task_request t) ::
      match handleProtooConnection env room (task_peerId t) (task_request t) with
      | Some e => rejected_calls t e
      | None => []
      end
  end.

(** The pending tasks the queue can run to their end without waiting:
    those at the front whose room is in the registry.  The first task
    whose room is not, and the tasks behind it, stay in the queue. *)
Fixpoint runnable (registry : gmap value roomRef) (pending : list task) : list task :=
  match pending with
  | [] => []
  | t :: rest =>
      match registry !! task_roomId t with
      | Some _ => t :: runnable registry rest
      | None => []
      end
  end.

Fixpoint blocked (registry : gmap value roomRef) (pending : list task) : list task :=
  match pending with
  | [] => []
  | t :: rest =>
      match registry !! task_roomId t with
      | Some _ => blocked registry rest
      | None => t :: rest
      end
  end.

(** The calls of [getOrCreateRoom] for the task at the head of [pending],
    if there is one, when its room is not in the registry and
    [mediasoupWorker] is the worker the cursor is on. *)
Definition creation_calls (mediasoupWorker : option worker) (pending : list task)
  : list effect :=
  match pending with
  | [] => []
  | t :: _ =>
      [Log INFO "creating a new Room [roomId:%s]" [ArgValue (task_roomId t)];
       CallRoomCreate mediasoupWorker (task_roomId t)]
  end.

(** The calls the queue makes on its [pending] tasks, in the order it
    makes them, for a [registry] and the worker the cursor is on, when
    the reaction of the task [failed] is still to run. *)
Fixpoint queue_calls (env : environment) (registry : gmap value roomRef)
    (mediasoupWorker : option worker) (failed : option (task * Error.t))
    (pending : list task) : list effect :=
  match pending with
  | [] => catch_calls failed
  | t :: rest =>
      match registry !! task_roomId t with
      | None => creation_calls mediasoupWorker (t :: rest) ++ catch_calls failed
      | Some room =>
          catch_calls failed ++ attempt_calls t room
          ++ queue_calls env registry mediasoupWorker (pair t <$> join_thrown env t room) rest
      end
  end.

(** The cursor of the pool once the task at the head of [pending], if
    there is one, has called [getMediasoupWorker]. *)
Definition cursor_after (pending : list task) (st : state) : state :=
  match pending with
  | [] => st
  | _ :: _ => snd (getMediasoupWorker st)
  end.

(** The state in which the arrow of the task [t], suspended at the head
    of the queue, comes to its end once the promise of [Room.create] has
    settled, and what it has thrown if it has. *)
Definition resumed (rejected : option Error.t) (t : task) (st : state) : state :=
  match rejected with
  | Some _ => st
  | None =>
      set_trace (trace st ++ attempt_calls t (length (roomObjects st)))
        (with_new_room (task_roomId t) st)
  end.

Definition resume_thrown (env : environment) (rejected : option Error.t) (t : task)
    (st : state) : option Error.t :=
  match rejected with
  | Some e => Some e
  | None => join_thrown env t (length (roomObjects st))
  end.

(** ** Events, sorted *)

Definition is_WorkerDied (ev : event) : bool :=
  match ev with
  | WorkerDied _ => true
  | _ => false
  end.

Definition is_RoomCreateSettled (ev : event) : bool :=
  match ev with
  | RoomCreateSettled _ => true
  | _ => false
  end.

(** ** Requests as Express hands them to a route *)

(** A value a handler can destructure ([const { id } = req.body]): an
    object or an array.  [req.body] is one whenever [bodyParser.json()]
    accepted the body (it takes objects and arrays only, and leaves [{}]
    when there is no body); [req.query] always is an object. *)
Definition destructurable (j : json) : bool :=
  match j with
  | JObject _ | JArray _ => true
  | _ => false
  end.

Definition from_express (req : httpRequest) : Prop :=
  (∀ body, req_parsed req = Returns body → destructurable body = true)
  ∧ destructurable (req_query req) = true.

Definition is_DELETE (r : route) : bool :=
  match r with
  | DELETE_broadcaster _ _ => true
  | _ => false
  end.

(** The routes whose handler calls the Room without [await]. *)
Definition calls_without_await (r : route) : bool :=
  match r with
  | GET_room _ | DELETE_broadcaster _ _ => true
  | _ => false
  end.

(** What the handler of the route gets from the call. *)
Definition handler_gets (r : route) (answer : roomAnswer) : outcome json :=
  if calls_without_await r then not_awaited answer else awaited answer.

(** node writes the status line of the error handler's response for
    [error]. *)
Definition sendable (error : Error.t) : bool :=
  valid_statusCode (error_status error) && valid_statusMessage (Error.message error).

(** What node throws when it does not. *)
Definition refusal (error : Error.t) : Error.t :=
  if valid_statusCode (error_status error) then ERR_INVALID_CHAR
  else ERR_HTTP_INVALID_STATUS_CODE (error_status error).

(** The calls of the error handler for [error]. *)
Definition errorHandler_calls (error : Error.t) : list effect :=
  Log WARN "Express app %s" [ArgString (Error.toString error)] ::
  if sendable error then [Respond (error_response error)] else [].

(** ** Rooms created one after the other *)

(** Calls of [getOrCreateRoom], one per identifier of [roomIds], each run
    to its end ([Room.create] resolving) before the next starts. *)
Fixpoint getOrCreateRoom_each (roomIds : list value) : M (list roomRef) :=
  match roomIds with
  | [] => mret []
  | roomId :: rest =>
      room ← getOrCreateRoom None roomId;
      others ← getOrCreateRoom_each rest;
      mret (room :: others)
  end.

(** ** More examples *)

(** A process configured with no worker. *)
Definition example_no_worker : state := started example_env 0.

(** Collaborators whose second [createWorker] rejects. *)
Definition example_env_failing : environment :=
  {| createWorker := fun i => if (i =? 1)%nat then Throws plain_error
                              else Returns (1000 + Z.of_nat i)%Z;
     handleProtooConnection := fun _ _ _ => None |}.

(** A peer that asks for the room "room-B". *)
Definition carol : connectionRequest :=
  {| query_roomId := Str "room-B"; query_peerId := Str "carol";
     remoteAddress := "10.0.0.3"; origin := "https://example.org";
     request := 4; accept_throws := None |}.

(** A peer whose [accept] throws. *)
Definition dave : connectionRequest :=
  {| query_roomId := Str "room-D"; query_peerId := Str "dave";
     remoteAddress := "10.0.0.4"; origin := "https://example.org";
     request := 5; accept_throws := Some plain_error |}.

(** [GET /rooms/room-A] *)
Definition get_room_A : httpRequest :=
  {| req_route := GET_room "room-A";
     req_parsed := Returns (JObject []);
     req_query := JObject [] |}.

(** ** What an event leaves alone *)

(** The event changed neither the queue nor the trace nor the timers,
    and added nothing to the registry. *)
Definition only_unregisters (st st' : state) : Prop :=
  queue st' = queue st
  ∧ trace st' = trace st
  ∧ timeouts st' = timeouts st
  ∧ exited st' = exited st
  ∧ ∀ roomId room, rooms st' !! roomId = Some room → rooms st !! roomId = Some room.

(** The timers and the exit status are the same. *)
Definition same_clock (st st' : state) : Prop :=
  timeouts st' = timeouts st ∧ exited st' = exited st.

(** The only timer the gateway sets: [process.exit(1)] in 2000 ms. *)
Definition exit_timer : timeoutCallback * Z := (ProcessExit 1, 2000%Z).

(** Timers were added, all of them exit timers, and nothing else changed
    in the timers and the exit status. *)
Definition more_exit_timers (st st' : state) : Prop :=
  exited st' = exited st
  ∧ ∃ more, timeouts st' = timeouts st ++ more ∧ Forall (fun timer => timer = exit_timer) more.

(** Every identifier the gateway has passed on, holds in its queue or
    has registered a room under went through the check of the
    "connectionrequest" listener. *)
Definition identifiers_checked (st : state) : Prop :=
  Forall identified (trace st)
  ∧ Forall task_identified (queue st)
  ∧ ∀ roomId room, rooms st !! roomId = Some room → truthy roomId = true.

(** The process while the task of alice awaits [Room.create] and the
    request of bob waits behind it. *)
Definition example_two_waiting : state :=
  steps example_env [ConnectionRequest alice; ConnectionRequest bob] example_started.

(** The task of bob. *)
Definition bob_task : task :=
  {| task_roomId := Str "room-A"; task_peerId := Str "bob";
     task_request := 2; task_accept := None |}.




(** An error whose status is no status code. *)
Definition status_1000_error : Error.t :=
  {| Error.name := "Error"; Error.message := "boom"; Error.status := Some 1000%Z |}.

(** The response of a route whose handler got [data] from the Room. *)
Definition served_response (r : route) (data : json) : response :=
  {| res_status := 200;
     res_statusMessage := None;
     res_body := if is_DELETE r then SendText "broadcaster deleted" else SendJson data |}.

(** The process while the task of dave awaits [Room.create] and the
    request of carol waits behind it. *)
Definition example_dave_carol : state :=
  steps example_env [ConnectionRequest dave; ConnectionRequest carol] example_started.
(** ** Reasoning about computations *)

(** Unfold the combinators of [M] and the field updates, then reduce the
    field reads this exposes. *)
Ltac munfold :=
  cbv [exec mbind M_bind mret M_ret gets modify emit logger throw try_catch
       setTimeout reject Room_create rooms_get rooms_has rooms_set rooms_delete
       set_mediasoupWorkers set_nextMediasoupWorkerIdx set_rooms set_roomObjects
       set_queue set_room_js_expressApp set_imported_expressApp set_httpsServer
       set_protooWebSocketServer set_timeouts set_exited set_trace];
  cbn [mediasoupWorkers nextMediasoupWorkerIdx rooms roomObjects queue
       room_js_expressApp imported_expressApp httpsServer protooWebSocketServer
       timeouts exited trace fst snd].

Lemma state_eta (st : state) :
  {| mediasoupWorkers := mediasoupWorkers st;
     nextMediasoupWorkerIdx := nextMediasoupWorkerIdx st;
     rooms := rooms st; roomObjects := roomObjects st; queue := queue st;
     room_js_expressApp := room_js_expressApp st;
     imported_expressApp := imported_expressApp st;
     httpsServer := httpsServer st;
     protooWebSocketServer := protooWebSocketServer st;
     timeouts := timeouts st; exited := exited st; trace := trace st |} = st.
Proof. by destruct st. Qed.

(** ** The worker pool *)

Lemma getMediasoupWorker_eq (st : state) :
  getMediasoupWorker st =
    (Returns (mediasoupWorkers st !! nextMediasoupWorkerIdx st),
     set_nextMediasoupWorkerIdx
       (if (S (nextMediasoupWorkerIdx st) =? length (mediasoupWorkers st))%nat
        then 0 else S (nextMediasoupWorkerIdx st)) st).
Proof.
  unfold getMediasoupWorker. munfold.
  by destruct (S (nextMediasoupWorkerIdx st) =? length (mediasoupWorkers st))%nat.
Qed.

(** From a cursor inside the pool, a call returns the worker under the
    cursor and moves the cursor one slot on, cyclically. *)
Lemma getMediasoupWorker_in_range (st : state) :
  nextMediasoupWorkerIdx st < length (mediasoupWorkers st) →
  getMediasoupWorker st =
    (Returns (mediasoupWorkers st !! nextMediasoupWorkerIdx st),
     set_nextMediasoupWorkerIdx
       (S (nextMediasoupWorkerIdx st) `mod` length (mediasoupWorkers st)) st).
Proof.
  intros Hlt. rewrite getMediasoupWorker_eq. do 2 f_equal.
  destruct (Nat.eqb_spec (S (nextMediasoupWorkerIdx st)) (length (mediasoupWorkers st)))
    as [-> | Hne].
  - by rewrite Nat.Div0.mod_same.
  - rewrite Nat.mod_small; lia.
Qed.

(** [k] calls from a cursor [c] inside a pool of [N] workers return the
    workers of the slots [c], [c+1], ... taken modulo [N], and leave the
    cursor at [(c + k) mod N]. *)
Lemma getMediasoupWorker_times_in_range (k : nat) (st : state) :
  nextMediasoupWorkerIdx st < length (mediasoupWorkers st) →
  getMediasoupWorker_times k st =
    (Returns ((fun i => mediasoupWorkers st !!
                 ((nextMediasoupWorkerIdx st + i) `mod` length (mediasoupWorkers st)))
              <$> seq 0 k),
     set_nextMediasoupWorkerIdx
       ((nextMediasoupWorkerIdx st + k) `mod` length (mediasoupWorkers st)) st).
Proof.
  revert st. induction k as [|k IH]; intros st Hlt.
  - cbn [getMediasoupWorker_times seq fmap list_fmap]. munfold.
    rewrite Nat.add_0_r, Nat.mod_small by done.
    unfold set_nextMediasoupWorkerIdx. by rewrite state_eta.
  - cbn [getMediasoupWorker_times]. unfold mbind, M_bind at 1.
    rewrite getMediasoupWorker_in_range by done.
    set (N := length (mediasoupWorkers st)) in *.
    set (c := nextMediasoupWorkerIdx st) in *.
    unfold mbind, M_bind at 1. rewrite IH; cbn [nextMediasoupWorkerIdx mediasoupWorkers set_nextMediasoupWorkerIdx].
    2:{ apply Nat.mod_upper_bound. subst N. lia. }
    fold N. munfold. f_equal.
    + f_equal. cbn [seq fmap list_fmap]. f_equal.
      * by rewrite Nat.add_0_r, Nat.mod_small.
      * rewrite <- fmap_S_seq, <- list_fmap_compose.
        apply list_fmap_ext. intros _ i _. cbn. f_equal.
        rewrite Nat.Div0.add_mod_idemp_l. f_equal. lia.
    + f_equal. rewrite Nat.Div0.add_mod_idemp_l. f_equal. lia.
Qed.

Lemma rotate_nat_add_mod (base offset len : nat) :
  rotate_nat_add base offset len = (base + offset) `mod` len.
Proof.
  unfold rotate_nat_add.
  by rewrite <- Nat2Z.inj_add, <- Nat2Z.inj_mod, Nat2Z.id.
Qed.

(** The slots [c], [c+1], ..., taken modulo the length, are the pool read
    from slot [c] on and then from its start. *)
Lemma cyclic_slots (pool : list worker) (c : nat) :
  c < length pool →
  (fun i => pool !! ((c + i) `mod` length pool)) <$> seq 0 (length pool) =
  Some <$> (drop c pool ++ take c pool).
Proof.
  intros Hc.
  replace (drop c pool ++ take c pool) with (rotate c pool)
    by (unfold rotate; by rewrite Nat.mod_small).
  apply list_eq. intros i. rewrite !list_lookup_fmap.
  destruct (decide (i < length pool)) as [Hi | Hi].
  - rewrite lookup_seq_lt by done. rewrite lookup_rotate_r by done.
    rewrite rotate_nat_add_mod. cbn.
    destruct (lookup_lt_is_Some_2 pool ((c + i) `mod` length pool)) as [w Hw].
    { apply Nat.mod_upper_bound. lia. }
    by rewrite Hw.
  - rewrite lookup_seq_ge by lia.
    rewrite (lookup_ge_None_2 (rotate c pool)); [done|].
    rewrite length_rotate. lia.
Qed.

(** C2 (round-robin fairness).  In a pool of [N >= 1] workers with the
    cursor on one of its slots, [N] consecutive calls of
    [getMediasoupWorker] return every slot of the pool once, in pool order
    from the cursor on and wrapping at the end (that is the pool itself
    when the cursor is 0, as it is at start-up); one call more returns the
    worker of the first call again; and after any number of calls the
    cursor is on a slot of the pool. *)
Theorem getMediasoupWorker_round_robin (st : state) :
  let pool := mediasoupWorkers st in
  let N := length pool in
  let c := nextMediasoupWorkerIdx st in
  (1 ≤ N)%nat → (c < N)%nat →
  fst (getMediasoupWorker st) = Returns (pool !! c)
  ∧ fst (getMediasoupWorker_times N st) = Returns (Some <$> (drop c pool ++ take c pool))
  ∧ drop c pool ++ take c pool ≡ₚ pool
  ∧ (c = 0 → drop c pool ++ take c pool = pool)
  ∧ nextMediasoupWorkerIdx (exec (getMediasoupWorker_times N) st) = c
  ∧ fst (getMediasoupWorker_times (S N) st) =
      Returns ((Some <$> (drop c pool ++ take c pool)) ++ [pool !! c])
  ∧ (∀ k, nextMediasoupWorkerIdx (exec (getMediasoupWorker_times k) st) < N).
Proof.
  intros pool N c HN Hc. subst pool N c.
  set (pool := mediasoupWorkers st) in *.
  set (c := nextMediasoupWorkerIdx st) in *.
  repeat split.
  - by rewrite getMediasoupWorker_eq.
  - rewrite getMediasoupWorker_times_in_range by done. cbn [fst].
    f_equal. by apply cyclic_slots.
  - rewrite Permutation_app_comm. by rewrite take_drop.
  - intros ->. by rewrite drop_0, take_0, app_nil_r.
  - unfold exec. rewrite getMediasoupWorker_times_in_range by done.
    cbn [snd nextMediasoupWorkerIdx set_nextMediasoupWorkerIdx].
    fold pool c.
    rewrite <- Nat.Div0.add_mod_idemp_r, Nat.Div0.mod_same, Nat.add_0_r.
    by apply Nat.mod_small.
  - rewrite getMediasoupWorker_times_in_range by done. cbn [fst].
    f_equal. rewrite seq_S, fmap_app. fold pool c. rewrite cyclic_slots by done.
    f_equal. cbn. do 2 f_equal.
    rewrite <- Nat.Div0.add_mod_idemp_r, Nat.Div0.mod_same, Nat.add_0_r.
    by apply Nat.mod_small.
  - intros k. unfold exec. rewrite getMediasoupWorker_times_in_range by done.
    cbn [snd nextMediasoupWorkerIdx set_nextMediasoupWorkerIdx].
    apply Nat.mod_upper_bound. fold pool. lia.
Qed.

(** ** Frame reasoning

    A reflexive and transitive relation between the state before and the
    state after is kept by a computation as soon as each of its steps
    keeps it. *)
Section Respects.

Context (R : state → state → Prop) `{!Reflexive R, !Transitive R}.

Lemma respects_ret {A} (a : A) : respects R (mret a).
Proof. intros st. apply reflexivity. Qed.

Lemma respects_throw {A} (e : Error.t) : respects R (throw e : M A).
Proof. intros st. apply reflexivity. Qed.

Lemma respects_gets {A} (f : state → A) : respects R (gets f).
Proof. intros st. apply reflexivity. Qed.

Lemma respects_modify (f : state → state) :
  (∀ st, R st (f st)) → respects R (modify f).
Proof. intros Hf st. apply Hf. Qed.

Lemma respects_bind {A B} (m : M A) (f : A → M B) :
  respects R m → (∀ a, respects R (f a)) → respects R (m ≫= f).
Proof.
  intros Hm Hf st. unfold mbind, M_bind.
  specialize (Hm st). destruct (m st) as [[a | e] st1]; cbn [snd] in *.
  - etransitivity; [exact Hm | apply Hf].
  - exact Hm.
Qed.

Lemma respects_try_catch {A} (body : M A) (handler : Error.t → M A) :
  respects R body → (∀ e, respects R (handler e)) → respects R (try_catch body handler).
Proof.
  intros Hm Hf st. unfold try_catch.
  specialize (Hm st). destruct (body st) as [[a | e] st1]; cbn [snd] in *.
  - exact Hm.
  - etransitivity; [exact Hm | apply Hf].
Qed.

Lemma respects_for_each {A} (f : A → M unit) (l : list A) :
  (∀ x, respects R (f x)) → respects R (for_each f l).
Proof.
  intros Hf. induction l as [|x l IH]; cbn [for_each].
  - apply respects_ret.
  - apply respects_bind; [apply Hf | intros _; exact IH].
Qed.

Lemma respects_attempt {A} (m : M A) : respects R m → respects R (attempt m).
Proof.
  intros Hm st. unfold attempt. specialize (Hm st).
  by destruct (m st).
Qed.

End Respects.

(** One step of a proof that a computation keeps a relation: follow the
    structure of the computation. *)
Ltac respects_step :=
  lazymatch goal with
  | |- respects _ (mret _) => apply respects_ret
  | |- respects _ (throw _) => apply respects_throw
  | |- respects _ (gets _) => apply respects_gets
  | |- respects _ (mbind _ _) => apply respects_bind; [..|intros ?]
  | |- respects _ (try_catch _ _) => apply respects_try_catch; [..|intros ?]
  | |- respects _ (for_each _ _) => apply respects_for_each; [..|intros ?]
  | |- respects _ (attempt _) => apply respects_attempt
  | |- respects _ (modify _) => apply respects_modify; intros ?
  | |- respects _ (match ?x with _ => _ end) => destruct x
  end;
  try typeclasses eauto.

#[local] Instance same_pool_refl : Reflexive same_pool.
Proof. by intros st. Qed.

#[local] Instance same_pool_trans : Transitive same_pool.
Proof. unfold same_pool. intros st1 st2 st3 H1 H2. congruence. Qed.

#[local] Instance keeps_entries_refl : Reflexive keeps_entries.
Proof. by intros st k. Qed.

#[local] Instance keeps_entries_trans : Transitive keeps_entries.
Proof. unfold keeps_entries. intros st1 st2 st3 H1 H2 k Hk. auto. Qed.

Lemma set_trace_same (st : state) : set_trace (trace st) st = st.
Proof. by destruct st. Qed.

Lemma set_trace_set_trace (l1 l2 : list effect) (st : state) :
  set_trace l2 (set_trace l1 st) = set_trace l2 st.
Proof. done. Qed.

#[local] Instance only_calls_refl (P : effect → Prop) : Reflexive (only_calls P).
Proof.
  intros st. exists []. split; [|constructor].
  by rewrite app_nil_r, set_trace_same.
Qed.

#[local] Instance only_calls_trans (P : effect → Prop) : Transitive (only_calls P).
Proof.
  intros st1 st2 st3 (l1 & -> & H1) (l2 & -> & H2).
  exists (l1 ++ l2). split; [|by apply Forall_app].
  cbn [trace set_trace]. by rewrite set_trace_set_trace, app_assoc.
Qed.

#[local] Instance more_calls_refl (P : effect → Prop) : Reflexive (more_calls P).
Proof. intros st. exists []. split; [by rewrite app_nil_r | constructor]. Qed.

#[local] Instance more_calls_trans (P : effect → Prop) : Transitive (more_calls P).
Proof.
  intros st1 st2 st3 (l1 & E1 & H1) (l2 & E2 & H2).
  exists (l1 ++ l2). split; [|by apply Forall_app].
  by rewrite E2, E1, app_assoc.
Qed.

(** Unfold the handlers down to the combinators of [M]. *)
Ltac unfold_handlers :=
  cbv beta iota zeta delta
    [handle on_connectionrequest queue_push queue_settled run_catch rejection_of
     task_body_resume task_join task_catch accept reject
     room_handleProtooConnection getOrCreateRoom getOrCreateRoom_begin
     getOrCreateRoom_resume Room_create Room_create_settled room_on
     rooms_get rooms_has rooms_set rooms_delete getMediasoupWorker
     room_close run_closeListener worker_died run_diedListener
     run_timeoutCallback expressApp bodyParser_json param_roomId endpoint
     req_room_call res_json res_send errorHandler res_status_send logger emit
     setTimeout
     mediasoup_createWorker createExpressApp runHttpsServer
     runProtooWebSocketServer require_room].

Ltac respects_with leaf := repeat first [respects_step | leaf].

(** ** The pool is fixed once the process has started *)

Section PoolFixed.
Variable env : environment.

Lemma queue_next_same_pool (failed : option (task * Error.t))
    (pending : list task) :
  respects same_pool (queue_next env failed pending).
Proof.
  revert failed. induction pending as [|t rest IH]; intros failed; cbn [queue_next]; unfold_handlers.
  - respects_with ltac:(reflexivity).
  - respects_with ltac:(first [apply IH | reflexivity]).
Qed.

Lemma handle_same_pool (ev : event) : respects same_pool (handle env ev).
Proof.
  unfold_handlers.
  respects_with ltac:(first [apply queue_next_same_pool | reflexivity]).
Qed.

End PoolFixed.

(** What every listener keeps, the event loop keeps. *)
Lemma steps_respects (env : environment) (R : state → state → Prop)
    `{!Reflexive R, !Transitive R} :
  (∀ ev, respects R (handle env ev)) →
  ∀ evs st, R st (steps env evs st).
Proof.
  intros Hev evs. induction evs as [|ev evs IH]; intros st; cbn [steps fold_left].
  - reflexivity.
  - transitivity (step env st ev); [|apply IH].
    unfold step. destruct (exited st); [reflexivity | apply Hev].
Qed.

Lemma steps_same_pool (env : environment) (evs : list event) (st : state) :
  mediasoupWorkers (steps env evs st) = mediasoupWorkers st.
Proof. apply (steps_respects env same_pool), handle_same_pool. Qed.

#[local] Instance stays_watched_refl : Reflexive stays_watched.
Proof. intros st H. exact H. Qed.

#[local] Instance stays_watched_trans : Transitive stays_watched.
Proof. unfold stays_watched. intros st1 st2 st3 H1 H2. auto. Qed.

Lemma runMediasoupWorkers_loop_watched (env : environment) (remaining i : nat) :
  respects stays_watched (runMediasoupWorkers_loop env remaining i).
Proof.
  revert i. induction remaining as [|n IH]; intros i st Hw;
    cbn [runMediasoupWorkers_loop].
  - exact Hw.
  - unfold mediasoup_createWorker. munfold.
    destruct (createWorker env i) as [p | e]; cbn [snd]; [|exact Hw].
    apply IH. unfold watched in *. cbn. apply Forall_app. split; [done|].
    by repeat constructor.
Qed.

Lemma started_watched (env : environment) (numWorkers : nat) :
  watched (started env numWorkers).
Proof.
  assert (respects stays_watched (require_room;; run env numWorkers)) as H.
  { unfold run, runMediasoupWorkers. unfold_handlers.
    respects_with ltac:(first [apply runMediasoupWorkers_loop_watched | (intros H; exact H)]). }
  apply (H room_js_loaded). constructor.
Qed.

Lemma reachable_watched (env : environment) (st : state) :
  reachable env st → watched st.
Proof.
  intros (n & evs & ->). unfold watched.
  rewrite steps_same_pool. apply started_watched.
Qed.


Ltac more_calls_leaf :=
  first
    [ by (eexists [_]; split; [reflexivity | by repeat constructor])
    | by (exists []; split; [symmetry; apply app_nil_r | constructor]) ].

Lemma queue_next_no_createWorker (env : environment) (failed : option (task * Error.t))
    (pending : list task) :
  respects (more_calls not_createWorker) (queue_next env failed pending).
Proof.
  revert failed. induction pending as [|t rest IH]; intros failed; cbn [queue_next]; unfold_handlers;
    respects_with ltac:(first [apply IH | more_calls_leaf]).
Qed.

Lemma handle_no_createWorker (env : environment) (ev : event) :
  respects (more_calls not_createWorker) (handle env ev).
Proof.
  unfold_handlers.
  respects_with ltac:(first [apply queue_next_no_createWorker | more_calls_leaf]).
Qed.

Lemma steps_no_createWorker (env : environment) (evs : list event) (st : state) :
  more_calls not_createWorker st (steps env evs st).
Proof. apply (steps_respects env _), handle_no_createWorker. Qed.

(** C8 (worker death is fatal).  In any state the running process can be
    in, when a worker of the pool emits "died" the gateway logs the event
    with the worker's pid and sets a timeout of 2000 ms whose callback is
    [process.exit(1)], and does nothing else; when that timeout expires the
    process has exited with code 1; and whatever happens from the death
    on, the pool keeps the same workers and [mediasoup.createWorker] is not
    called again. *)
Theorem worker_died_exits_in_two_seconds
    (env : environment) (st : state) (i : nat) (w : worker) :
  reachable env st →
  exited st = None →
  mediasoupWorkers st !! i = Some w →
  let st1 := step env st (WorkerDied i) in
  st1 = set_timeouts (timeouts st ++ [(ProcessExit 1, 2000%Z)])
          (set_trace
             (trace st ++
                [Log ERROR "mediasoup Worker died, exiting  in 2 seconds... [pid:%d]"
                   [ArgNumber (pid w)]])
             st)
  ∧ exited (step env st1 (TimeoutExpired (length (timeouts st)))) = Some 1%Z
  ∧ (∀ evs, mediasoupWorkers (steps env evs st1) = mediasoupWorkers st
            ∧ more_calls not_createWorker st1 (steps env evs st1)).
Proof.
  intros Hreach Hrun Hw st1.
  assert (on_died w = [ExitInTwoSeconds]) as Hl.
  { apply reachable_watched in Hreach. unfold watched in Hreach.
    rewrite Forall_lookup in Hreach. by apply (Hreach i). }
  assert (st1 = set_timeouts (timeouts st ++ [(ProcessExit 1, 2000%Z)])
          (set_trace
             (trace st ++
                [Log ERROR "mediasoup Worker died, exiting  in 2 seconds... [pid:%d]"
                   [ArgNumber (pid w)]])
             st)) as Hst1.
  { subst st1. unfold step. rewrite Hrun.
    unfold handle, worker_died. munfold. rewrite Hw, Hl.
    cbn [for_each]. unfold run_diedListener. munfold. reflexivity. }
  split; [exact Hst1|]. split.
  - rewrite Hst1. unfold step at 1. cbn [exited set_timeouts set_trace]. rewrite Hrun.
    unfold handle. munfold. rewrite list_lookup_middle by done.
    unfold run_timeoutCallback. munfold. reflexivity.
  - intros evs. split.
    + rewrite steps_same_pool. by rewrite Hst1.
    + apply steps_no_createWorker.
Qed.

(** ** The connection gateway: requests without identifiers *)

Lemma falsy_of_missing_or_empty (v : value) : missing_or_empty v → truthy v = false.
Proof. by intros [-> | ->]. Qed.

(** What the listener does with a request that lacks an identifier. *)
Lemma on_connectionrequest_rejected
    (env : environment) (info : connectionRequest) (st : state) :
  missing_or_empty (query_roomId info) ∨ missing_or_empty (query_peerId info) →
  on_connectionrequest env info st =
    (Returns tt,
     set_trace
       (trace st ++
          [CallReject (request info)
             (RejectWith 400 "Connection request without roomId and/or peerId")])
       st).
Proof.
  intros Hmiss. unfold on_connectionrequest.
  assert (negb (truthy (query_roomId info)) || negb (truthy (query_peerId info)) = true)
    as ->.
  { destruct Hmiss as [H | H]; apply falsy_of_missing_or_empty in H; rewrite H;
      [done | apply orb_true_r]. }
  reflexivity.
Qed.

(** C5 (missing identifiers).  A connection request whose [roomId] or
    [peerId] query parameter is missing or empty is answered by
    [reject(400, reason)], where the reason names both [roomId] and
    [peerId]; the listener does nothing else: nothing is logged, queued or
    accepted. *)
Theorem connectionrequest_without_identifiers
    (env : environment) (info : connectionRequest) (st : state) :
  missing_or_empty (query_roomId info) ∨ missing_or_empty (query_peerId info) →
  let reason := "Connection request without roomId and/or peerId" in
  on_connectionrequest env info st =
    (Returns tt,
     set_trace (trace st ++ [CallReject (request info) (RejectWith 400 reason)]) st)
  ∧ includes "roomId" reason = true
  ∧ includes "peerId" reason = true.
Proof.
  intros Hmiss reason. split; [|by split].
  by apply on_connectionrequest_rejected.
Qed.

(** C10 (a rejected request changes nothing).  When such a request is
    delivered, the queue, the cursor of the pool, the registry and the
    rooms are what they were; the only thing that may have happened is the
    call of [reject] for that request. *)
Theorem rejected_connectionrequest_frame
    (env : environment) (info : connectionRequest) (st : state) :
  missing_or_empty (query_roomId info) ∨ missing_or_empty (query_peerId info) →
  let st' := step env st (ConnectionRequest info) in
  queue st' = queue st
  ∧ nextMediasoupWorkerIdx st' = nextMediasoupWorkerIdx st
  ∧ rooms st' = rooms st
  ∧ roomObjects st' = roomObjects st
  ∧ only_calls (fun e => ∃ r, e = CallReject (request info) r) st st'.
Proof.
  intros Hmiss st'.
  assert (only_calls (fun e => ∃ r, e = CallReject (request info) r) st st') as Hframe.
  { subst st'. unfold step. destruct (exited st); [reflexivity|].
    unfold handle. munfold. destruct (protooWebSocketServer st); [|reflexivity].
    rewrite (on_connectionrequest_rejected env info st Hmiss).
    cbn [snd]. eexists [_]. split; [reflexivity|]. repeat constructor. by eexists. }
  destruct Hframe as (effs & Heq & Heffs).
  repeat split; try by rewrite Heq.
  by exists effs.
Qed.

(** ** The room registry: [getOrCreateRoom] *)

#[local] Instance same_registry_refl : Reflexive same_registry.
Proof. by intros st. Qed.

#[local] Instance same_registry_trans : Transitive same_registry.
Proof. unfold same_registry. intros st1 st2 st3 [H1 H2] [H3 H4]. split; congruence. Qed.

#[local] Instance same_registry_and_queue_refl : Reflexive same_registry_and_queue.
Proof. by intros st. Qed.

#[local] Instance same_registry_and_queue_trans : Transitive same_registry_and_queue.
Proof.
  unfold same_registry_and_queue. intros st1 st2 st3 [H1 H2] [H3 H4].
  split; [by transitivity st2 | congruence].
Qed.

Lemma getOrCreateRoom_begin_found (roomId : value) (room : roomRef) (st : state) :
  rooms st !! roomId = Some room →
  getOrCreateRoom_begin roomId st = (Returns (Some room), st).
Proof. intros H. unfold getOrCreateRoom_begin. munfold. by rewrite H. Qed.

Lemma getOrCreateRoom_begin_absent (roomId : value) (st : state) :
  rooms st !! roomId = None →
  getOrCreateRoom_begin roomId st = (Returns None, awaiting_Room_create roomId st).
Proof.
  intros H. unfold getOrCreateRoom_begin, awaiting_Room_create.
  rewrite getMediasoupWorker_eq. munfold. rewrite H.
  unfold getMediasoupWorker. munfold.
  destruct (S (nextMediasoupWorkerIdx st) =? length (mediasoupWorkers st))%nat;
    cbn [fst snd trace mediasoupWorkers nextMediasoupWorkerIdx rooms roomObjects queue
         room_js_expressApp imported_expressApp httpsServer protooWebSocketServer
         timeouts exited];
    by rewrite <- app_assoc.
Qed.

Lemma getOrCreateRoom_resume_rejected (e : Error.t) (roomId : value) (st : state) :
  getOrCreateRoom_resume (Some e) roomId st = (Throws e, st).
Proof. reflexivity. Qed.

Lemma alter_last {A} (f : A → A) (l : list A) (x : A) :
  alter f (length l) (l ++ [x]) = l ++ [f x].
Proof.
  replace (length l) with (length l + 0) by lia.
  by rewrite alter_app_r.
Qed.

Lemma getOrCreateRoom_resume_resolved (roomId : value) (st : state) :
  getOrCreateRoom_resume None roomId st =
    (Returns (length (roomObjects st)), with_new_room roomId st).
Proof.
  unfold getOrCreateRoom_resume, Room_create_settled, room_on, with_new_room. munfold.
  by rewrite alter_last.
Qed.

Lemma getOrCreateRoom_found (rejected : option Error.t) (roomId : value) (room : roomRef)
    (st : state) :
  rooms st !! roomId = Some room →
  getOrCreateRoom rejected roomId st = (Returns room, st).
Proof.
  intros H. unfold getOrCreateRoom, mbind, M_bind.
  by rewrite (getOrCreateRoom_begin_found _ _ _ H).
Qed.

Lemma getOrCreateRoom_created (roomId : value) (st : state) :
  rooms st !! roomId = None →
  getOrCreateRoom None roomId st =
    (Returns (length (roomObjects st)),
     with_new_room roomId (awaiting_Room_create roomId st)).
Proof.
  intros H. unfold getOrCreateRoom, mbind, M_bind.
  rewrite (getOrCreateRoom_begin_absent _ _ H), getOrCreateRoom_resume_resolved.
  f_equal. unfold awaiting_Room_create. rewrite getMediasoupWorker_eq. reflexivity.
Qed.

Lemma getOrCreateRoom_failed (e : Error.t) (roomId : value) (st : state) :
  rooms st !! roomId = None →
  getOrCreateRoom (Some e) roomId st = (Throws e, awaiting_Room_create roomId st).
Proof.
  intros H. unfold getOrCreateRoom, mbind, M_bind.
  by rewrite (getOrCreateRoom_begin_absent _ _ H).
Qed.

Lemma awaiting_Room_create_same (roomId : value) (st : state) :
  same_registry_and_queue st (awaiting_Room_create roomId st).
Proof.
  unfold awaiting_Room_create. rewrite getMediasoupWorker_eq. by repeat split.
Qed.

(** C9 (a failed construction leaves no trace in the registry).  When
    [getOrCreateRoom] is called for an identifier the registry does not
    hold and [Room.create] rejects with [e], the call throws [e], and the
    registry and the rooms (with their listeners) are what they were
    before the call. *)
Theorem getOrCreateRoom_failure_atomic (e : Error.t) (roomId : value) (st : state) :
  rooms st !! roomId = None →
  fst (getOrCreateRoom (Some e) roomId st) = Throws e
  ∧ rooms (exec (getOrCreateRoom (Some e) roomId) st) = rooms st
  ∧ rooms (exec (getOrCreateRoom (Some e) roomId) st) !! roomId = None
  ∧ roomObjects (exec (getOrCreateRoom (Some e) roomId) st) = roomObjects st.
Proof.
  intros Habs. unfold exec. rewrite (getOrCreateRoom_failed _ _ _ Habs).
  destruct (awaiting_Room_create_same roomId st) as [[Hr Ho] _].
  cbn [fst snd]. by rewrite Hr, Ho.
Qed.

(** ** The queued tasks *)


(** Computing with states whose fields are known. *)
Ltac mcompute :=
  cbv [exec mbind M_bind mret M_ret gets modify emit logger throw try_catch
       setTimeout reject Room_create rooms_get rooms_has rooms_set rooms_delete
       set_mediasoupWorkers set_nextMediasoupWorkerIdx set_rooms set_roomObjects
       set_queue set_room_js_expressApp set_imported_expressApp set_httpsServer
       set_protooWebSocketServer set_timeouts set_exited set_trace
       mediasoupWorkers nextMediasoupWorkerIdx rooms roomObjects queue
       room_js_expressApp imported_expressApp httpsServer protooWebSocketServer
       timeouts exited trace fst snd].

Lemma task_catch_eq (t : task) (e : Error.t) (st : state) :
  task_catch t e st = (Returns tt, set_trace (trace st ++ rejected_calls t e) st).
Proof. unfold task_catch, rejected_calls. munfold. by rewrite <- app_assoc. Qed.

Lemma run_catch_eq (failed : option (task * Error.t)) (st : state) :
  run_catch failed st = (Returns tt, set_trace (trace st ++ catch_calls failed) st).
Proof.
  destruct failed as [[t e]|]; cbn [run_catch catch_calls].
  - apply task_catch_eq.
  - rewrite app_nil_r. by destruct st.
Qed.

Lemma runnable_blocked (registry : gmap value roomRef) (pending : list task) :
  runnable registry pending ++ blocked registry pending = pending.
Proof.
  induction pending as [|t rest IH]; [done|]. cbn.
  destruct (registry !! task_roomId t); [|done]. cbn. by rewrite IH.
Qed.

Lemma blocked_head (registry : gmap value roomRef) (pending : list task) (t : task)
    (rest : list task) :
  blocked registry pending = t :: rest → registry !! task_roomId t = None.
Proof.
  induction pending as [|t0 rest0 IH]; [done|]. cbn.
  destruct (registry !! task_roomId t0) eqn:H0; [done|]. by intros [= <- _].
Qed.

Lemma runnable_registered (registry : gmap value roomRef) (pending : list task) :
  Forall (fun t => is_Some (registry !! task_roomId t)) (runnable registry pending).
Proof.
  induction pending as [|t rest IH]; [constructor|]. cbn.
  destruct (registry !! task_roomId t) eqn:H0; [|constructor].
  constructor; [by rewrite H0 | done].
Qed.

Lemma blocked_suffix (registry : gmap value roomRef) (pending : list task) :
  blocked registry pending `suffix_of` pending.
Proof. exists (runnable registry pending). symmetry. apply runnable_blocked. Qed.

Section Tasks.

Variable env : environment.

(** The arrow of a task from the moment it has its room. *)
Lemma task_join_eq (t : task) (room : roomRef) (st : state) :
  rejection_of (task_join env t room) st =
    (Returns (join_thrown env t room),
     set_trace (trace st ++ attempt_calls t room) st).
Proof.
  unfold rejection_of, task_join, accept, room_handleProtooConnection, join_thrown,
    attempt_calls.
  munfold.
  destruct (task_accept t) as [e|]; munfold;
    [|destruct (handleProtooConnection env room (task_peerId t) (task_request t)) as [e|]];
    munfold; rewrite <- ?app_assoc; reflexivity.
Qed.

(** The suspended arrow of a task from the moment [Room.create] has
    settled. *)
Lemma task_body_resume_eq (rejected : option Error.t) (t : task) (st : state) :
  rejection_of (task_body_resume env rejected t) st =
    (Returns (resume_thrown env rejected t st), resumed rejected t st).
Proof.
  destruct rejected as [e|]; cbn [resume_thrown resumed].
  - unfold rejection_of, task_body_resume, try_catch, mbind, M_bind.
    by rewrite getOrCreateRoom_resume_rejected.
  - pose proof (task_join_eq t (length (roomObjects st))
                  (with_new_room (task_roomId t) st)) as Hjoin.
    unfold rejection_of, task_body_resume, try_catch, mbind, M_bind in *.
    rewrite getOrCreateRoom_resume_resolved.
    by destruct (task_join env t _ _) as [[[]|e] st1].
Qed.

Lemma join_calls_eq (t : task) (room : roomRef) :
  join_calls env t room =
    attempt_calls t room ++ catch_calls (pair t <$> join_thrown env t room).
Proof.
  unfold join_calls, attempt_calls, join_thrown.
  destruct (task_accept t) as [e|]; [done|].
  by destruct (handleProtooConnection env room (task_peerId t) (task_request t)).
Qed.

(** The queue on its pending tasks: it runs those whose room is in the
    registry, one after the other, and the first whose room is not is
    left suspended in [Room.create], the others behind it. *)
Lemma queue_next_eq (failed : option (task * Error.t)) (pending : list task) (st : state) :
  queue st = pending →
  exec (queue_next env failed pending) st =
    set_trace
      (trace st ++
         queue_calls env (rooms st) (mediasoupWorkers st !! nextMediasoupWorkerIdx st)
           failed pending)
      (cursor_after (blocked (rooms st) pending)
         (set_queue (blocked (rooms st) pending) st)).
Proof.
  revert failed st. induction pending as [|t rest IH]; intros failed st Hq.
  - unfold exec. cbn [queue_next queue_calls blocked cursor_after]. rewrite run_catch_eq.
    destruct st. cbn in Hq. by subst.
  - unfold exec. cbn [queue_next queue_calls blocked]. unfold mbind, M_bind at 1.
    destruct (rooms st !! task_roomId t) as [room|] eqn:Hroom.
    + rewrite (getOrCreateRoom_begin_found _ _ _ Hroom).
      unfold mbind, M_bind at 1. rewrite run_catch_eq.
      unfold mbind, M_bind at 1. rewrite task_join_eq.
      unfold mbind, M_bind at 1. unfold modify at 1.
      match goal with |- snd (queue_next env ?f rest ?s) = _ =>
        change (snd (queue_next env f rest s)) with (exec (queue_next env f rest) s);
        rewrite (IH f s eq_refl) end.
      cbn [set_queue set_trace rooms trace mediasoupWorkers nextMediasoupWorkerIdx].
      destruct (blocked (rooms st) rest) as [|t' rest']; cbn [cursor_after].
      * destruct st. mcompute. by rewrite <- !app_assoc.
      * rewrite !getMediasoupWorker_eq. destruct st. mcompute. by rewrite <- !app_assoc.
    + rewrite (getOrCreateRoom_begin_absent _ _ Hroom).
      unfold mbind, M_bind at 1. rewrite run_catch_eq. cbn [cursor_after creation_calls].
      unfold awaiting_Room_create. rewrite !getMediasoupWorker_eq.
      destruct st. cbn in Hq. subst. mcompute. by rewrite <- !app_assoc.
Qed.

(** The queue after it has run what it can: its fields. *)
Lemma queue_next_result (failed : option (task * Error.t)) (pending : list task)
    (st : state) :
  queue st = pending →
  let st' := exec (queue_next env failed pending) st in
  trace st' =
    trace st ++
      queue_calls env (rooms st) (mediasoupWorkers st !! nextMediasoupWorkerIdx st)
        failed pending
  ∧ queue st' = blocked (rooms st) pending
  ∧ rooms st' = rooms st
  ∧ roomObjects st' = roomObjects st
  ∧ mediasoupWorkers st' = mediasoupWorkers st
  ∧ timeouts st' = timeouts st
  ∧ exited st' = exited st.
Proof.
  intros Hq. cbn zeta. rewrite (queue_next_eq failed pending st Hq).
  destruct (blocked (rooms st) pending); cbn [cursor_after]; [done|].
  rewrite getMediasoupWorker_eq. by destruct st.
Qed.

(** The calls of the queue, whatever their order. *)
Lemma queue_calls_Forall (P : effect → Prop) (registry : gmap value roomRef)
    (mediasoupWorker : option worker) (failed : option (task * Error.t))
    (pending : list task) :
  Forall P (catch_calls failed) →
  (∀ t room, t ∈ pending → registry !! task_roomId t = Some room →
             Forall P (join_calls env t room)) →
  (∀ t, t ∈ pending → registry !! task_roomId t = None →
        Forall P (creation_calls mediasoupWorker [t])) →
  Forall P (queue_calls env registry mediasoupWorker failed pending).
Proof.
  revert failed. induction pending as [|t rest IH]; intros failed Hfailed Hjoin Hcreate;
    cbn [queue_calls]; [done|].
  destruct (registry !! task_roomId t) as [room|] eqn:Hroom.
  - pose proof (Hjoin t room (list_elem_of_here _ _) Hroom) as Ht.
    rewrite join_calls_eq in Ht. apply Forall_app in Ht as [Hattempt Hcatch].
    apply Forall_app. split; [done|]. apply Forall_app. split; [done|].
    apply IH; [done| |].
    + intros t' room' Hin. by apply Hjoin, list_elem_of_further.
    + intros t' Hin. by apply Hcreate, list_elem_of_further.
  - apply Forall_app. split; [|done].
    by apply (Hcreate t (list_elem_of_here _ _)).
Qed.

End Tasks.
(** ** The registry and the rooms agree in every reachable state *)

Lemma registry_agrees_same (st st' : state) :
  same_registry st st' → registry_agrees st → registry_agrees st'.
Proof.
  intros [Hr Ho] [H1 H2 H3]. unfold live in *.
  split; unfold live; rewrite ?Hr, ?Ho; auto.
Qed.

Lemma registry_ok_same (st st' : state) :
  same_registry_and_queue st st' → registry_ok st → registry_ok st'.
Proof.
  intros [Hreg Hq] [Hagree Hrun]. split.
  - by apply (registry_agrees_same st).
  - unfold running_absent. destruct Hreg as [-> _]. by rewrite Hq.
Qed.

(** Registering a new Room under an identifier the registry does not
    hold keeps the agreement. *)
Lemma with_new_room_agrees (roomId : value) (st : state) :
  rooms st !! roomId = None →
  registry_agrees st → registry_agrees (with_new_room roomId st).
Proof.
  intros Habs [H1 H2 H3]. unfold live in *.
  split; unfold live; cbn [with_new_room rooms roomObjects set_rooms set_roomObjects].
  - intros k r. rewrite lookup_insert. case_decide as Hk.
    + intros [= <-]. subst k. exists (new_room roomId).
      by rewrite list_lookup_middle.
    + intros Hr. destruct (H1 _ _ Hr) as (o & Ho & Hid & Hcl).
      exists o. split; [|done]. by apply lookup_app_l_Some.
  - intros k r (o & Ho & Hid & Hcl). rewrite lookup_insert.
    apply lookup_app_Some in Ho as [Ho | [Hlen Ho]].
    + assert (rooms st !! k = Some r) as Hr by (apply H2; eauto).
      case_decide; [congruence | done].
    + destruct (r - length (roomObjects st)) as [|n] eqn:En; [|by destruct n].
      cbn in Ho. injection Ho as <-. cbn in Hid. subst k.
      rewrite decide_True by done. f_equal. lia.
  - intros r o Ho. apply lookup_app_Some in Ho as [Ho | [Hlen Ho]]; [eauto|].
    destruct (r - length (roomObjects st)) as [|n]; [|by destruct n].
    cbn in Ho. by injection Ho as <-.
Qed.

(** The state after a live room has emitted "close". *)
Lemma room_close_live (room : roomRef) (o : roomObj) (st : state) :
  roomObjects st !! room = Some o →
  room_closed o = false →
  room_on_close o = [DeleteFromRooms (room_id o)] →
  exec (room_close room) st =
    set_rooms (delete (room_id o) (rooms st))
      (set_roomObjects
         (alter (fun o => {| room_id := room_id o;
                             room_on_close := room_on_close o;
                             room_closed := true |}) room (roomObjects st))
         st).
Proof.
  intros Ho Hcl Hl. unfold room_close. munfold. rewrite Ho, Hcl. munfold.
  rewrite Hl. cbn [for_each]. unfold run_closeListener. munfold. reflexivity.
Qed.

Lemma room_close_not_live (room : roomRef) (st : state) :
  (∀ o, roomObjects st !! room = Some o → room_closed o = true) →
  exec (room_close room) st = st.
Proof.
  intros H. unfold room_close. munfold.
  destruct (roomObjects st !! room) as [o|] eqn:Ho; [|done].
  by rewrite (H o eq_refl).
Qed.

Lemma room_close_agrees (room : roomRef) (st : state) :
  registry_agrees st → registry_agrees (exec (room_close room) st).
Proof.
  intros Hagree.
  destruct (roomObjects st !! room) as [o|] eqn:Ho;
    [destruct (room_closed o) eqn:Hcl|].
  - rewrite room_close_not_live; [done|]. intros o' Ho'. congruence.
  - pose proof Hagree as [H1 H2 H3].
    rewrite (room_close_live room o) by eauto.
    assert (rooms st !! room_id o = Some room) as Hreg by (apply H2; by exists o).
    unfold live in *.
    split; unfold live; cbn [rooms roomObjects set_rooms set_roomObjects].
    + intros k r Hr. apply lookup_delete_Some in Hr as [Hk Hr].
      destruct (H1 _ _ Hr) as (o' & Ho' & Hid & Hcl').
      exists o'. split; [|done].
      rewrite list_lookup_alter_ne; [done|]. intros ->. congruence.
    + intros k r (o' & Ho' & Hid & Hcl').
      destruct (decide (r = room)) as [-> | Hne].
      * rewrite list_lookup_alter_eq, Ho in Ho'. cbn in Ho'. by injection Ho' as <-.
      * rewrite list_lookup_alter_ne in Ho' by done.
        assert (rooms st !! k = Some r) as Hr by (apply H2; eauto).
        apply lookup_delete_Some. split; [|done]. intros <-. congruence.
    + intros r o'. destruct (decide (r = room)) as [-> | Hne].
      * rewrite list_lookup_alter_eq, Ho. cbn. intros [= <-]. cbn. eauto.
      * rewrite list_lookup_alter_ne by done. eauto.
  - rewrite room_close_not_live; [done|]. intros o' Ho'. congruence.
Qed.

Section RegistryInvariant.

Variable env : environment.

Lemma step_running (st : state) (ev : event) :
  exited st = None → step env st ev = exec (handle env ev) st.
Proof. intros Hex. unfold step. by rewrite Hex. Qed.

(** A request with both identifiers, when no task is running: its task
    is queued and started. *)
Lemma on_connectionrequest_idle (info : connectionRequest) (st : state) :
  truthy (query_roomId info) = true →
  truthy (query_peerId info) = true →
  queue st = [] →
  exec (on_connectionrequest env info) st =
    exec (queue_next env None [task_of info])
      (set_queue [task_of info] (set_trace (trace st ++ [logged_request info]) st)).
Proof.
  intros Hr Hp Hq. unfold on_connectionrequest. rewrite Hr, Hp. cbn [negb orb].
  unfold queue_push. munfold. by rewrite Hq.
Qed.

(** The same when a task is running: the new task waits behind it. *)
Lemma on_connectionrequest_busy (info : connectionRequest) (st : state) :
  truthy (query_roomId info) = true →
  truthy (query_peerId info) = true →
  queue st ≠ [] →
  exec (on_connectionrequest env info) st =
    set_queue (queue st ++ [task_of info])
      (set_trace (trace st ++ [logged_request info]) st).
Proof.
  intros Hr Hp Hq. unfold on_connectionrequest. rewrite Hr, Hp. cbn [negb orb].
  unfold queue_push. munfold. by destruct (queue st).
Qed.

(** The promise of [Room.create] settles while the task [t] is suspended
    at the head of the queue: its arrow comes to its end, and the queue
    goes on with the tasks behind it. *)
Lemma queue_settled_eq (rejected : option Error.t) (t : task) (rest : list task)
    (st : state) :
  queue st = t :: rest →
  exec (queue_settled env rejected) st =
    exec (queue_next env (pair t <$> resume_thrown env rejected t st) rest)
      (set_queue rest (resumed rejected t st)).
Proof.
  intros Hq. unfold queue_settled, exec. unfold mbind, M_bind at 1. unfold gets at 1.
  rewrite Hq. unfold mbind, M_bind at 1. rewrite task_body_resume_eq.
  reflexivity.
Qed.

Lemma queue_settled_idle (rejected : option Error.t) (st : state) :
  queue st = [] → exec (queue_settled env rejected) st = st.
Proof. intros Hq. unfold queue_settled, exec, mbind, M_bind, gets. by rewrite Hq. Qed.

(** The queue runs its pending tasks until one is suspended: the registry
    and the rooms do not change, and the task left at the head, if any,
    waits for an absent room. *)
Lemma queue_next_registry (failed : option (task * Error.t)) (pending : list task)
    (st : state) :
  queue st = pending →
  same_registry st (exec (queue_next env failed pending) st)
  ∧ running_absent (exec (queue_next env failed pending) st).
Proof.
  intros Hq.
  destruct (queue_next_result env failed pending st Hq) as (_ & Hqueue & Hr & Ho & _).
  split; [by split|]. intros t rest. rewrite Hqueue, Hr. apply blocked_head.
Qed.

Lemma on_connectionrequest_registry (info : connectionRequest) (st : state) :
  running_absent st →
  same_registry st (exec (on_connectionrequest env info) st)
  ∧ running_absent (exec (on_connectionrequest env info) st).
Proof.
  intros Hrun.
  destruct (truthy (query_roomId info)) eqn:Hr;
    [destruct (truthy (query_peerId info)) eqn:Hp|].
  - destruct (queue st) as [|t0 rest0] eqn:Hq.
    + rewrite on_connectionrequest_idle by done.
      match goal with |- context [exec (queue_next env None ?p) ?s] =>
        destruct (queue_next_registry None p s eq_refl) as [[Hreg Hobj] Hrun'] end.
      split; [by split | done].
    + rewrite on_connectionrequest_busy by (by rewrite ?Hq).
      split; [done|]. intros t' rest'. rewrite Hq. cbn. intros [= <- _].
      by apply (Hrun t0 rest0).
  - unfold on_connectionrequest. rewrite Hr, Hp. cbn [negb orb]. by split.
  - unfold on_connectionrequest. rewrite Hr. cbn [negb orb]. by split.
Qed.

Lemma resumed_agrees (rejected : option Error.t) (t : task) (st : state) :
  rooms st !! task_roomId t = None →
  registry_agrees st → registry_agrees (resumed rejected t st).
Proof.
  intros Habs Hagree. destruct rejected as [e|]; cbn [resumed]; [done|].
  apply (registry_agrees_same (with_new_room (task_roomId t) st)); [done|].
  by apply with_new_room_agrees.
Qed.

Lemma queue_settled_registry (rejected : option Error.t) (st : state) :
  registry_ok st → registry_ok (exec (queue_settled env rejected) st).
Proof.
  intros [Hagree Hrun]. destruct (queue st) as [|t rest] eqn:Hq.
  { rewrite queue_settled_idle by done. by split. }
  pose proof (Hrun t rest Hq) as Habs.
  rewrite (queue_settled_eq rejected t rest st Hq).
  match goal with |- context [exec (queue_next env ?f rest) ?s] =>
    destruct (queue_next_registry f rest s eq_refl) as [Hreg Hrun'] end.
  split; [|done]. apply (registry_agrees_same _ _ Hreg).
  apply (registry_agrees_same (resumed rejected t st)); [done|].
  by apply resumed_agrees.
Qed.

Lemma other_events_same (ev : event) :
  match ev with
  | WorkerDied _ | TimeoutExpired _ | HttpRequest _ _ => True
  | _ => False
  end →
  respects same_registry_and_queue (handle env ev).
Proof.
  destruct ev; try done; intros _; unfold_handlers;
    respects_with ltac:(by repeat split).
Qed.

Lemma handle_registry_ok (ev : event) (st : state) :
  registry_ok st → registry_ok (exec (handle env ev) st).
Proof.
  intros Hok. destruct ev as [info | rejected | room | i | i | req answer].
  - unfold handle. munfold. destruct (protooWebSocketServer st); [|done].
    destruct Hok as [Hagree Hrun].
    destruct (on_connectionrequest_registry info st Hrun) as [Hreg Hrun'].
    split; [by apply (registry_agrees_same st) | done].
  - by apply queue_settled_registry.
  - destruct Hok as [Hagree Hrun]. split; [by apply room_close_agrees|].
    change (exec (handle env (RoomClosed room)) st) with (exec (room_close room) st).
    destruct (roomObjects st !! room) as [o|] eqn:Ho;
      [destruct (room_closed o) eqn:Hcl|].
    + rewrite room_close_not_live; [done|]. intros o' Ho'. congruence.
    + rewrite (room_close_live room o) by (try done; by eapply close_listener).
      intros t rest. cbn. intros Hq. apply lookup_delete_None. right. by eapply Hrun.
    + rewrite room_close_not_live; [done|]. intros o' Ho'. congruence.
  - apply (registry_ok_same st); [|done]. by apply (other_events_same (WorkerDied i)).
  - apply (registry_ok_same st); [|done]. by apply (other_events_same (TimeoutExpired i)).
  - apply (registry_ok_same st); [|done]. by apply (other_events_same (HttpRequest req answer)).
Qed.

Lemma steps_registry_ok (evs : list event) (st : state) :
  registry_ok st → registry_ok (steps env evs st).
Proof.
  revert st. induction evs as [|ev evs IH]; intros st Hok; cbn [steps fold_left]; [done|].
  apply IH. unfold step. destruct (exited st); [done|]. by apply handle_registry_ok.
Qed.

Lemma runMediasoupWorkers_loop_same (remaining i : nat) :
  respects same_registry_and_queue (runMediasoupWorkers_loop env remaining i).
Proof.
  revert i. induction remaining as [|n IH]; intros i;
    cbn [runMediasoupWorkers_loop]; unfold_handlers;
    respects_with ltac:(first [apply IH | by repeat split]).
Qed.

Lemma started_registry_ok (numWorkers : nat) : registry_ok (started env numWorkers).
Proof.
  assert (respects same_registry_and_queue (require_room;; run env numWorkers)) as H.
  { unfold run, runMediasoupWorkers. unfold_handlers.
    respects_with ltac:(first [apply runMediasoupWorkers_loop_same | by repeat split]). }
  apply (registry_ok_same room_js_loaded); [apply H|].
  split; [split|]; unfold live; cbn; try done.
  intros k r (o & Ho & _). by rewrite lookup_nil in Ho.
Qed.

Lemma reachable_registry_ok (st : state) : reachable env st → registry_ok st.
Proof. intros (n & evs & ->). apply steps_registry_ok, started_registry_ok. Qed.

End RegistryInvariant.

Lemma registry_agrees_one_room_per_id (st : state) :
  registry_agrees st → one_room_per_id st.
Proof.
  intros [_ H2 _] k r1 r2 Hl1 Hl2.
  apply H2 in Hl1, Hl2. congruence.
Qed.

(** ** Calls of [getOrCreateRoom] in a row *)

Lemma getOrCreateRoom_serially_found
    (settles : list (option Error.t)) (roomId : value) (room : roomRef) (st : state) :
  rooms st !! roomId = Some room →
  getOrCreateRoom_serially settles roomId st =
    (Returns (replicate (length settles) (Returns room)), st).
Proof.
  intros Hfound. induction settles as [|rejected rest IH]; [done|].
  cbn [getOrCreateRoom_serially length replicate].
  unfold mbind, M_bind, attempt.
  by rewrite (getOrCreateRoom_found _ _ _ _ Hfound), IH.
Qed.

Lemma Room_create_calls_awaiting (roomId : value) (st : state) :
  Room_create_calls (awaiting_Room_create roomId st) = S (Room_create_calls st).
Proof.
  unfold Room_create_calls, awaiting_Room_create. cbn [trace set_trace].
  rewrite List.filter_app, length_app. cbn. lia.
Qed.


(** ** Rooms leave the registry when they close, and only then *)

Ltac keeps_entries_leaf :=
  first
    [ by intros ?
    | by (intros ? ?; cbn; apply lookup_insert_is_Some'; right) ].

Lemma queue_next_keeps_entries (env : environment) (failed : option (task * Error.t))
    (pending : list task) :
  respects keeps_entries (queue_next env failed pending).
Proof.
  revert failed. induction pending as [|t rest IH]; intros failed; cbn [queue_next]; unfold_handlers;
    respects_with ltac:(first [apply IH | keeps_entries_leaf]).
Qed.

(** Every listener but the one of a room's "close" keeps the entries of
    the registry. *)
Lemma handle_keeps_entries (env : environment) (ev : event) :
  (∀ room, ev ≠ RoomClosed room) →
  respects keeps_entries (handle env ev).
Proof.
  intros Hev. destruct ev; try (by destruct (Hev room)); unfold_handlers;
    respects_with ltac:(first [apply queue_next_keeps_entries | keeps_entries_leaf]).
Qed.

(** C6 (removal on close).  In any state the process can be in: when the
    Room registered under [roomId] emits "close", the entry of [roomId] is
    deleted from the registry (and no other entry is), the Room is no
    longer live, and a following [getOrCreateRoom] for [roomId] constructs
    a Room that is not the closed one.  And an identifier leaves the
    registry in no other way: if an event removes the entry of [roomId],
    that event is the "close" of the Room registered under [roomId]. *)
Theorem room_removed_on_close_only (env : environment) :
  (∀ (st : state) (roomId : value) (room : roomRef),
     reachable env st →
     exited st = None →
     rooms st !! roomId = Some room →
     let st1 := step env st (RoomClosed room) in
     let st2 := exec (getOrCreateRoom None roomId) st1 in
     rooms st1 = delete roomId (rooms st)
     ∧ rooms st1 !! roomId = None
     ∧ (live st1 room roomId → False)
     ∧ fst (getOrCreateRoom None roomId st1) = Returns (length (roomObjects st1))
     ∧ (room < length (roomObjects st1))%nat
     ∧ roomObjects st2 = roomObjects st1 ++ [new_room roomId]
     ∧ rooms st2 !! roomId = Some (length (roomObjects st1)))
  ∧ (∀ (st : state) (ev : event) (roomId : value),
       reachable env st →
       is_Some (rooms st !! roomId) →
       rooms (step env st ev) !! roomId = None →
       ∃ room, ev = RoomClosed room ∧ rooms st !! roomId = Some room).
Proof.
  split.
  - intros st roomId room Hreach Hrun Hreg st1 st2.
    destruct (reachable_registry_ok env st Hreach) as [Hagree _].
    destruct (registered_live st Hagree _ _ Hreg) as (o & Ho & Hid & Hcl).
    assert (st1 =
      set_rooms (delete roomId (rooms st))
        (set_roomObjects
           (alter (fun o => {| room_id := room_id o;
                               room_on_close := room_on_close o;
                               room_closed := true |}) room (roomObjects st))
           st)) as Hst1.
    { subst st1. unfold step. rewrite Hrun.
      change (exec (handle env (RoomClosed room)) st) with (exec (room_close room) st).
      rewrite (room_close_live room o); [by rewrite Hid | done | done |].
      by eapply close_listener. }
    assert (rooms st1 !! roomId = None) as Habs.
    { rewrite Hst1. cbn. apply lookup_delete_eq. }
    subst st2. unfold exec. rewrite (getOrCreateRoom_created _ _ Habs). cbn [fst snd].
    destruct (awaiting_Room_create_same roomId st1) as [[Hr' Ho'] _].
    repeat split; try done.
    + by rewrite Hst1.
    + intros (o' & Ho1 & _ & Hcl1). rewrite Hst1 in Ho1. cbn in Ho1.
      rewrite list_lookup_alter_eq, Ho in Ho1. cbn in Ho1.
      injection Ho1 as <-. done.
    + rewrite Hst1. cbn. rewrite length_alter. by apply lookup_lt_Some in Ho.
    + cbn [with_new_room roomObjects set_rooms set_roomObjects]. by rewrite Ho'.
    + cbn [with_new_room rooms set_rooms set_roomObjects].
      by rewrite lookup_insert_eq, Ho'.
  - intros st ev roomId Hreach Hsome Hnone.
    destruct (reachable_registry_ok env st Hreach) as [Hagree _].
    unfold step in Hnone. destruct (exited st).
    { rewrite Hnone in Hsome. by destruct Hsome. }
    destruct ev as [info | rejected | room | i | i | req answer];
      try (match goal with
           | H : rooms (exec (handle env ?ev) st) !! roomId = None |- _ =>
               assert (respects keeps_entries (handle env ev)) as Hk
                 by (by apply handle_keeps_entries);
               specialize (Hk st roomId Hsome); unfold exec in H;
               rewrite H in Hk; by destruct Hk
           end).
    exists room. split; [done|].
    change (exec (handle env (RoomClosed room)) st) with (exec (room_close room) st)
      in Hnone.
    destruct (roomObjects st !! room) as [o|] eqn:Ho;
      [destruct (room_closed o) eqn:Hcl|].
    + rewrite room_close_not_live in Hnone by (intros o' Ho'; congruence).
      rewrite Hnone in Hsome. by destruct Hsome.
    + rewrite (room_close_live room o) in Hnone
        by (try done; by eapply close_listener).
      cbn in Hnone. apply lookup_delete_None in Hnone as [<- | Hnone].
      * apply (live_registered st Hagree). by exists o.
      * rewrite Hnone in Hsome. by destruct Hsome.
    + rewrite room_close_not_live in Hnone by (intros o' Ho'; congruence).
      rewrite Hnone in Hsome. by destruct Hsome.
Qed.

(** ** Failures inside a queued task *)

Section TaskFailures.

Variable env : environment.

(** Where the reaction of the failed task comes among the calls of the
    queue: first, unless the next task has to have its Room constructed,
    whose [Room.create] then comes before it. *)
Lemma queue_calls_catch (registry : gmap value roomRef) (mediasoupWorker : option worker)
    (failed : option (task * Error.t)) (pending : list task) :
  ∃ before after,
    queue_calls env registry mediasoupWorker failed pending =
      before ++ catch_calls failed ++ after
    ∧ match pending with
      | [] => before = [] ∧ after = []
      | t' :: _ =>
          match registry !! task_roomId t' with
          | None => before = creation_calls mediasoupWorker pending ∧ after = []
          | Some _ => before = []
          end
      end.
Proof.
  destruct pending as [|t' rest]; cbn [queue_calls].
  - exists [], []. by rewrite app_nil_r.
  - destruct (registry !! task_roomId t') as [room|].
    + by eexists [], _.
    + eexists _, []. by rewrite app_nil_r.
Qed.

(** A task the queue runs in its turn and whose arrow throws: its
    reaction is among the calls of the queue. *)
Lemma queue_calls_failure (registry : gmap value roomRef) (mediasoupWorker : option worker)
    (failed : option (task * Error.t)) (front behind : list task) (t : task)
    (room : roomRef) (e : Error.t) :
  Forall (fun t0 => is_Some (registry !! task_roomId t0)) front →
  registry !! task_roomId t = Some room →
  join_thrown env t room = Some e →
  ∃ before after,
    queue_calls env registry mediasoupWorker failed (front ++ t :: behind) =
      before ++ rejected_calls t e ++ after.
Proof.
  intros Hfront Hroom Hthrown. revert failed.
  induction Hfront as [|t0 front [room0 Hroom0] _ IH]; intros failed;
    cbn [app queue_calls].
  - rewrite Hroom, Hthrown. cbn [fmap option_fmap option_map].
    destruct (queue_calls_catch registry mediasoupWorker (Some (t, e)) behind)
      as (before & after & -> & _).
    exists (catch_calls failed ++ attempt_calls t room ++ before), after.
    cbn [catch_calls]. by rewrite <- !app_assoc.
  - rewrite Hroom0.
    destruct (IH (pair t0 <$> join_thrown env t0 room0)) as (before & after & ->).
    exists (catch_calls failed ++ attempt_calls t0 room0 ++ before), after.
    by rewrite <- !app_assoc.
Qed.

(** C7 (failures of a queued task).  The queued arrow can throw in three
    ways: [Room.create] rejects, [accept] throws, [handleProtooConnection]
    throws; each time the promise of the arrow is rejected with that
    error.  The reaction [.catch(...)] then logs the error and calls
    [reject] with it for the request of that task, once, and the task is
    over: it has left the queue, what it had done is not undone and not
    done again, and the queue goes on with the tasks behind it.  (When
    [handleProtooConnection] throws, [reject] is called after [accept].)
    The reaction is a reaction to a promise: when a task waits behind the
    failed one, that task is started first, and if its Room has to be
    constructed, its call of [Room.create] comes before the logging and
    the [reject] of the failed one.  All of it holds as well for a task
    the queue runs in its turn, behind other tasks. *)
Theorem queued_task_failure (t : task) (e : Error.t) :
  let failure :=
    [Log ERROR "room creation or room joining failed:%o" [ArgError e];
     CallReject (task_request t) (RejectError e)] in
  (∀ st, rejection_of (task_body_resume env (Some e) t) st = (Returns (Some e), st))
  ∧ (∀ st room,
       task_accept t = Some e →
       rejection_of (task_join env t room) st =
         (Returns (Some e), set_trace (trace st ++ [CallAccept (task_request t)]) st))
  ∧ (∀ st room,
       task_accept t = None →
       handleProtooConnection env room (task_peerId t) (task_request t) = Some e →
       rejection_of (task_join env t room) st =
         (Returns (Some e),
          set_trace
            (trace st ++
               [CallAccept (task_request t);
                CallHandleProtooConnection room (task_peerId t) (task_request t)])
            st))
  ∧ (∀ st rest rejected s,
       exited st = None →
       queue st = t :: rest →
       rejection_of (task_body_resume env rejected t) st = (Returns (Some e), s) →
       let st' := step env st (RoomCreateSettled rejected) in
       rooms st' = rooms s
       ∧ roomObjects st' = roomObjects s
       ∧ queue st' `suffix_of` rest
       ∧ ∃ before after,
           trace st' = trace s ++ before ++ failure ++ after
           ∧ match rest with
             | [] => before = [] ∧ after = []
             | t' :: _ =>
                 match rooms s !! task_roomId t' with
                 | None =>
                     before =
                       [Log INFO "creating a new Room [roomId:%s]" [ArgValue (task_roomId t')];
                        CallRoomCreate (mediasoupWorkers s !! nextMediasoupWorkerIdx s)
                          (task_roomId t')]
                     ∧ after = []
                 | Some _ => before = []
                 end
             end)
  ∧ (∀ st rest,
       exited st = None →
       queue st = t :: rest →
       let st' := step env st (RoomCreateSettled (Some e)) in
       rooms st' = rooms st
       ∧ roomObjects st' = roomObjects st
       ∧ (rest = [] → st' = set_queue [] (set_trace (trace st ++ failure) st)))
  ∧ (∀ st info room s,
       exited st = None →
       protooWebSocketServer st = true →
       queue st = [] →
       truthy (query_roomId info) = true →
       truthy (query_peerId info) = true →
       task_of info = t →
       rooms st !! query_roomId info = Some room →
       rejection_of (task_join env t room)
         (set_trace (trace st ++ [logged_request info]) st) = (Returns (Some e), s) →
       step env st (ConnectionRequest info) = set_trace (trace s ++ failure) s)
  ∧ (∀ st failed front behind room,
       queue st = front ++ t :: behind →
       Forall (fun t0 => is_Some (rooms st !! task_roomId t0)) front →
       rooms st !! task_roomId t = Some room →
       fst (rejection_of (task_join env t room) st) = Returns (Some e) →
       ∃ before after,
         trace (exec (queue_next env failed (front ++ t :: behind)) st) =
           trace st ++ before ++ failure ++ after).
Proof.
  intros failure.
  assert (∀ st rest rejected s,
            exited st = None →
            queue st = t :: rest →
            rejection_of (task_body_resume env rejected t) st = (Returns (Some e), s) →
            step env st (RoomCreateSettled rejected) =
              exec (queue_next env (Some (t, e)) rest) (set_queue rest s)) as Hsettled.
  { intros st rest rejected s Hex Hq Hthrown. rewrite step_running by done.
    change (exec (handle env (RoomCreateSettled rejected)) st)
      with (exec (queue_settled env rejected) st).
    rewrite (queue_settled_eq env rejected t rest st Hq).
    rewrite task_body_resume_eq in Hthrown. by injection Hthrown as -> ->. }
  split; [|split; [|split; [|split; [|split; [|split]]]]].
  - intros st. by rewrite task_body_resume_eq.
  - intros st room Hacc. rewrite task_join_eq. unfold join_thrown, attempt_calls.
    by rewrite Hacc.
  - intros st room Hacc Hthrow. rewrite task_join_eq. unfold join_thrown, attempt_calls.
    by rewrite Hacc, Hthrow.
  - intros st rest rejected s Hex Hq Hthrown. cbn zeta.
    rewrite (Hsettled st rest rejected s Hex Hq Hthrown).
    destruct (queue_next_result env (Some (t, e)) rest (set_queue rest s) eq_refl)
      as (Htrace & Hqueue & Hrooms & Hobjects & _).
    split; [exact Hrooms|]. split; [exact Hobjects|]. split.
    { rewrite Hqueue. apply blocked_suffix. }
    destruct (queue_calls_catch (rooms (set_queue rest s))
                (mediasoupWorkers (set_queue rest s)
                   !! nextMediasoupWorkerIdx (set_queue rest s))
                (Some (t, e)) rest) as (before & after & Hcalls & Hshape).
    exists before, after. split; [by rewrite Htrace, Hcalls|].
    destruct rest as [|t' rest']; exact Hshape.
  - intros st rest Hex Hq. cbn zeta.
    rewrite (Hsettled st rest (Some e) st Hex Hq) by (by rewrite task_body_resume_eq).
    destruct (queue_next_result env (Some (t, e)) rest (set_queue rest st) eq_refl)
      as (_ & _ & Hrooms & Hobjects & _).
    split; [exact Hrooms|]. split; [exact Hobjects|].
    intros ->. rewrite queue_next_eq by done. reflexivity.
  - intros st info room s Hex Hlisten Hq Hroom Hpeer Htask Hfound Hthrown.
    rewrite step_running by done.
    unfold handle, exec, mbind, M_bind, gets. rewrite Hlisten.
    change (snd (on_connectionrequest env info st))
      with (exec (on_connectionrequest env info) st).
    rewrite on_connectionrequest_idle by done. rewrite Htask.
    rewrite queue_next_eq by done.
    assert (task_roomId t = query_roomId info) as Hid by (by rewrite <- Htask).
    cbn [set_queue set_trace rooms trace blocked queue_calls mediasoupWorkers
         nextMediasoupWorkerIdx].
    rewrite Hid, Hfound. cbn [cursor_after catch_calls app queue_calls blocked].
    rewrite task_join_eq in Hthrown. injection Hthrown as Hthrown <-.
    rewrite Hthrown. cbn [fmap option_fmap option_map catch_calls rejected_calls].
    destruct st. cbn in Hq. subst. mcompute.
    by rewrite <- ?app_assoc.
  - intros st failed front behind room Hq Hfront Hroom Hthrown.
    rewrite task_join_eq in Hthrown. injection Hthrown as Hthrown.
    destruct (queue_next_result env failed (front ++ t :: behind) st Hq) as (-> & _).
    destruct (queue_calls_failure (rooms st)
                (mediasoupWorkers st !! nextMediasoupWorkerIdx st) failed front behind
                t room e Hfront Hroom Hthrown) as (before & after & ->).
    by exists before, after.
Qed.

End TaskFailures.
(** ** The Express application *)

Lemma to_int32_small (z : Z) : (- 2 ^ 31 ≤ z < 2 ^ 31)%Z → to_int32 z = z.
Proof. intros Hz. unfold to_int32. rewrite Z.mod_small; lia. Qed.

Lemma valid_statusCode_spec (status : Z) :
  (- 2 ^ 31 ≤ status < 2 ^ 31)%Z →
  valid_statusCode status = true ↔ (100 ≤ status ≤ 999)%Z.
Proof.
  intros Hz. unfold valid_statusCode. rewrite to_int32_small by done.
  rewrite andb_true_iff, !Z.leb_le. done.
Qed.



Lemma errorHandler_eq (error : Error.t) (st : state) :
  errorHandler error st =
    (if sendable error then Returns tt else Throws (refusal error),
     set_trace (trace st ++ errorHandler_calls error) st).
Proof.
  unfold errorHandler, res_status_send, errorHandler_calls, sendable, refusal. munfold.
  destruct (valid_statusCode (error_status error)); cbn [negb andb]; munfold;
    [destruct (valid_statusMessage (Error.message error)); cbn [negb]; munfold|];
    by rewrite <- ?app_assoc.
Qed.


Lemma error_status_usual (error : Error.t) :
  (100 ≤ error_status error ≤ 999)%Z →
  valid_statusCode (error_status error) = true
  ∧ to_int32 (error_status error) = error_status error.
Proof.
  intros Hs. split; [apply valid_statusCode_spec; lia | apply to_int32_small; lia].
Qed.

(** C3 does not hold as the specification states it.  For a plain error
    (no status, not a type error) whose message is "boom", the body of the
    response is the text "Error: boom", not the message.  And a status of
    0 that the error carries is not used: the response has status 500. *)
Lemma error_body_is_not_the_message :
  (res_status (error_response plain_error) = 500%Z
   ∧ res_body (error_response plain_error) = SendText "Error: boom"
   ∧ Error.message plain_error = "boom"
   ∧ res_body (error_response plain_error) ≠ SendText (Error.message plain_error))
  ∧ (Error.status zero_status_error = Some 0%Z
     ∧ res_status (error_response zero_status_error) = 500%Z)
  ∧ errorHandler plain_error room_js_loaded =
      (Returns tt,
       set_trace
         [Log WARN "Express app %s" [ArgString "Error: boom"];
          Respond (error_response plain_error)]
         room_js_loaded).
Proof. by repeat split. Qed.

(** C3, as the code has it (error translation).  For every error that
    reaches the error handler, the status is the one the error carries
    when that is truthy (not 0), and otherwise 400 for an error named
    "TypeError" and 500 for any other.  The handler logs a warning; then,
    if the status is one node writes (100 to 999) and the message of the
    error one node writes in a status line, it sends one response, with
    that status, the message of the error as status message (left to node
    when the message is empty) and the text [String(error)] as body, that
    is "name: message" when both are non-empty.  If node does not write
    the status or the message, [res.send] throws: the handler has sent
    nothing and ends with that exception. *)
Theorem error_translation (error : Error.t) (st : state) :
  let status := error_status error in
  let warning := Log WARN "Express app %s" [ArgString (Error.toString error)] in
  (∀ s, Error.status error = Some s → s ≠ 0%Z → status = s)
  ∧ (Error.status error = None ∨ Error.status error = Some 0%Z →
     Error.name error = "TypeError" → status = 400%Z)
  ∧ (Error.status error = None ∨ Error.status error = Some 0%Z →
     Error.name error ≠ "TypeError" → status = 500%Z)
  ∧ ((100 ≤ status ≤ 999)%Z →
     valid_statusMessage (Error.message error) = true →
     errorHandler error st =
       (Returns tt,
        set_trace
          (trace st ++
             [warning;
              Respond {| res_status := status;
                         res_statusMessage :=
                           if String.eqb (Error.message error) "" then None
                           else Some (Error.message error);
                         res_body := SendText (Error.toString error) |}])
          st))
  ∧ ((- 2 ^ 31 ≤ status < 100)%Z ∨ (999 < status < 2 ^ 31)%Z
     ∨ valid_statusMessage (Error.message error) = false →
     ∃ thrown, errorHandler error st = (Throws thrown, set_trace (trace st ++ [warning]) st))
  ∧ (Error.name error ≠ "" → Error.message error ≠ "" →
     Error.toString error = Error.name error +:+ ": " +:+ Error.message error).
Proof.
  intros status warning. subst status warning.
  split; [|split; [|split; [|split; [|split]]]].
  - intros s Hs Hnz. unfold error_status. rewrite Hs. cbn. by destruct (Z.eqb_spec s 0).
  - intros Hst Hname. unfold error_status. rewrite Hname. by destruct Hst as [-> | ->].
  - intros Hst Hname. unfold error_status. apply String.eqb_neq in Hname. rewrite Hname.
    by destruct Hst as [-> | ->].
  - intros Hs Hmsg. destruct (error_status_usual error Hs) as [Hvalid Hsame].
    rewrite errorHandler_eq. unfold errorHandler_calls, sendable, error_response.
    by rewrite Hvalid, Hmsg, Hsame.
  - intros Hbad. exists (refusal error).
    rewrite errorHandler_eq. unfold errorHandler_calls.
    assert (sendable error = false) as ->; [|done].
    unfold sendable. apply andb_false_iff.
    destruct Hbad as [Hlow | [Hhigh | Hmsg]]; [left | left | by right].
    + apply not_true_is_false. rewrite valid_statusCode_spec by lia. lia.
    + apply not_true_is_false. rewrite valid_statusCode_spec by lia. lia.
  - intros Hname Hmsg. unfold Error.toString.
    apply String.eqb_neq in Hname, Hmsg. by rewrite Hname, Hmsg.
Qed.


Lemma param_roomId_absent (roomId : string) (st : state) :
  rooms st !! Str roomId = None →
  param_roomId roomId st = (Throws (room_not_found roomId), st).
Proof. intros H. unfold param_roomId. munfold. by rewrite H. Qed.

Lemma param_roomId_found (roomId : string) (room : roomRef) (st : state) :
  rooms st !! Str roomId = Some room →
  param_roomId roomId st = (Returns (Some room), st).
Proof.
  intros Hroom. unfold param_roomId, rooms_has, rooms_get. munfold.
  rewrite Hroom. rewrite bool_decide_eq_true_2 by done. cbn. by rewrite Hroom.
Qed.




(** ** One room per identifier, also for concurrent requests *)

Lemma steps_cons (env : environment) (ev : event) (evs : list event) (st : state) :
  steps env (ev :: evs) st = steps env evs (step env st ev).
Proof. reflexivity. Qed.

Section Concurrent.

Variable env : environment.

(** A task that joins [room] calls [accept] and then, at most,
    [handleProtooConnection] on [room], [logger.error] and [reject]. *)
Lemma attempt_calls_join (t : task) (room : roomRef) :
  Forall (joins room) (attempt_calls t room).
Proof.
  unfold attempt_calls. destruct (task_accept t);
    repeat constructor; try done; by intros ? ? ? [= -> _ _].
Qed.

Lemma catch_calls_join (failed : option (task * Error.t)) (room : roomRef) :
  Forall (joins room) (catch_calls failed).
Proof. destruct failed as [[t e]|]; by repeat constructor. Qed.

Lemma join_calls_join (t : task) (room : roomRef) :
  Forall (joins room) (join_calls env t room).
Proof.
  rewrite join_calls_eq. apply Forall_app.
  split; [apply attempt_calls_join | apply catch_calls_join].
Qed.

(** The first task of the queue asks for a room the registry does not
    hold: it is left suspended in [Room.create]. *)
Lemma queue_next_absent (t : task) (rest : list task) (st : state) :
  rooms st !! task_roomId t = None →
  exec (queue_next env None (t :: rest)) st = awaiting_Room_create (task_roomId t) st.
Proof.
  intros Habs. unfold exec. cbn [queue_next]. unfold mbind, M_bind.
  by rewrite (getOrCreateRoom_begin_absent _ _ Habs).
Qed.

Lemma blocked_all_found (registry : gmap value roomRef) (roomId : value) (room : roomRef)
    (pending : list task) :
  registry !! roomId = Some room →
  Forall (fun t => task_roomId t = roomId) pending →
  blocked registry pending = [].
Proof.
  intros Hroom. induction 1 as [|t rest Ht _ IH]; [done|].
  cbn. by rewrite Ht, Hroom.
Qed.

Lemma queue_calls_accept (registry : gmap value roomRef) (roomId : value) (room : roomRef)
    (mediasoupWorker : option worker) (failed : option (task * Error.t))
    (pending : list task) (t : task) :
  registry !! roomId = Some room →
  Forall (fun t => task_roomId t = roomId) pending →
  t ∈ pending →
  CallAccept (task_request t) ∈ queue_calls env registry mediasoupWorker failed pending.
Proof.
  intros Hroom Hall. revert failed.
  induction Hall as [|t0 rest Ht0 _ IH]; intros failed Hin; [by apply elem_of_nil in Hin|].
  cbn [queue_calls]. rewrite Ht0, Hroom.
  apply elem_of_app. right. apply elem_of_app.
  apply elem_of_cons in Hin as [-> | Hin]; [left; by left | right; by apply IH].
Qed.

(** When every pending task asks for [roomId] and the registry holds
    [room] under it, the queue runs them all: each calls [accept] and
    joins [room], and the queue is left empty. *)
Lemma queue_next_all_join (roomId : value) (room : roomRef)
    (failed : option (task * Error.t)) (pending : list task) (st : state) :
  rooms st !! roomId = Some room →
  Forall (fun t => task_roomId t = roomId) pending →
  queue st = pending →
  ∃ effs,
    exec (queue_next env failed pending) st = set_queue [] (set_trace (trace st ++ effs) st)
    ∧ Forall (joins room) effs
    ∧ ∀ t, t ∈ pending → CallAccept (task_request t) ∈ effs.
Proof.
  intros Hroom Hall Hq.
  exists (queue_calls env (rooms st) (mediasoupWorkers st !! nextMediasoupWorkerIdx st)
            failed pending).
  split; [|split].
  - rewrite (queue_next_eq env failed pending st Hq).
    rewrite (blocked_all_found _ roomId room pending Hroom Hall). by destruct st.
  - apply queue_calls_Forall.
    + apply catch_calls_join.
    + intros t room' Hin Hroom'.
      rewrite Forall_forall in Hall. rewrite (Hall t Hin), Hroom in Hroom'.
      injection Hroom' as <-. apply join_calls_join.
    + intros t Hin Habs. rewrite Forall_forall in Hall.
      rewrite (Hall t Hin), Hroom in Habs. done.
  - intros t Hin. by apply (queue_calls_accept _ roomId room).
Qed.

(** Requests that arrive while a task is running are logged and queued
    behind it, in order. *)
Lemma requests_while_busy (roomId : value) (infos : list connectionRequest) (st : state) :
  exited st = None →
  protooWebSocketServer st = true →
  queue st ≠ [] →
  Forall (asks_for roomId) infos →
  steps env (ConnectionRequest <$> infos) st =
    set_queue (queue st ++ (task_of <$> infos))
      (set_trace (trace st ++ (logged_request <$> infos)) st).
Proof.
  intros Hrun Hlisten Hq Hall. revert st Hrun Hlisten Hq.
  induction Hall as [|info rest (_ & Hr & Hp) Hrest IH]; intros st Hrun Hlisten Hq.
  - cbn. rewrite !app_nil_r. by destruct st.
  - rewrite fmap_cons, steps_cons.
    assert (step env st (ConnectionRequest info) =
              set_queue (queue st ++ [task_of info])
                (set_trace (trace st ++ [logged_request info]) st)) as ->.
    { unfold step. rewrite Hrun. unfold handle.
      unfold exec, mbind, M_bind, gets. rewrite Hlisten.
      by apply on_connectionrequest_busy. }
    rewrite IH; [|done|done|by destruct (queue st)].
    cbn [queue trace set_queue set_trace].
    by rewrite <- !app_assoc.
Qed.

Lemma filter_no_Room_create (effs : list effect) :
  Forall not_Room_create effs → List.filter is_CallRoomCreate effs = [].
Proof.
  induction 1 as [|e effs He _ IH]; [done|].
  cbn. unfold not_Room_create in He. by rewrite He.
Qed.

Lemma Room_create_calls_more (st st' : state) (effs : list effect) :
  trace st' = trace st ++ effs →
  Forall not_Room_create effs →
  Room_create_calls st' = Room_create_calls st.
Proof.
  intros Heq Heffs. unfold Room_create_calls.
  rewrite Heq, List.filter_app, length_app, (filter_no_Room_create effs Heffs).
  cbn. lia.
Qed.

(** [K] requests for a room the registry does not hold arrive while
    nothing is pending; the first one starts the construction and the
    others wait; when the construction succeeds, every one of them joins
    the one Room that was constructed. *)
Lemma concurrent_requests_one_room
    (roomId : value) (infos : list connectionRequest) (st : state) :
  exited st = None →
  protooWebSocketServer st = true →
  queue st = [] →
  rooms st !! roomId = None →
  Forall (asks_for roomId) infos →
  (1 ≤ length infos)%nat →
  let room := length (roomObjects st) in
  let st1 := steps env (ConnectionRequest <$> infos) st in
  let st2 := step env st1 (RoomCreateSettled None) in
  queue st1 = task_of <$> infos
  ∧ rooms st1 = rooms st
  ∧ roomObjects st1 = roomObjects st
  ∧ Room_create_calls st1 = S (Room_create_calls st)
  ∧ Room_create_calls st2 = S (Room_create_calls st)
  ∧ roomObjects st2 = roomObjects st ++ [new_room roomId]
  ∧ rooms st2 = <[roomId := room]> (rooms st)
  ∧ queue st2 = []
  ∧ ∃ effs, trace st2 = trace st1 ++ effs
            ∧ Forall (joins room) effs
            ∧ ∀ info, info ∈ infos → CallAccept (request info) ∈ effs.
Proof.
  intros Hrun Hlisten Hq Habs Hall HK room st1 st2.
  destruct infos as [|first rest]; [cbn in HK; lia|].
  apply Forall_cons in Hall as [(Hid & Hr & Hp) Hrest].
  (* the first request starts the construction *)
  set (sta := awaiting_Room_create roomId
                (set_queue [task_of first]
                   (set_trace (trace st ++ [logged_request first]) st))).
  assert (step env st (ConnectionRequest first) = sta) as Hsta.
  { unfold step. rewrite Hrun. unfold handle.
    unfold exec, mbind, M_bind, gets. rewrite Hlisten.
    change (snd (on_connectionrequest env first st))
      with (exec (on_connectionrequest env first) st).
    rewrite on_connectionrequest_idle by done.
    rewrite queue_next_absent.
    - cbn [task_of task_roomId]. by rewrite Hid.
    - cbn. by rewrite Hid. }
  assert (queue sta = [task_of first] ∧ rooms sta = rooms st
          ∧ roomObjects sta = roomObjects st ∧ exited sta = None
          ∧ protooWebSocketServer sta = true) as (Hqa & Hra & Hoa & Hruna & Hlistena).
  { subst sta. unfold awaiting_Room_create. rewrite getMediasoupWorker_eq.
    by repeat split. }
  (* the others queue behind it *)
  assert (st1 = set_queue (task_of <$> first :: rest)
                  (set_trace (trace sta ++ (logged_request <$> rest)) sta)) as Hst1.
  { subst st1. rewrite fmap_cons, steps_cons, Hsta.
    rewrite (requests_while_busy roomId); try done; by rewrite Hqa. }
  assert (Room_create_calls st1 = S (Room_create_calls st)) as Hcalls1.
  { rewrite (Room_create_calls_more sta st1 (logged_request <$> rest)).
    - subst sta. rewrite Room_create_calls_awaiting.
      apply (f_equal S). apply (Room_create_calls_more st _ [logged_request first]);
        [done | by repeat constructor].
    - by rewrite Hst1.
    - apply Forall_fmap. by apply Forall_true. }
  (* the construction succeeds *)
  assert (roomObjects st1 = roomObjects st) as Ho1 by (by rewrite Hst1).
  assert (rooms st1 = rooms st) as Hr1 by (by rewrite Hst1).
  assert (queue st1 = task_of first :: (task_of <$> rest)) as Hq1 by (by rewrite Hst1).
  set (effs1 := attempt_calls (task_of first) room).
  set (stb := set_queue (task_of <$> rest)
                (set_trace (trace st1 ++ effs1) (with_new_room roomId st1))).
  assert (set_queue (task_of <$> rest) (resumed None (task_of first) st1) = stb) as Hstb.
  { subst stb effs1 room. cbn [resumed task_of task_roomId]. by rewrite Ho1, Hid. }
  destruct (queue_next_all_join roomId room
              (pair (task_of first) <$> resume_thrown env None (task_of first) st1)
              (task_of <$> rest) stb)
    as (effs2 & Hnext & Heffs2 & Hacc2).
  { subst stb. cbn [rooms set_queue set_trace with_new_room set_rooms set_roomObjects].
    rewrite lookup_insert_eq. by rewrite Ho1. }
  { apply Forall_fmap. apply (Forall_impl _ _ _ Hrest). by intros info (? & _). }
  { done. }
  assert (st2 = set_queue [] (set_trace (trace stb ++ effs2) stb)) as Hst2.
  { rewrite <- Hnext. subst st2. unfold step.
    replace (exited st1) with (@None Z) by (by rewrite Hst1).
    change (exec (handle env (RoomCreateSettled None)) st1)
      with (exec (queue_settled env None) st1).
    by rewrite (queue_settled_eq env None _ _ st1 Hq1), Hstb. }
  assert (Forall (joins room) effs1) as Heffs1 by apply attempt_calls_join.
  repeat split.
  - by rewrite Hst1.
  - done.
  - done.
  - done.
  - rewrite (Room_create_calls_more st1 st2 (effs1 ++ effs2)); [done | |].
    + rewrite Hst2. subst stb. cbn [trace set_queue set_trace]. by rewrite <- app_assoc.
    + apply Forall_app. split.
      * apply (Forall_impl _ _ _ Heffs1). by intros e [? _].
      * apply (Forall_impl _ _ _ Heffs2). by intros e [? _].
  - rewrite Hst2. subst stb.
    cbn [roomObjects set_queue set_trace with_new_room set_rooms set_roomObjects].
    by rewrite Ho1.
  - rewrite Hst2. subst stb.
    cbn [rooms set_queue set_trace with_new_room set_rooms set_roomObjects].
    by rewrite Ho1, Hr1.
  - by rewrite Hst2.
  - exists (effs1 ++ effs2). repeat split.
    + rewrite Hst2. subst stb. cbn [trace set_queue set_trace]. by rewrite <- app_assoc.
    + by apply Forall_app.
    + intros info [-> | Hin]%elem_of_cons; apply elem_of_app; [left; by left|].
      right. apply (Hacc2 (task_of info)). by apply list_elem_of_fmap_2.
Qed.

End Concurrent.

(** C1 (one room per identifier).  In every state the process can be in,
    no two live rooms have the same identifier.  When [K >= 2] calls of
    [getOrCreateRoom] for an identifier the registry does not hold run one
    after the other, as the queue runs them, and the construction started
    by the first one succeeds, then [Room.create] is called once, one Room
    is constructed, and all [K] calls return that Room: the first
    constructs and registers it, the others find it in the registry.  And
    when [K >= 2] connection requests for such an identifier arrive while
    nothing is pending, the first task calls [Room.create] and the others
    wait in the queue behind it; once the construction has succeeded, one
    Room has been constructed, [Room.create] has been called once, the
    queue is empty, every request has got to its [accept] call, and no
    task has joined another room. *)
Theorem single_room_per_identifier (env : environment) :
  (∀ st, reachable env st → one_room_per_id st)
  ∧ (∀ (st : state) (roomId : value) (settles : list (option Error.t)),
       rooms st !! roomId = None →
       head settles = Some None →
       (2 ≤ length settles)%nat →
       let room := length (roomObjects st) in
       let st' := exec (getOrCreateRoom_serially settles roomId) st in
       fst (getOrCreateRoom_serially settles roomId st) =
         Returns (replicate (length settles) (Returns room))
       ∧ Room_create_calls st' = S (Room_create_calls st)
       ∧ roomObjects st' = roomObjects st ++ [new_room roomId]
       ∧ rooms st' = <[roomId := room]> (rooms st)
       ∧ (registry_agrees st → one_room_per_id st'))
  ∧ (∀ (st : state) (roomId : value) (infos : list connectionRequest),
       exited st = None →
       protooWebSocketServer st = true →
       queue st = [] →
       rooms st !! roomId = None →
       Forall (asks_for roomId) infos →
       (2 ≤ length infos)%nat →
       let room := length (roomObjects st) in
       let st1 := steps env (ConnectionRequest <$> infos) st in
       let st2 := step env st1 (RoomCreateSettled None) in
       queue st1 = task_of <$> infos
       ∧ rooms st1 = rooms st
       ∧ roomObjects st1 = roomObjects st
       ∧ Room_create_calls st1 = S (Room_create_calls st)
       ∧ Room_create_calls st2 = S (Room_create_calls st)
       ∧ roomObjects st2 = roomObjects st ++ [new_room roomId]
       ∧ rooms st2 = <[roomId := room]> (rooms st)
       ∧ queue st2 = []
       ∧ ∃ effs, trace st2 = trace st1 ++ effs
                 ∧ Forall (joins room) effs
                 ∧ ∀ info, info ∈ infos → CallAccept (request info) ∈ effs).
Proof.
  split; [|split].
  - intros st Hreach. apply registry_agrees_one_room_per_id.
    by destruct (reachable_registry_ok env st Hreach).
  - intros st roomId settles Habs Hhead HK room st'.
    destruct settles as [|first rest]; [done|]. injection Hhead as ->.
    assert (getOrCreateRoom_serially (None :: rest) roomId st =
              (Returns (replicate (length (None :: rest)) (Returns room)),
               with_new_room roomId (awaiting_Room_create roomId st))) as Heq.
    { cbn [getOrCreateRoom_serially]. unfold mbind, M_bind at 1. unfold attempt.
      rewrite (getOrCreateRoom_created _ _ Habs).
      unfold mbind, M_bind.
      rewrite (getOrCreateRoom_serially_found rest roomId room).
      - subst room. destruct (awaiting_Room_create_same roomId st) as [[_ Ho] _].
        reflexivity.
      - destruct (awaiting_Room_create_same roomId st) as [[_ Ho] _].
        cbn [with_new_room rooms set_rooms set_roomObjects].
        rewrite lookup_insert_eq. by rewrite Ho. }
    subst st'. unfold exec. rewrite Heq. cbn [fst snd].
    destruct (awaiting_Room_create_same roomId st) as [[Hr Ho] _].
    repeat split.
    + change (Room_create_calls (with_new_room roomId (awaiting_Room_create roomId st)))
        with (Room_create_calls (awaiting_Room_create roomId st)).
      apply Room_create_calls_awaiting.
    + cbn [with_new_room roomObjects set_rooms set_roomObjects]. by rewrite Ho.
    + cbn [with_new_room rooms set_rooms set_roomObjects]. subst room. by rewrite Ho, Hr.
    + intros Hagree. apply registry_agrees_one_room_per_id, with_new_room_agrees.
      * by rewrite Hr.
      * by apply (registry_agrees_same st).
  - intros st roomId infos Hrun Hlisten Hq Habs Hall HK.
    apply (concurrent_requests_one_room env roomId infos st); try done. lia.
Qed.

(** ** The cursor stays on the pool *)

#[local] Instance keeps_cursor_in_pool_refl : Reflexive keeps_cursor_in_pool.
Proof. by intros st. Qed.

#[local] Instance keeps_cursor_in_pool_trans : Transitive keeps_cursor_in_pool.
Proof.
  unfold keeps_cursor_in_pool, cursor_in_pool.
  intros st1 st2 st3 [H1 H2] [H3 H4]. split; [congruence | auto].
Qed.

Lemma getMediasoupWorker_keeps_cursor :
  respects keeps_cursor_in_pool getMediasoupWorker.
Proof.
  intros st. rewrite getMediasoupWorker_eq. cbn [snd].
  split; [done|]. unfold cursor_in_pool.
  cbn [mediasoupWorkers nextMediasoupWorkerIdx set_nextMediasoupWorkerIdx].
  intros [Hnil | Hlt]; [by left | right].
  destruct (Nat.eqb_spec (S (nextMediasoupWorkerIdx st)) (length (mediasoupWorkers st)));
    lia.
Qed.

Ltac unfold_handlers_to_pool :=
  cbv beta iota zeta delta
    [handle on_connectionrequest queue_push queue_settled run_catch rejection_of
     task_body_resume task_join task_catch accept reject
     room_handleProtooConnection getOrCreateRoom getOrCreateRoom_begin
     getOrCreateRoom_resume Room_create Room_create_settled room_on
     rooms_get rooms_has rooms_set rooms_delete
     room_close run_closeListener worker_died run_diedListener
     run_timeoutCallback expressApp bodyParser_json param_roomId endpoint
     req_room_call res_json res_send errorHandler res_status_send logger emit
     setTimeout].

Ltac keeps_cursor_leaf :=
  first [ apply getMediasoupWorker_keeps_cursor | by (split; [done | intros H; exact H]) ].

Lemma queue_next_keeps_cursor (env : environment) (failed : option (task * Error.t))
    (pending : list task) :
  respects keeps_cursor_in_pool (queue_next env failed pending).
Proof.
  revert failed. induction pending as [|t rest IH]; intros failed; cbn [queue_next]; unfold_handlers_to_pool;
    repeat first [apply IH | keeps_cursor_leaf | respects_step].
Qed.

Lemma handle_keeps_cursor (env : environment) (ev : event) :
  respects keeps_cursor_in_pool (handle env ev).
Proof.
  unfold_handlers_to_pool.
  repeat first [apply queue_next_keeps_cursor | keeps_cursor_leaf | respects_step].
Qed.

Lemma started_cursor (env : environment) (numWorkers : nat) :
  nextMediasoupWorkerIdx (started env numWorkers) = 0.
Proof.
  assert (respects (fun st st' => nextMediasoupWorkerIdx st' = nextMediasoupWorkerIdx st)
            (require_room;; run env numWorkers)) as H.
  { assert (Reflexive (fun st st' => nextMediasoupWorkerIdx st' = nextMediasoupWorkerIdx st))
      by (by intros st).
    assert (Transitive (fun st st' => nextMediasoupWorkerIdx st' = nextMediasoupWorkerIdx st))
      by (intros st1 st2 st3 H1 H2; congruence).
    assert (∀ remaining i,
              respects (fun st st' => nextMediasoupWorkerIdx st' = nextMediasoupWorkerIdx st)
                (runMediasoupWorkers_loop env remaining i)) as Hloop.
    { induction remaining as [|n IH]; intros i; cbn [runMediasoupWorkers_loop];
        unfold_handlers; respects_with ltac:(first [apply IH | reflexivity]). }
    unfold run, runMediasoupWorkers. unfold_handlers.
    respects_with ltac:(first [apply Hloop | reflexivity]). }
  apply (H room_js_loaded).
Qed.

(** In every state the process can be in, the cursor is on a slot of the
    pool, provided the pool has one. *)
Lemma reachable_cursor_in_pool (env : environment) (st : state) :
  reachable env st →
  (1 ≤ length (mediasoupWorkers st))%nat →
  (nextMediasoupWorkerIdx st < length (mediasoupWorkers st))%nat.
Proof.
  intros (n & evs & ->) Hpool.
  destruct (steps_respects env keeps_cursor_in_pool (handle_keeps_cursor env) evs
              (started env n)) as [Hsame Hkeep].
  destruct Hkeep as [Hnil | Hlt]; [|rewrite Hnil in Hpool; cbn in Hpool; lia|done].
  unfold cursor_in_pool. rewrite started_cursor.
  destruct (mediasoupWorkers (started env n)); [by left | right; cbn; lia].
Qed.

(** ** The HTTPS server and the Express application *)

#[local] Instance same_wiring_refl : Reflexive same_wiring.
Proof. by intros st. Qed.

#[local] Instance same_wiring_trans : Transitive same_wiring.
Proof. unfold same_wiring. intros st1 st2 st3 [H1 H2] [H3 H4]. split; congruence. Qed.

Lemma queue_next_same_wiring (env : environment) (failed : option (task * Error.t))
    (pending : list task) :
  respects same_wiring (queue_next env failed pending).
Proof.
  revert failed. induction pending as [|t rest IH]; intros failed; cbn [queue_next]; unfold_handlers;
    respects_with ltac:(first [apply IH | by split]).
Qed.

Lemma handle_same_wiring (env : environment) (ev : event) :
  respects same_wiring (handle env ev).
Proof.
  unfold_handlers.
  respects_with ltac:(first [apply queue_next_same_wiring | by split]).
Qed.

Lemma runMediasoupWorkers_same_wiring (env : environment) (numWorkers : nat) :
  respects same_wiring (runMediasoupWorkers env numWorkers).
Proof.
  assert (∀ remaining i, respects same_wiring (runMediasoupWorkers_loop env remaining i))
    as Hloop.
  { induction remaining as [|n IH]; intros i; cbn [runMediasoupWorkers_loop];
      unfold_handlers; respects_with ltac:(first [apply IH | by split]). }
  unfold runMediasoupWorkers. unfold_handlers.
  respects_with ltac:(first [apply Hloop | by split]).
Qed.

Lemma createExpressApp_eq (st : state) :
  createExpressApp st =
    (Returns tt,
     set_room_js_expressApp (Some ExpressApplication)
       (set_trace (trace st ++ [Log INFO "creating Express app..." []]) st)).
Proof. reflexivity. Qed.

Lemma runHttpsServer_eq (st : state) :
  runHttpsServer st =
    (Returns tt,
     set_httpsServer (Some (imported_expressApp st))
       (set_trace (trace st ++ [Log INFO "running an HTTPS server..." []]) st)).
Proof. reflexivity. Qed.

Lemma runProtooWebSocketServer_eq (st : state) :
  runProtooWebSocketServer st =
    (Returns tt,
     set_protooWebSocketServer true
       (set_trace (trace st ++ [Log INFO "running protoo WebSocketServer..." []]) st)).
Proof. reflexivity. Qed.

Lemma started_unwired (env : environment) (numWorkers : nat) :
  unwired (started env numWorkers).
Proof.
  unfold started, exec, run. unfold mbind, M_bind at 1.
  unfold require_room at 1, modify at 1. unfold mbind, M_bind at 1.
  pose proof (runMediasoupWorkers_same_wiring env numWorkers
                (set_imported_expressApp (room_js_expressApp room_js_loaded)
                   room_js_loaded)) as [Hi Hs].
  destruct (runMediasoupWorkers env numWorkers _) as [[[] | e] st1]; cbn [snd] in *.
  - unfold mbind, M_bind.
    rewrite createExpressApp_eq, runHttpsServer_eq, runProtooWebSocketServer_eq.
    split.
    + transitivity (imported_expressApp st1); [reflexivity | by rewrite Hi].
    + right. transitivity (Some (imported_expressApp st1)); [reflexivity | by rewrite Hi].
  - split; [done | by left].
Qed.

Lemma reachable_unwired (env : environment) (st : state) :
  reachable env st → unwired st.
Proof.
  intros (n & evs & ->).
  destruct (steps_respects env same_wiring (handle_same_wiring env) evs (started env n))
    as [Hi Hs].
  destruct (started_unwired env n) as [Hi0 Hs0].
  unfold unwired. by rewrite Hi, Hs.
Qed.

(** The HTTPS server never gets the Express application.  server.js
    takes [expressApp] out of [require("./room")] when it is loaded, and
    room.js assigns its variable only later, in [createExpressApp]; so
    [https.createServer(tls, expressApp)] is given [undefined], the server
    has no "request" listener, and an HTTP request changes nothing in the
    process: it is not answered. *)
Theorem https_server_has_no_listener
    (env : environment) (st : state) (req : httpRequest) (answer : roomAnswer) :
  reachable env st →
  imported_expressApp st = None
  ∧ (httpsServer st = None ∨ httpsServer st = Some None)
  ∧ step env st (HttpRequest req answer) = st.
Proof.
  intros Hreach. destruct (reachable_unwired env st Hreach) as [Hi Hs].
  repeat split; try done.
  unfold step. destruct (exited st); [done|].
  unfold handle. munfold. by destruct Hs as [-> | ->].
Qed.

(** ** The theorems at work on the example process *)

Lemma example_with_room_reachable : reachable example_env example_with_room.
Proof. by exists 2, [ConnectionRequest alice; RoomCreateSettled None]. Defined.

Lemma example_started_reachable : reachable example_env example_started.
Proof. by exists 2, []. Defined.

(** C1 on the example: with alice in "room-A", three calls for "room-B"
    in a row return the same new Room; and when alice and bob ask for
    "room-A" at the same moment, one Room is constructed. *)
Lemma single_room_per_identifier_witness :
  one_room_per_id example_with_room
  ∧ rooms example_with_room !! Str "room-B" = None
  ∧ fst (getOrCreateRoom_serially [None; None; None] (Str "room-B") example_with_room) =
      Returns [Returns 1; Returns 1; Returns 1]
  ∧ Forall (asks_for (Str "room-A")) [alice; bob]
  ∧ roomObjects
      (steps example_env
         [ConnectionRequest alice; ConnectionRequest bob; RoomCreateSettled None]
         example_started) =
      [new_room (Str "room-A")].
Proof.
  destruct (single_room_per_identifier example_env) as (Hone & Hserial & Hconcurrent).
  split; [apply Hone, example_with_room_reachable|].
  split; [reflexivity|].
  split.
  { refine (proj1 (Hserial example_with_room (Str "room-B") [None; None; None] _ _ _)).
    - reflexivity.
    - reflexivity.
    - cbn. lia. }
  assert (Forall (asks_for (Str "room-A")) [alice; bob]) as Hask
    by (by repeat constructor).
  split; [exact Hask|].
  refine (proj1 (proj2 (proj2 (proj2 (proj2 (proj2
            (Hconcurrent example_started (Str "room-A") [alice; bob] _ _ _ _ Hask _))))))).
  - reflexivity.
  - reflexivity.
  - reflexivity.
  - reflexivity.
  - cbn. lia.
Defined.

(** C2 on the example: two workers, cursor 0. *)
Lemma getMediasoupWorker_round_robin_witness :
  (1 ≤ length (mediasoupWorkers example_started))%nat
  ∧ (nextMediasoupWorkerIdx example_started < length (mediasoupWorkers example_started))%nat
  ∧ fst (getMediasoupWorker_times 3 example_started) =
      Returns [Some {| pid := 1000; on_died := [ExitInTwoSeconds] |};
               Some {| pid := 1001; on_died := [ExitInTwoSeconds] |};
               Some {| pid := 1000; on_died := [ExitInTwoSeconds] |}].
Proof.
  assert (1 ≤ length (mediasoupWorkers example_started))%nat as H1 by (vm_compute; lia).
  assert (nextMediasoupWorkerIdx example_started
          < length (mediasoupWorkers example_started))%nat as H2
    by (apply (reachable_cursor_in_pool example_env);
        [exact example_started_reachable | exact H1]).
  split; [exact H1|]. split; [exact H2|].
  exact (proj1 (proj2 (proj2 (proj2 (proj2 (proj2
           (getMediasoupWorker_round_robin example_started H1 H2))))))).
Defined.

(** C3 on the example: a plain error is answered with 500 and the text
    "Error: boom"; an error with status 1000 is not answered. *)
Lemma error_translation_witness :
  ((100 ≤ error_status plain_error ≤ 999)%Z
   ∧ valid_statusMessage (Error.message plain_error) = true
   ∧ errorHandler plain_error room_js_loaded =
       (Returns tt,
        set_trace
          (trace room_js_loaded ++
             [Log WARN "Express app %s" [ArgString (Error.toString plain_error)];
              Respond {| res_status := error_status plain_error;
                         res_statusMessage :=
                           if String.eqb (Error.message plain_error) "" then None
                           else Some (Error.message plain_error);
                         res_body := SendText (Error.toString plain_error) |}])
          room_js_loaded))
  ∧ (999 < error_status status_1000_error < 2 ^ 31)%Z
  ∧ ∃ thrown,
      errorHandler status_1000_error room_js_loaded =
        (Throws thrown,
         set_trace
           (trace room_js_loaded ++
              [Log WARN "Express app %s" [ArgString (Error.toString status_1000_error)]])
           room_js_loaded).
Proof.
  assert (100 ≤ error_status plain_error ≤ 999)%Z as Hstatus by (vm_compute; by split).
  assert (valid_statusMessage (Error.message plain_error) = true) as Hmessage
    by reflexivity.
  assert (999 < error_status status_1000_error < 2 ^ 31)%Z as Hhigh
    by (vm_compute; by split).
  split; [split; [exact Hstatus | split; [exact Hmessage|]] | split; [exact Hhigh|]].
  - exact (proj1 (proj2 (proj2 (proj2 (error_translation plain_error room_js_loaded))))
             Hstatus Hmessage).
  - exact (proj1 (proj2 (proj2 (proj2 (proj2
             (error_translation status_1000_error room_js_loaded)))))
             (or_intror (or_introl Hhigh))).
Defined.


(** C5 on the example: a request with [peerId] and no [roomId]. *)
Lemma connectionrequest_without_identifiers_witness :
  missing_or_empty (query_roomId nameless)
  ∧ on_connectionrequest example_env nameless example_started =
      (Returns tt,
       set_trace
         (trace example_started ++
            [CallReject 3
               (RejectWith 400 "Connection request without roomId and/or peerId")])
         example_started).
Proof.
  assert (missing_or_empty (query_roomId nameless)) as Hmiss by (by left).
  split; [exact Hmiss|].
  exact (proj1 (connectionrequest_without_identifiers example_env nameless example_started
                  (or_introl Hmiss))).
Defined.

(** C6 on the example: "room-A" closes. *)
Lemma room_removed_on_close_only_witness :
  rooms example_with_room !! Str "room-A" = Some 0
  ∧ rooms (step example_env example_with_room (RoomClosed 0)) !! Str "room-A" = None.
Proof.
  assert (rooms example_with_room !! Str "room-A" = Some 0) as Hreg by reflexivity.
  split; [exact Hreg|].
  destruct (room_removed_on_close_only example_env) as [Hclose _].
  exact (proj1 (proj2
           (Hclose example_with_room (Str "room-A") 0
              example_with_room_reachable eq_refl Hreg))).
Defined.

(** C7 on the example: the construction of "room-A" that the task of
    alice started fails while the task of bob waits behind it.  The task
    of bob is started, and calls [Room.create] in its turn, before the
    error is logged and the request of alice rejected. *)
Lemma queued_task_failure_witness :
  exited example_two_waiting = None
  ∧ queue example_two_waiting = [alice_task; bob_task]
  ∧ trace (step example_env example_two_waiting (RoomCreateSettled (Some plain_error))) =
      trace example_two_waiting ++
        [Log INFO "creating a new Room [roomId:%s]" [ArgValue (Str "room-A")];
         CallRoomCreate (Some {| pid := 1001; on_died := [ExitInTwoSeconds] |})
           (Str "room-A");
         Log ERROR "room creation or room joining failed:%o" [ArgError plain_error];
         CallReject 1 (RejectError plain_error)]
  ∧ queue (step example_env example_two_waiting (RoomCreateSettled (Some plain_error))) =
      [bob_task].
Proof.
  assert (exited example_two_waiting = None) as Hrun by reflexivity.
  assert (queue example_two_waiting = [alice_task; bob_task]) as Hq by reflexivity.
  split; [exact Hrun|]. split; [exact Hq|].
  destruct (queued_task_failure example_env alice_task plain_error)
    as (Hrejects & _ & _ & Hsettled & _).
  destruct (Hsettled example_two_waiting [bob_task] (Some plain_error) example_two_waiting
              Hrun Hq (Hrejects example_two_waiting))
    as (_ & _ & _ & before & after & Htrace & Hshape).
  split; [|reflexivity].
  rewrite Htrace.
  change (rooms example_two_waiting !! task_roomId bob_task) with (@None nat) in Hshape.
  destruct Hshape as [-> ->]. reflexivity.
Defined.

(** C8 on the example: the first worker dies. *)
Lemma worker_died_exits_in_two_seconds_witness :
  mediasoupWorkers example_started !! 0 =
    Some {| pid := 1000; on_died := [ExitInTwoSeconds] |}
  ∧ exited (steps example_env [WorkerDied 0; TimeoutExpired 0] example_started) = Some 1%Z.
Proof.
  assert (mediasoupWorkers example_started !! 0 =
            Some {| pid := 1000; on_died := [ExitInTwoSeconds] |}) as Hw by reflexivity.
  split; [exact Hw|].
  exact (proj1 (proj2
           (worker_died_exits_in_two_seconds example_env example_started 0 _
              example_started_reachable eq_refl Hw))).
Defined.

(** C9 on the example: the construction of "room-A" fails. *)
Lemma getOrCreateRoom_failure_atomic_witness :
  rooms example_started !! Str "room-A" = None
  ∧ fst (getOrCreateRoom (Some plain_error) (Str "room-A") example_started) =
      Throws plain_error.
Proof.
  assert (rooms example_started !! Str "room-A" = None) as Habs by reflexivity.
  split; [exact Habs|].
  exact (proj1 (getOrCreateRoom_failure_atomic plain_error (Str "room-A")
                  example_started Habs)).
Defined.

(** C10 on the example: the request without [roomId] leaves the queue as
    it was. *)
Lemma rejected_connectionrequest_frame_witness :
  missing_or_empty (query_roomId nameless)
  ∧ queue (step example_env example_awaiting (ConnectionRequest nameless)) =
      queue example_awaiting.
Proof.
  assert (missing_or_empty (query_roomId nameless)) as Hmiss by (by left).
  split; [exact Hmiss|].
  exact (proj1 (rejected_connectionrequest_frame example_env nameless example_awaiting
                  (or_introl Hmiss))).
Defined.

(** The HTTPS server of the example has no listener. *)
Lemma https_server_has_no_listener_witness :
  reachable example_env example_with_room
  ∧ step example_env example_with_room (HttpRequest get_unknown_room (Gives JNull)) =
      example_with_room.
Proof.
  split; [exact example_with_room_reachable|].
  exact (proj2 (proj2
           (https_server_has_no_listener example_env example_with_room get_unknown_room
              (Gives JNull) example_with_room_reachable))).
Defined.

(** * More of the gateway *)
(** ** Start-up *)

Section StartUp.

Variable env : environment.

Lemma runMediasoupWorkers_loop_resolved (pids : nat → Z) (remaining i : nat) (st : state) :
  (∀ j, i ≤ j < i + remaining → createWorker env j = Returns (pids j)) →
  runMediasoupWorkers_loop env remaining i st =
    (Returns tt,
     set_mediasoupWorkers
       (mediasoupWorkers st ++ ((fun j => launched (pids j)) <$> seq i remaining))
       (set_trace (trace st ++ (seq i remaining ≫= fun j => launch_calls (pids j))) st)).
Proof.
  revert i st. induction remaining as [|n IH]; intros i st Hpids.
  - cbn. rewrite !app_nil_r. by destruct st.
  - cbn [runMediasoupWorkers_loop]. unfold mediasoup_createWorker.
    rewrite (Hpids i) by lia. munfold.
    rewrite IH by (intros j Hj; apply Hpids; lia).
    destruct st. munfold. cbn [seq fmap list_fmap mbind list_bind app].
    unfold worker_on_died, launched, launch_calls. cbn [pid on_died app].
    by rewrite <- !app_assoc.
Qed.

Lemma runMediasoupWorkers_loop_rejected
    (pids : nat → Z) (e : Error.t) (k remaining i : nat) (st : state) :
  k < remaining →
  (∀ j, i ≤ j < i + k → createWorker env j = Returns (pids j)) →
  createWorker env (i + k) = Throws e →
  runMediasoupWorkers_loop env remaining i st =
    (Throws e,
     set_mediasoupWorkers
       (mediasoupWorkers st ++ ((fun j => launched (pids j)) <$> seq i k))
       (set_trace
          (trace st ++ (seq i k ≫= fun j => launch_calls (pids j)) ++ [CallCreateWorker])
          st)).
Proof.
  revert remaining i st. induction k as [|k IH]; intros [|n] i st Hk Hpids He; try lia.
  - cbn [runMediasoupWorkers_loop]. unfold mediasoup_createWorker.
    rewrite Nat.add_0_r in He. rewrite He. munfold.
    cbn. rewrite app_nil_r. by destruct st.
  - cbn [runMediasoupWorkers_loop]. unfold mediasoup_createWorker.
    rewrite (Hpids i) by lia. munfold.
    rewrite IH; [|lia|intros j Hj; apply Hpids; lia|by rewrite <- He; f_equal; lia].
    destruct st. munfold. cbn [seq fmap list_fmap mbind list_bind app].
    unfold worker_on_died, launched, launch_calls. cbn [pid on_died app].
    by rewrite <- !app_assoc.
Qed.

End StartUp.

Lemma run_eq (env : environment) (numWorkers : nat) :
  (require_room;; run env numWorkers) room_js_loaded =
    match runMediasoupWorkers_loop env numWorkers 0
            (set_trace
               [Log INFO "running %d mediasoup Workers..." [ArgNumber (Z.of_nat numWorkers)]]
               room_js_loaded) with
    | (Returns _, st) =>
        (Returns tt,
         set_trace
           (trace st ++
              [Log INFO "creating Express app..." [];
               Log INFO "running an HTTPS server..." [];
               Log INFO "running protoo WebSocketServer..." [];
               SetInterval LogRoomsStatus 120000])
           (set_protooWebSocketServer true
              (set_httpsServer (Some (imported_expressApp st))
                 (set_room_js_expressApp (Some ExpressApplication) st))))
    | (Throws e, st) => (Throws e, st)
    end.
Proof.
  unfold run, runMediasoupWorkers. unfold mbind, M_bind.
  assert (logger INFO "running %d mediasoup Workers..." [ArgNumber (Z.of_nat numWorkers)]
            room_js_loaded =
          (Returns tt,
           set_trace
             [Log INFO "running %d mediasoup Workers..." [ArgNumber (Z.of_nat numWorkers)]]
             room_js_loaded)) as Hlog by reflexivity.
  change (require_room room_js_loaded) with (Returns tt, room_js_loaded).
  cbv beta iota. rewrite Hlog.
  destruct (runMediasoupWorkers_loop env numWorkers 0 _) as [[[]|e] st]; [|done].
  rewrite createExpressApp_eq, runHttpsServer_eq, runProtooWebSocketServer_eq.
  destruct st. mcompute. by rewrite <- !app_assoc.
Qed.

Lemma runMediasoupWorkers_eq (env : environment) (numWorkers : nat) (st : state) :
  runMediasoupWorkers env numWorkers st =
    runMediasoupWorkers_loop env numWorkers 0
      (set_trace
         (trace st ++
            [Log INFO "running %d mediasoup Workers..." [ArgNumber (Z.of_nat numWorkers)]])
         st).
Proof. reflexivity. Qed.

(** Start-up when every [mediasoup.createWorker] resolves.
    [runMediasoupWorkers] adds [numWorkers] workers to the pool, in the
    order they were created, each with its "died" listener and its usage
    report every 120 s.  [run] then comes to its end (the model takes the
    interactive console, the TLS files and the listening of the server for
    granted) and leaves that pool with the cursor on its first worker, no
    room, the Express application built (and, as the script imports it,
    not given to the HTTPS server), the protoo server listening, and the
    rooms report every 120 s. *)
Theorem startup_launches_every_worker
    (env : environment) (numWorkers : nat) (pids : nat → Z) :
  (∀ i, i < numWorkers → createWorker env i = Returns (pids i)) →
  (∀ st,
     runMediasoupWorkers env numWorkers st =
       (Returns tt,
        set_mediasoupWorkers
          (mediasoupWorkers st ++ ((fun i => launched (pids i)) <$> seq 0 numWorkers))
          (set_trace
             (trace st ++
                Log INFO "running %d mediasoup Workers..." [ArgNumber (Z.of_nat numWorkers)]
                :: (seq 0 numWorkers ≫= fun i => launch_calls (pids i)))
             st)))
  ∧ fst ((require_room;; run env numWorkers) room_js_loaded) = Returns tt
  ∧ started env numWorkers =
      {| mediasoupWorkers := (fun i => launched (pids i)) <$> seq 0 numWorkers;
         nextMediasoupWorkerIdx := 0;
         rooms := ∅; roomObjects := []; queue := [];
         room_js_expressApp := Some ExpressApplication;
         imported_expressApp := None;
         httpsServer := Some None;
         protooWebSocketServer := true;
         timeouts := []; exited := None;
         trace :=
           Log INFO "running %d mediasoup Workers..." [ArgNumber (Z.of_nat numWorkers)]
           :: (seq 0 numWorkers ≫= fun i => launch_calls (pids i))
           ++ [Log INFO "creating Express app..." [];
               Log INFO "running an HTTPS server..." [];
               Log INFO "running protoo WebSocketServer..." [];
               SetInterval LogRoomsStatus 120000] |}.
Proof.
  intros Hpids. split.
  - intros st. rewrite runMediasoupWorkers_eq.
    rewrite (runMediasoupWorkers_loop_resolved env pids)
      by (intros j Hj; apply Hpids; lia).
    destruct st. mcompute. by rewrite <- app_assoc.
  - unfold started, exec. rewrite run_eq.
    rewrite (runMediasoupWorkers_loop_resolved env pids)
      by (intros j Hj; apply Hpids; lia).
    split; reflexivity.
Qed.

(** Start-up when a [mediasoup.createWorker] rejects, the one of index
    [k] being the first.  [runMediasoupWorkers] rejects with that error
    there and then: the pool has the [k] workers created before and no
    further worker is asked for.  [run] rejects with it, and nothing of
    what follows in [run] is done: no Express application, no HTTPS
    server, no protoo server, so that no connection request is handled. *)
Theorem startup_stops_at_the_first_failed_worker
    (env : environment) (numWorkers k : nat) (pids : nat → Z) (e : Error.t) :
  k < numWorkers →
  (∀ i, i < k → createWorker env i = Returns (pids i)) →
  createWorker env k = Throws e →
  (∀ st,
     runMediasoupWorkers env numWorkers st =
       (Throws e,
        set_mediasoupWorkers
          (mediasoupWorkers st ++ ((fun i => launched (pids i)) <$> seq 0 k))
          (set_trace
             (trace st ++
                Log INFO "running %d mediasoup Workers..." [ArgNumber (Z.of_nat numWorkers)]
                :: (seq 0 k ≫= fun i => launch_calls (pids i)) ++ [CallCreateWorker])
             st)))
  ∧ fst ((require_room;; run env numWorkers) room_js_loaded) = Throws e
  ∧ started env numWorkers =
      {| mediasoupWorkers := (fun i => launched (pids i)) <$> seq 0 k;
         nextMediasoupWorkerIdx := 0;
         rooms := ∅; roomObjects := []; queue := [];
         room_js_expressApp := None;
         imported_expressApp := None;
         httpsServer := None;
         protooWebSocketServer := false;
         timeouts := []; exited := None;
         trace :=
           Log INFO "running %d mediasoup Workers..." [ArgNumber (Z.of_nat numWorkers)]
           :: (seq 0 k ≫= fun i => launch_calls (pids i))
           ++ [CallCreateWorker] |}
  ∧ (∀ evs, Forall (fun ev => ∃ info, ev = ConnectionRequest info) evs →
            steps env evs (started env numWorkers) = started env numWorkers).
Proof.
  intros Hk Hpids He. split.
  { intros st. rewrite runMediasoupWorkers_eq.
    rewrite (runMediasoupWorkers_loop_rejected env pids e k)
      by (first [done | intros j Hj; apply Hpids; lia]).
    destruct st. mcompute. by rewrite <- app_assoc. }
  assert ((require_room;; run env numWorkers) room_js_loaded =
          (Throws e,
           {| mediasoupWorkers := (fun i => launched (pids i)) <$> seq 0 k;
              nextMediasoupWorkerIdx := 0;
              rooms := ∅; roomObjects := []; queue := [];
              room_js_expressApp := None;
              imported_expressApp := None;
              httpsServer := None;
              protooWebSocketServer := false;
              timeouts := []; exited := None;
              trace :=
                Log INFO "running %d mediasoup Workers..."
                  [ArgNumber (Z.of_nat numWorkers)]
                :: (seq 0 k ≫= fun i => launch_calls (pids i))
                ++ [CallCreateWorker] |})) as Hrun.
  { rewrite run_eq.
    by rewrite (runMediasoupWorkers_loop_rejected env pids e k)
      by (first [done | intros j Hj; apply Hpids; lia]). }
  unfold started, exec. rewrite Hrun. split; [done|]. split; [done|].
  intros evs Hevs. induction Hevs as [|ev evs [info ->] _ IH]; [done|].
  rewrite steps_cons. exact IH.
Qed.

(** ** The pool without a worker *)

(** A pool without a worker (a configuration with [numWorkers] 0):
    [getMediasoupWorker] returns [undefined] every time, and the cursor,
    which is reset only when it meets the length of the pool, goes up by
    one with every call; [getOrCreateRoom] then hands [undefined] to
    [Room.create] as the worker of the room. *)
Theorem getMediasoupWorker_without_workers (st : state) (n : nat) (roomId : value) :
  mediasoupWorkers st = [] →
  getMediasoupWorker_times n st =
    (Returns (replicate n None),
     set_nextMediasoupWorkerIdx (nextMediasoupWorkerIdx st + n) st)
  ∧ (rooms st !! roomId = None →
     trace (exec (getOrCreateRoom_begin roomId) st) =
       trace st ++ [Log INFO "creating a new Room [roomId:%s]" [ArgValue roomId];
                    CallRoomCreate None roomId]).
Proof.
  intros Hpool. split.
  - revert st Hpool. induction n as [|n IH]; intros st Hpool.
    + cbn. rewrite Nat.add_0_r. by destruct st.
    + cbn [getMediasoupWorker_times]. unfold mbind, M_bind at 1.
      rewrite getMediasoupWorker_eq, Hpool. cbn [length Nat.eqb lookup list_lookup].
      unfold mbind, M_bind at 1. rewrite IH by done.
      cbn [mret M_ret replicate]. f_equal.
      destruct st. mcompute. f_equal. lia.
  - intros Habs. unfold exec. rewrite getOrCreateRoom_begin_absent by done.
    unfold awaiting_Room_create. cbn [snd set_trace trace]. by rewrite Hpool.
Qed.

(** ** The Express application on a room of the registry *)

(** The error handler after other calls. *)
Lemma errorHandler_after (error : Error.t) (calls : list effect) (st : state) :
  errorHandler error (set_trace (trace st ++ calls) st) =
    (if sendable error then Returns tt else Throws (refusal error),
     set_trace (trace st ++ calls ++ errorHandler_calls error) st).
Proof.
  rewrite errorHandler_eq. destruct st. cbn [set_trace trace]. by rewrite <- app_assoc.
Qed.

Lemma expressApp_served (req : httpRequest) (body : json) :
  req_parsed req = Returns body →
  ∃ c : roomCall,
    ∀ (st : state) (room : roomRef) (answer : roomAnswer),
      rooms st !! Str (route_roomId (req_route req)) = Some room →
      expressApp req answer st =
        match handler_gets (req_route req) answer with
        | Returns data =>
            (Returns tt,
             set_trace
               (trace st ++ [CallRoom room c; Respond (served_response (req_route req) data)])
               st)
        | Throws e => errorHandler e (set_trace (trace st ++ [CallRoom room c]) st)
        end.
Proof.
  intros Hbody.
  assert (∀ st room answer,
            rooms st !! Str (route_roomId (req_route req)) = Some room →
            expressApp req answer st =
              try_catch (endpoint (req_route req) body (req_query req) (Some room) answer)
                errorHandler st) as Happ.
  { intros st room answer Hroom. unfold expressApp, bodyParser_json, try_catch.
    rewrite Hbody. unfold mbind, M_bind, mret, M_ret.
    by rewrite (param_roomId_found _ room). }
  destruct req as [r parsed query]. cbn [req_route req_parsed req_query] in *.
  destruct r; eexists; intros st room answer Hroom; rewrite (Happ st room) by done;
    unfold handler_gets, served_response; cbn [calls_without_await is_DELETE];
    destruct answer as [data|e|data|e]; cbn [awaited not_awaited endpoint];
    unfold req_room_call, res_json, res_send; destruct st; mcompute;
    rewrite <- ?app_assoc; reflexivity.
Qed.

(** A request, as Express hands it to a route, for a room of the
    registry and with a body the parser accepted: the handler of the route
    calls one method of that Room, with arguments that depend on the
    request only.  If the method returns a value, the response is 200
    with that value as JSON, except for DELETE, which sends the text
    "broadcaster deleted" whatever the Room returned; if the method
    throws, the error goes to the error handler.  If the method returns a
    promise, the seven handlers that await it do the same with what the
    promise resolves to or rejects with; the handlers of [GET] and
    [DELETE] do not await it: they answer 200 at once, [GET] with the
    promise written as JSON, that is [{}], and a rejection reaches no
    one.  The error handler, called with an error after the call of the
    Room, logs it and sends its translation if node can write it, and
    throws without a response if not.  In every state the process can be
    in, the Room the registry holds under that identifier is live:
    constructed for it and not closed. *)
Theorem rest_request_is_served_by_its_room
    (env : environment) (req : httpRequest) (body : json) :
  from_express req →
  req_parsed req = Returns body →
  ∃ c : roomCall,
    ∀ (st : state) (room : roomRef),
      rooms st !! Str (route_roomId (req_route req)) = Some room →
      let called := set_trace (trace st ++ [CallRoom room c]) st in
      let served := fun data =>
        (Returns tt,
         set_trace
           (trace st ++
              [CallRoom room c;
               Respond {| res_status := 200;
                          res_statusMessage := None;
                          res_body := if is_DELETE (req_route req)
                                      then SendText "broadcaster deleted"
                                      else SendJson data |}])
           st) in
      (∀ data, expressApp req (Gives data) st = served data)
      ∧ (∀ e, expressApp req (Raises e) st = errorHandler e called)
      ∧ (calls_without_await (req_route req) = false →
         (∀ data, expressApp req (Resolves data) st = served data)
         ∧ (∀ e, expressApp req (Rejects e) st = errorHandler e called))
      ∧ (calls_without_await (req_route req) = true →
         (∀ data, expressApp req (Resolves data) st = served (JObject []))
         ∧ (∀ e, expressApp req (Rejects e) st = served (JObject [])))
      ∧ (∀ e, sendable e = true →
           errorHandler e called =
             (Returns tt,
              set_trace
                (trace st ++
                   [CallRoom room c;
                    Log WARN "Express app %s" [ArgString (Error.toString e)];
                    Respond (error_response e)])
                st))
      ∧ (∀ e, sendable e = false →
           errorHandler e called =
             (Throws (refusal e),
              set_trace
                (trace st ++
                   [CallRoom room c;
                    Log WARN "Express app %s" [ArgString (Error.toString e)]])
                st))
      ∧ (reachable env st → live st room (Str (route_roomId (req_route req)))).
Proof.
  intros _ Hbody. destruct (expressApp_served req body Hbody) as [c Hc].
  exists c. intros st room Hroom called served. subst called served.
  pose proof (fun answer => Hc st room answer Hroom) as Happ.
  unfold handler_gets, served_response in Happ.
  split; [|split; [|split; [|split; [|split; [|split]]]]].
  - intros data. rewrite Happ. by destruct (calls_without_await (req_route req)).
  - intros e. rewrite Happ. by destruct (calls_without_await (req_route req)).
  - intros Hawait. rewrite Hawait in Happ. split; [intros data | intros e]; by rewrite Happ.
  - intros Hawait. rewrite Hawait in Happ. split; [intros data | intros e]; by rewrite Happ.
  - intros e Hsendable. rewrite errorHandler_after. unfold errorHandler_calls.
    by rewrite Hsendable.
  - intros e Hsendable. rewrite errorHandler_after. unfold errorHandler_calls.
    by rewrite Hsendable.
  - intros Hreach. destruct (reachable_registry_ok env st Hreach) as [Hagree _].
    by apply (registered_live st Hagree).
Qed.


(** ** The events of the gateway, in closed form *)

Section Events.

Variable env : environment.

(** A connection request with both identifiers, while the queue is
    empty. *)
Lemma connectionrequest_idle (info : connectionRequest) (st : state) :
  exited st = None →
  protooWebSocketServer st = true →
  truthy (query_roomId info) = true →
  truthy (query_peerId info) = true →
  queue st = [] →
  step env st (ConnectionRequest info) =
    exec (queue_next env None [task_of info])
      (set_queue [task_of info] (set_trace (trace st ++ [logged_request info]) st)).
Proof.
  intros Hex Hlisten Hroom Hpeer Hq. rewrite step_running by done.
  rewrite <- (on_connectionrequest_idle env info st) by done.
  unfold handle, exec, mbind, M_bind, gets. by rewrite Hlisten.
Qed.

(** A connection request with both identifiers, while a task is
    suspended. *)
Lemma connectionrequest_busy (info : connectionRequest) (st : state) :
  exited st = None →
  protooWebSocketServer st = true →
  truthy (query_roomId info) = true →
  truthy (query_peerId info) = true →
  queue st ≠ [] →
  step env st (ConnectionRequest info) =
    set_queue (queue st ++ [task_of info])
      (set_trace (trace st ++ [logged_request info]) st).
Proof.
  intros Hex Hlisten Hroom Hpeer Hq. rewrite step_running by done.
  rewrite <- (on_connectionrequest_busy env info st) by done.
  unfold handle, exec, mbind, M_bind, gets. by rewrite Hlisten.
Qed.

(** A connection request that lacks an identifier. *)
Lemma connectionrequest_refused (info : connectionRequest) (st : state) :
  exited st = None →
  protooWebSocketServer st = true →
  truthy (query_roomId info) = false ∨ truthy (query_peerId info) = false →
  step env st (ConnectionRequest info) =
    set_trace
      (trace st ++
         [CallReject (request info)
            (RejectWith 400 "Connection request without roomId and/or peerId")])
      st.
Proof.
  intros Hex Hlisten Hfalsy. rewrite step_running by done.
  unfold handle, exec, mbind, M_bind, gets. rewrite Hlisten.
  unfold on_connectionrequest.
  by destruct Hfalsy as [-> | ->]; rewrite ?orb_true_r.
Qed.

(** A connection request before the protoo server exists. *)
Lemma connectionrequest_unheard (info : connectionRequest) (st : state) :
  protooWebSocketServer st = false →
  step env st (ConnectionRequest info) = st.
Proof.
  intros Hlisten. unfold step. destruct (exited st); [done|].
  unfold handle, exec, mbind, M_bind, gets. by rewrite Hlisten.
Qed.

(** The promise of [Room.create] settles while [t] is suspended. *)
Lemma settled_eq (rejected : option Error.t) (t : task) (rest : list task) (st : state) :
  exited st = None →
  queue st = t :: rest →
  step env st (RoomCreateSettled rejected) =
    exec (queue_next env (pair t <$> resume_thrown env rejected t st) rest)
      (set_queue rest (resumed rejected t st)).
Proof.
  intros Hex Hq. rewrite step_running by done.
  exact (queue_settled_eq env rejected t rest st Hq).
Qed.

Lemma settled_idle (rejected : option Error.t) (st : state) :
  queue st = [] → step env st (RoomCreateSettled rejected) = st.
Proof.
  intros Hq. unfold step. destruct (exited st); [done|].
  exact (queue_settled_idle env rejected st Hq).
Qed.

(** The fields of the state after it. *)
Lemma settled_result (rejected : option Error.t) (t : task) (rest : list task)
    (st : state) :
  exited st = None →
  queue st = t :: rest →
  let s := resumed rejected t st in
  let st' := step env st (RoomCreateSettled rejected) in
  trace st' =
    trace s ++
      queue_calls env (rooms s) (mediasoupWorkers st !! nextMediasoupWorkerIdx st)
        (pair t <$> resume_thrown env rejected t st) rest
  ∧ queue st' = blocked (rooms s) rest
  ∧ rooms st' = rooms s
  ∧ roomObjects st' = roomObjects s
  ∧ mediasoupWorkers st' = mediasoupWorkers st
  ∧ timeouts st' = timeouts st
  ∧ exited st' = exited st.
Proof.
  intros Hex Hq. cbn zeta. rewrite (settled_eq rejected t rest st Hex Hq).
  destruct (queue_next_result env (pair t <$> resume_thrown env rejected t st) rest
              (set_queue rest (resumed rejected t st)) eq_refl)
    as (-> & -> & -> & -> & -> & -> & ->).
  by destruct rejected.
Qed.

End Events.

(** ** Joining a room of the registry *)

Lemma catch_calls_no_Room_create (failed : option (task * Error.t)) :
  Forall not_Room_create (catch_calls failed).
Proof. destruct failed as [[t e]|]; by repeat constructor. Qed.

Lemma attempt_calls_no_Room_create (t : task) (room : roomRef) :
  Forall not_Room_create (attempt_calls t room).
Proof. unfold attempt_calls. destruct (task_accept t); by repeat constructor. Qed.

Lemma join_calls_no_Room_create (env : environment) (t : task) (room : roomRef) :
  Forall not_Room_create (join_calls env t room).
Proof.
  rewrite join_calls_eq. apply Forall_app.
  split; [apply attempt_calls_no_Room_create | apply catch_calls_no_Room_create].
Qed.

(** A connection request for a room of the registry, arriving while no
    task is pending, is served at once: the request is logged, [accept]
    is called, and the transport is handed to that Room with the [peerId]
    of the request.  [Room.create] is not called, the cursor of the pool
    does not move, and nothing but the trace changes. *)
Theorem connectionrequest_joins_registered_room
    (env : environment) (info : connectionRequest) (room : roomRef) (st : state) :
  exited st = None →
  protooWebSocketServer st = true →
  queue st = [] →
  truthy (query_roomId info) = true →
  truthy (query_peerId info) = true →
  rooms st !! query_roomId info = Some room →
  let st' := step env st (ConnectionRequest info) in
  st' = set_trace (trace st ++ logged_request info :: join_calls env (task_of info) room) st
  ∧ (accept_throws info = None →
     handleProtooConnection env room (query_peerId info) (request info) = None →
     trace st' =
       trace st ++
         [logged_request info;
          CallAccept (request info);
          CallHandleProtooConnection room (query_peerId info) (request info)])
  ∧ Room_create_calls st' = Room_create_calls st
  ∧ nextMediasoupWorkerIdx st' = nextMediasoupWorkerIdx st.
Proof.
  intros Hex Hlisten Hq Hroom Hpeer Hfound. cbn zeta.
  assert (step env st (ConnectionRequest info) =
          set_trace (trace st ++ logged_request info :: join_calls env (task_of info) room) st)
    as ->.
  { rewrite connectionrequest_idle by done. rewrite queue_next_eq by done.
    cbn [set_queue set_trace rooms trace blocked queue_calls mediasoupWorkers
         nextMediasoupWorkerIdx].
    change (task_roomId (task_of info)) with (query_roomId info).
    rewrite Hfound. cbn [cursor_after catch_calls app]. rewrite join_calls_eq.
    destruct st. cbn in Hq. subst. mcompute. by rewrite <- app_assoc. }
  split; [done|]. split; [|split; [|done]].
  - intros Hacc Hhandle. unfold join_calls. cbn [set_trace trace task_of task_accept
      task_peerId task_request]. by rewrite Hacc, Hhandle.
  - apply (Room_create_calls_more st _
             (logged_request info :: join_calls env (task_of info) room)); [done|].
    constructor; [done|]. apply join_calls_no_Room_create.
Qed.

(** ** The order of the queue *)

Lemma accepted_app (l1 l2 : list effect) : accepted (l1 ++ l2) = accepted l1 ++ accepted l2.
Proof.
  induction l1 as [|e l1 IH]; [done|]. destruct e; cbn; by rewrite ?IH.
Qed.

Lemma accepted_catch_calls (failed : option (task * Error.t)) :
  accepted (catch_calls failed) = [].
Proof. by destruct failed as [[t e]|]. Qed.

Lemma accepted_attempt_calls (t : task) (room : roomRef) :
  accepted (attempt_calls t room) = [task_request t].
Proof. unfold attempt_calls. by destruct (task_accept t). Qed.

(** The requests the queue accepts on its pending tasks: those of the
    tasks it can run, in their order. *)
Lemma accepted_queue_calls (env : environment) (registry : gmap value roomRef)
    (mediasoupWorker : option worker) (failed : option (task * Error.t))
    (pending : list task) :
  accepted (queue_calls env registry mediasoupWorker failed pending) =
    task_request <$> runnable registry pending.
Proof.
  revert failed. induction pending as [|t rest IH]; intros failed;
    cbn [queue_calls runnable]; [apply accepted_catch_calls|].
  destruct (registry !! task_roomId t) as [room|] eqn:Hroom.
  - rewrite !accepted_app, accepted_catch_calls, accepted_attempt_calls, IH. done.
  - rewrite accepted_app, accepted_catch_calls. done.
Qed.

(** The queue is first in, first out.  A request that arrives while a
    task is suspended in [Room.create] goes to the back of the queue and
    nothing is accepted meanwhile, whatever room it asks for.  When the
    promise settles, the suspended task comes to its end (its request is
    accepted if the Room was constructed), then the tasks behind it run in
    the order they came, each request being accepted in its turn, up to
    the first one that has to wait for a Room of its own; that one and
    those behind it stay in the queue, in the same order.  The tasks that
    ran are all those in front of that one: the room of each of them is
    in the registry, and the room of the task left at the head of the
    queue, if there is one, is not. *)
Theorem queue_is_first_in_first_out (env : environment) :
  (∀ (info : connectionRequest) (st : state),
     exited st = None →
     protooWebSocketServer st = true →
     truthy (query_roomId info) = true →
     truthy (query_peerId info) = true →
     queue st ≠ [] →
     let st' := step env st (ConnectionRequest info) in
     queue st' = queue st ++ [task_of info]
     ∧ accepted (trace st') = accepted (trace st))
  ∧ (∀ (rejected : option Error.t) (t : task) (rest : list task) (st : state),
       exited st = None →
       queue st = t :: rest →
       let st' := step env st (RoomCreateSettled rejected) in
       ∃ finished,
         rest = finished ++ queue st'
         ∧ accepted (trace st') =
             accepted (trace st)
             ++ match rejected with
                | None => [task_request t]
                | Some _ => []
                end
             ++ (task_request <$> finished)
         ∧ Forall (fun t' => is_Some (rooms st' !! task_roomId t')) finished
         ∧ (∀ t' rest', queue st' = t' :: rest' → rooms st' !! task_roomId t' = None)).
Proof.
  split.
  - intros info st Hex Hlisten Hroom Hpeer Hq. cbn zeta.
    rewrite connectionrequest_busy by done. split; [done|].
    cbn [set_queue set_trace trace]. rewrite accepted_app. cbn. by rewrite app_nil_r.
  - intros rejected t rest st Hex Hq. cbn zeta.
    destruct (settled_result env rejected t rest st Hex Hq)
      as (Htrace & Hqueue & Hrooms & _).
    rewrite Htrace, Hqueue, Hrooms.
    set (registry := rooms (resumed rejected t st)).
    exists (runnable registry rest). split; [|split; [|split]].
    + symmetry. apply runnable_blocked.
    + rewrite accepted_app, accepted_queue_calls. fold registry.
      rewrite app_assoc. f_equal.
      destruct rejected as [e|]; cbn [resumed set_trace trace].
      * by rewrite app_nil_r.
      * by rewrite accepted_app, accepted_attempt_calls.
    + apply runnable_registered.
    + intros t' rest'. apply blocked_head.
Qed.
(** ** One [Room.create] at a time *)

#[local] Instance only_unregisters_refl : Reflexive only_unregisters.
Proof. by intros st. Qed.

#[local] Instance only_unregisters_trans : Transitive only_unregisters.
Proof.
  intros st1 st2 st3 (Hq1 & Ht1 & Hm1 & He1 & Hr1) (Hq2 & Ht2 & Hm2 & He2 & Hr2).
  unfold only_unregisters. rewrite Hq2, Ht2, Hm2, He2. repeat split; try done.
  intros roomId room H. by apply Hr1, Hr2.
Qed.

Lemma room_close_only_unregisters (room : roomRef) :
  respects only_unregisters (room_close room).
Proof.
  unfold room_close, run_closeListener, rooms_delete.
  respects_with ltac:(first
    [ by (repeat split)
    | by (repeat split; try done; cbn; intros ? ? [_ ?]%lookup_delete_Some) ]).
Qed.

Lemma other_events_no_Room_create (env : environment) (ev : event) :
  match ev with
  | ConnectionRequest _ | RoomCreateSettled _ => False
  | _ => True
  end →
  respects (more_calls not_Room_create) (handle env ev).
Proof.
  destruct ev; try done; intros _; unfold_handlers; respects_with more_calls_leaf.
Qed.

Lemma other_events_same_queue (env : environment) (ev : event) (st : state) :
  match ev with
  | ConnectionRequest _ | RoomCreateSettled _ => False
  | _ => True
  end →
  queue (exec (handle env ev) st) = queue st.
Proof.
  destruct ev as [| |room|i|i|req answer]; try done; intros _.
  - exact (proj1 (room_close_only_unregisters room st)).
  - exact (proj2 (other_events_same env (WorkerDied i) I st)).
  - exact (proj2 (other_events_same env (TimeoutExpired i) I st)).
  - exact (proj2 (other_events_same env (HttpRequest req answer) I st)).
Qed.

Lemma Room_create_calls_app (st st' : state) (calls : list effect) :
  trace st' = trace st ++ calls →
  Room_create_calls st' =
    Room_create_calls st + length (List.filter is_CallRoomCreate calls).
Proof.
  intros Htrace. unfold Room_create_calls. by rewrite Htrace, List.filter_app, length_app.
Qed.

(** The calls of the queue on its pending tasks: calls that are not
    [Room.create], then the construction for the first task whose room is
    not in the registry, if there is one, then at most the reaction of a
    task that failed. *)
Lemma queue_calls_shape (env : environment) (registry : gmap value roomRef)
    (mediasoupWorker : option worker) (failed : option (task * Error.t))
    (pending : list task) :
  ∃ before failed',
    queue_calls env registry mediasoupWorker failed pending =
      before ++ creation_calls mediasoupWorker (blocked registry pending)
      ++ match blocked registry pending with
         | [] => []
         | _ :: _ => catch_calls failed'
         end
    ∧ Forall not_Room_create before.
Proof.
  revert failed. induction pending as [|t rest IH]; intros failed;
    cbn [queue_calls blocked].
  - exists (catch_calls failed), None. cbn. rewrite app_nil_r.
    split; [done | apply catch_calls_no_Room_create].
  - destruct (registry !! task_roomId t) as [room|] eqn:Hroom.
    + destruct (IH (pair t <$> join_thrown env t room)) as (before & failed' & -> & Hbefore).
      exists (catch_calls failed ++ attempt_calls t room ++ before), failed'.
      split; [by rewrite <- !app_assoc|].
      apply Forall_app. split; [apply catch_calls_no_Room_create|].
      apply Forall_app. split; [apply attempt_calls_no_Room_create | done].
    + by exists [], failed.
Qed.

(** The queue, run on its pending tasks, calls [Room.create] at most
    once, and if it does, the task that made the call is left at the head
    of the queue, waiting for a room the registry does not hold; the call
    is the last one, but for the reaction of a task that failed. *)
Lemma queue_next_Room_create (env : environment) (failed : option (task * Error.t))
    (pending : list task) (st0 st : state) (pre : list effect) :
  queue st = pending →
  trace st = trace st0 ++ pre →
  Forall not_Room_create pre →
  let st' := exec (queue_next env failed pending) st in
  (Room_create_calls st' = Room_create_calls st0 ∧ queue st' = [])
  ∨ (Room_create_calls st' = S (Room_create_calls st0)
     ∧ ∃ t rest mediasoupWorker,
         queue st' = t :: rest
         ∧ rooms st' !! task_roomId t = None
         ∧ ∃ before after,
             trace st' =
               trace st0 ++ before ++ [CallRoomCreate mediasoupWorker (task_roomId t)]
               ++ after
             ∧ Forall not_Room_create before
             ∧ (after = [] ∨ ∃ t0 e, after = rejected_calls t0 e)).
Proof.
  intros Hq Hpre Hpre_calls. cbn zeta.
  destruct (queue_next_result env failed pending st Hq) as (Htrace & Hqueue & Hrooms & _).
  destruct (queue_calls_shape env (rooms st)
              (mediasoupWorkers st !! nextMediasoupWorkerIdx st) failed pending)
    as (before & failed' & Hshape & Hbefore).
  rewrite Hshape, Hpre, <- app_assoc in Htrace. clear Hshape.
  destruct (blocked (rooms st) pending) as [|t rest] eqn:Hblocked.
  - left. split; [|done]. cbn [creation_calls app] in Htrace. rewrite app_nil_r in Htrace.
    apply (Room_create_calls_more _ _ _ Htrace). by apply Forall_app.
  - right. cbn [creation_calls] in Htrace. split.
    + rewrite (Room_create_calls_app _ _ _ Htrace), !List.filter_app.
      rewrite (filter_no_Room_create _ Hpre_calls), (filter_no_Room_create _ Hbefore).
      rewrite (filter_no_Room_create _ (catch_calls_no_Room_create failed')). cbn. lia.
    + eexists t, rest, _. split; [done|]. split; [rewrite Hrooms; by eapply blocked_head|].
      exists (pre ++ before ++
                [Log INFO "creating a new Room [roomId:%s]" [ArgValue (task_roomId t)]]),
             (catch_calls failed').
      split; [|split].
      * rewrite Htrace. by rewrite <- !app_assoc.
      * apply Forall_app. split; [done|]. apply Forall_app. split; [done|].
        by repeat constructor.
      * destruct failed' as [[t0 e]|]; [right; by exists t0, e | by left].
Qed.

Lemma resumed_calls (rejected : option Error.t) (t : task) (st : state) :
  ∃ pre, trace (resumed rejected t st) = trace st ++ pre ∧ Forall not_Room_create pre.
Proof.
  destruct rejected as [e|]; cbn [resumed].
  - exists []. by rewrite app_nil_r.
  - eexists. split; [reflexivity | apply attempt_calls_no_Room_create].
Qed.

(** [Room.create] is called for one room at a time.  An event makes the
    gateway call it once at most, and the task that made the call is then
    suspended at the head of the queue, its room not in the registry: the
    call is the last one of the event, but for the reaction of a task that
    had failed before (its error logged, its request rejected), which
    comes after it.  While a task is suspended there, no event but the
    settling of its [Room.create] makes the gateway call [Room.create]
    again, whatever rooms the requests that arrive ask for: they queue up
    behind it. *)
Theorem Room_create_one_at_a_time (env : environment) (st : state) (ev : event) :
  let st' := step env st ev in
  (Room_create_calls st' = Room_create_calls st
   ∨ (Room_create_calls st' = S (Room_create_calls st)
      ∧ ∃ t rest mediasoupWorker,
          queue st' = t :: rest
          ∧ rooms st' !! task_roomId t = None
          ∧ ∃ before after,
              trace st' =
                trace st ++ before ++ [CallRoomCreate mediasoupWorker (task_roomId t)]
                ++ after
              ∧ Forall not_Room_create before
              ∧ (after = [] ∨ ∃ t0 e, after = rejected_calls t0 e)))
  ∧ (queue st ≠ [] →
     is_RoomCreateSettled ev = false →
     Room_create_calls st' = Room_create_calls st
     ∧ ∃ behind, queue st' = queue st ++ behind).
Proof.
  cbn zeta.
  destruct (exited st) as [code|] eqn:Hex.
  { unfold step. rewrite Hex. split; [by left|]. intros _ _. split; [done|].
    exists []. by rewrite app_nil_r. }
  assert (∀ st', queue st' = queue st → ∃ behind, queue st' = queue st ++ behind)
    as Hsame by (intros st' ->; exists []; by rewrite app_nil_r).
  destruct ev as [info|rejected|room|i|i|req answer].
  - destruct (protooWebSocketServer st) eqn:Hlisten;
      [|rewrite connectionrequest_unheard by done; split; [by left|]; intros _ _;
        split; [done | by apply Hsame]].
    destruct (truthy (query_roomId info)) eqn:Hroom;
      [destruct (truthy (query_peerId info)) eqn:Hpeer|].
    + destruct (queue st) as [|t0 rest0] eqn:Hq.
      * split; [|done]. rewrite connectionrequest_idle by done.
        match goal with |- context [exec (queue_next env None ?p) ?s] =>
          destruct (queue_next_Room_create env None p st s [logged_request info]
                      eq_refl eq_refl ltac:(by repeat constructor))
            as [[Hc Hq']|[Hc Hq']] end; [by left | by right].
      * assert (queue st ≠ []) as Hne by (by rewrite Hq).
        rewrite connectionrequest_busy by done. rewrite Hq.
        assert (Room_create_calls
                  (set_queue ((t0 :: rest0) ++ [task_of info])
                     (set_trace (trace st ++ [logged_request info]) st)) =
                Room_create_calls st) as Hc
          by (by apply (Room_create_calls_more st _ [logged_request info]);
                [|repeat constructor]).
        split; [by left|]. intros _ _. split; [done|]. by eexists.
    + rewrite connectionrequest_refused by (first [done | by right]).
      assert (Room_create_calls
                (set_trace
                   (trace st ++
                      [CallReject (request info)
                         (RejectWith 400 "Connection request without roomId and/or peerId")])
                   st) = Room_create_calls st) as Hc
        by (by eapply (Room_create_calls_more st); [|repeat constructor]).
      split; [by left|]. intros _ _. split; [done | by apply Hsame].
    + rewrite connectionrequest_refused by (first [done | by left]).
      assert (Room_create_calls
                (set_trace
                   (trace st ++
                      [CallReject (request info)
                         (RejectWith 400 "Connection request without roomId and/or peerId")])
                   st) = Room_create_calls st) as Hc
        by (by eapply (Room_create_calls_more st); [|repeat constructor]).
      split; [by left|]. intros _ _. split; [done | by apply Hsame].
  - split; [|done]. destruct (queue st) as [|t rest] eqn:Hq.
    + rewrite settled_idle by done. by left.
    + rewrite (settled_eq env rejected t rest st Hex Hq).
      destruct (resumed_calls rejected t st) as (pre & Hpre & Hpre_calls).
      match goal with |- context [exec (queue_next env ?f rest) ?s] =>
        destruct (queue_next_Room_create env f rest st s pre eq_refl Hpre Hpre_calls)
          as [[Hc Hq']|[Hc Hq']] end; [by left | by right].
  - rewrite step_running by done.
    destruct (other_events_no_Room_create env (RoomClosed room) I st) as (calls & Ht & Hc).
    pose proof (Room_create_calls_more _ _ _ Ht Hc) as Hsame_calls.
    split; [by left|]. intros _ _. split; [done|].
    apply Hsame. by apply (other_events_same_queue env (RoomClosed room)).
  - rewrite step_running by done.
    destruct (other_events_no_Room_create env (WorkerDied i) I st) as (calls & Ht & Hc).
    pose proof (Room_create_calls_more _ _ _ Ht Hc) as Hsame_calls.
    split; [by left|]. intros _ _. split; [done|].
    apply Hsame. by apply (other_events_same_queue env (WorkerDied i)).
  - rewrite step_running by done.
    destruct (other_events_no_Room_create env (TimeoutExpired i) I st) as (calls & Ht & Hc).
    pose proof (Room_create_calls_more _ _ _ Ht Hc) as Hsame_calls.
    split; [by left|]. intros _ _. split; [done|].
    apply Hsame. by apply (other_events_same_queue env (TimeoutExpired i)).
  - rewrite step_running by done.
    destruct (other_events_no_Room_create env (HttpRequest req answer) I st)
      as (calls & Ht & Hc).
    pose proof (Room_create_calls_more _ _ _ Ht Hc) as Hsame_calls.
    split; [by left|]. intros _ _. split; [done|].
    apply Hsame. by apply (other_events_same_queue env (HttpRequest req answer)).
Qed.

(** ** A Room whose first peer does not get in *)

(** When [Room.create] has resolved, the new Room is put in the registry
    before the request is accepted; if [accept] or
    [handleProtooConnection] then throws, the error is logged and the
    request rejected, and that is all: the Room stays in the registry,
    open, with no peer in it.  The error is logged and the request
    rejected by a reaction to the promise of the task: when a task waits
    behind it, that task is started first, and if its Room has to be
    constructed, its call of [Room.create] comes before them. *)
Theorem room_stays_registered_when_join_fails
    (env : environment) (st : state) (t : task) (rest : list task) (e : Error.t) :
  exited st = None →
  queue st = t :: rest →
  task_accept t = Some e
  ∨ (task_accept t = None
     ∧ handleProtooConnection env (length (roomObjects st)) (task_peerId t) (task_request t)
       = Some e) →
  let room := length (roomObjects st) in
  let st' := step env st (RoomCreateSettled None) in
  rooms st' = <[task_roomId t := room]> (rooms st)
  ∧ roomObjects st' = roomObjects st ++ [new_room (task_roomId t)]
  ∧ live st' room (task_roomId t)
  ∧ ∃ before after,
      trace st' =
        trace st ++
          CallAccept (task_request t) ::
          match task_accept t with
          | Some _ => []
          | None => [CallHandleProtooConnection room (task_peerId t) (task_request t)]
          end
          ++ before ++ rejected_calls t e ++ after
      ∧ match rest with
        | [] => before = [] ∧ after = []
        | t' :: _ =>
            match <[task_roomId t := room]> (rooms st) !! task_roomId t' with
            | None =>
                before =
                  [Log INFO "creating a new Room [roomId:%s]" [ArgValue (task_roomId t')];
                   CallRoomCreate (mediasoupWorkers st !! nextMediasoupWorkerIdx st)
                     (task_roomId t')]
                ∧ after = []
            | Some _ => before = []
            end
        end.
Proof.
  intros Hex Hq Hfails. cbn zeta.
  destruct (settled_result env None t rest st Hex Hq)
    as (Htrace & _ & Hrooms & Hobjects & _).
  set (st' := step env st (RoomCreateSettled None)) in *.
  cbn [resumed set_trace with_new_room set_roomObjects set_rooms rooms roomObjects trace
       resume_thrown] in Htrace, Hrooms, Hobjects.
  assert (join_thrown env t (length (roomObjects st)) = Some e) as Hthrown.
  { unfold join_thrown. by destruct Hfails as [-> | [-> ->]]. }
  rewrite Hthrown in Htrace. cbn [fmap option_fmap option_map] in Htrace.
  split; [exact Hrooms|]. split; [exact Hobjects|]. split.
  - exists (new_room (task_roomId t)). rewrite Hobjects.
    split; [|done]. by rewrite lookup_app_r, Nat.sub_diag.
  - destruct (queue_calls_catch env (<[task_roomId t := length (roomObjects st)]> (rooms st))
                (mediasoupWorkers st !! nextMediasoupWorkerIdx st) (Some (t, e)) rest)
      as (before & after & Hcalls & Hshape).
    exists before, after. split.
    + rewrite Htrace, Hcalls. unfold attempt_calls. cbn [catch_calls].
      by rewrite <- !app_assoc.
    + destruct rest as [|t' rest']; exact Hshape.
Qed.
(** ** The exit of the process *)

#[local] Instance same_clock_refl : Reflexive same_clock.
Proof. by intros st. Qed.

#[local] Instance same_clock_trans : Transitive same_clock.
Proof. unfold same_clock. intros st1 st2 st3 [H1 H2] [H3 H4]. split; congruence. Qed.

#[local] Instance more_exit_timers_refl : Reflexive more_exit_timers.
Proof. intros st. split; [done|]. exists []. by rewrite app_nil_r. Qed.

#[local] Instance more_exit_timers_trans : Transitive more_exit_timers.
Proof.
  intros st1 st2 st3 (He1 & m1 & Ht1 & Hm1) (He2 & m2 & Ht2 & Hm2).
  split; [congruence|]. exists (m1 ++ m2). rewrite Ht2, Ht1, app_assoc.
  split; [done|]. by apply Forall_app.
Qed.

Lemma queue_next_same_clock (env : environment) (failed : option (task * Error.t))
    (pending : list task) :
  respects same_clock (queue_next env failed pending).
Proof.
  revert failed. induction pending as [|t rest IH]; intros failed; cbn [queue_next];
    unfold_handlers; respects_with ltac:(first [apply IH | by split]).
Qed.

Lemma handle_same_clock (env : environment) (ev : event) :
  match ev with
  | WorkerDied _ | TimeoutExpired _ => False
  | _ => True
  end →
  respects same_clock (handle env ev).
Proof.
  destruct ev; try done; intros _; unfold_handlers;
    respects_with ltac:(first [apply queue_next_same_clock | by split]).
Qed.

Lemma worker_died_more_exit_timers (w : worker) :
  respects more_exit_timers (worker_died w).
Proof.
  unfold worker_died, run_diedListener, logger, emit, setTimeout.
  respects_with ltac:(first
    [ by (split; [done|]; exists []; by rewrite app_nil_r)
    | by (split; [done|]; eexists [_]; split; [reflexivity | by repeat constructor]) ]).
Qed.

Lemma started_same_clock (env : environment) (numWorkers : nat) :
  timeouts (started env numWorkers) = [] ∧ exited (started env numWorkers) = None.
Proof.
  assert (∀ remaining i, respects same_clock (runMediasoupWorkers_loop env remaining i))
    as Hloop.
  { induction remaining as [|n IH]; intros i; cbn [runMediasoupWorkers_loop];
      unfold_handlers; respects_with ltac:(first [apply IH | by split]). }
  assert (respects same_clock (require_room;; run env numWorkers)) as H.
  { unfold run, runMediasoupWorkers. unfold_handlers.
    respects_with ltac:(first [apply Hloop | by split]). }
  exact (H room_js_loaded).
Qed.

Lemma step_exit_timers (env : environment) (st : state) (ev : event) :
  let ok st := Forall (fun timer => timer = exit_timer) (timeouts st)
               ∧ (exited st = None ∨ exited st = Some 1%Z) in
  (ok st → ok (step env st ev))
  ∧ (is_WorkerDied ev = false →
     timeouts st = [] ∧ exited st = None →
     timeouts (step env st ev) = [] ∧ exited (step env st ev) = None).
Proof.
  cbn zeta. unfold step. destruct (exited st) as [code|] eqn:Hex;
    [rewrite ?Hex; by split|].
  destruct ev as [info|rejected|room|i|i|req answer].
  - destruct (handle_same_clock env (ConnectionRequest info) I st) as [Ht He].
    unfold exec. rewrite Ht, He, Hex. by split.
  - destruct (handle_same_clock env (RoomCreateSettled rejected) I st) as [Ht He].
    unfold exec. rewrite Ht, He, Hex. by split.
  - destruct (handle_same_clock env (RoomClosed room) I st) as [Ht He].
    unfold exec. rewrite Ht, He, Hex. by split.
  - split; [|done]. intros [Htimers _].
    unfold exec, handle, mbind, M_bind, gets.
    destruct (mediasoupWorkers st !! i) as [w|]; [|by split; [|left]].
    destruct (worker_died_more_exit_timers w st) as (He & more & Ht & Hmore).
    rewrite He, Ht, Hex. split; [by apply Forall_app | by left].
  - unfold exec, handle, mbind, M_bind, gets.
    destruct (timeouts st !! i) as [[callback delay]|] eqn:Hi.
    + split.
      * intros [Htimers _].
        assert ((callback, delay) = exit_timer) as [= -> ->]
          by (by apply (Forall_lookup_1 _ _ _ _ Htimers Hi)).
        cbn. split; [by apply Forall_delete | by right].
      * intros _ [Hnone _]. by rewrite Hnone in Hi.
    + cbn. rewrite Hex. by split.
  - destruct (handle_same_clock env (HttpRequest req answer) I st) as [Ht He].
    unfold exec. rewrite Ht, He, Hex. by split.
Qed.

(** [process.exit] is called only by the timer of a dead worker.
    Whatever has happened since start-up, every pending timer is the
    [process.exit(1)] set for 2000 ms by the "died" listener of a worker,
    and if [process.exit] has been called, it was with code 1.  As long as
    no worker has died there is no timer and [process.exit] has not been
    called: the gateway does not end the process on a connection request,
    on a failure of [Room.create], of [accept] or of a Room, on the
    closing of a room or on an HTTP request. *)
Theorem exit_only_after_a_worker_died
    (env : environment) (numWorkers : nat) (evs : list event) :
  let st := steps env evs (started env numWorkers) in
  Forall (fun timer => timer = exit_timer) (timeouts st)
  ∧ (exited st = None ∨ exited st = Some 1%Z)
  ∧ (Forall (fun ev => is_WorkerDied ev = false) evs →
     timeouts st = [] ∧ exited st = None).
Proof.
  cbn zeta. destruct (started_same_clock env numWorkers) as [Ht He].
  assert (∀ evs st,
            Forall (fun timer => timer = exit_timer) (timeouts st)
            ∧ (exited st = None ∨ exited st = Some 1%Z) →
            (Forall (fun timer => timer = exit_timer) (timeouts (steps env evs st))
             ∧ (exited (steps env evs st) = None ∨ exited (steps env evs st) = Some 1%Z))
            ∧ (Forall (fun ev => is_WorkerDied ev = false) evs →
               timeouts st = [] ∧ exited st = None →
               timeouts (steps env evs st) = [] ∧ exited (steps env evs st) = None))
    as Hsteps.
  { clear. induction evs as [|ev evs IH]; intros st Hok; [by split|].
    rewrite steps_cons. destruct (step_exit_timers env st ev) as [Hok' Hquiet].
    destruct (IH (step env st ev) (Hok' Hok)) as [Hok'' Hquiet'].
    split; [done|]. intros [Hev Hevs]%Forall_cons Hnone. by apply Hquiet', Hquiet. }
  destruct (Hsteps evs (started env numWorkers)) as [[Htimers Hexit] Hquiet].
  { rewrite Ht, He. split; [constructor | by left]. }
  split; [done|]. split; [done|]. intros Hevs. by apply Hquiet.
Qed.

(** ** Identifiers that passed the check, and no others *)

Lemma catch_calls_identified (failed : option (task * Error.t)) :
  Forall identified (catch_calls failed).
Proof. destruct failed as [[t e]|]; by repeat constructor. Qed.

Lemma attempt_calls_identified (t : task) (room : roomRef) :
  task_identified t → Forall identified (attempt_calls t room).
Proof.
  intros [_ Hpeer]. unfold attempt_calls. destruct (task_accept t); by repeat constructor.
Qed.

Lemma join_calls_identified (env : environment) (t : task) (room : roomRef) :
  task_identified t → Forall identified (join_calls env t room).
Proof.
  intros Ht. rewrite join_calls_eq. apply Forall_app.
  split; [by apply attempt_calls_identified | apply catch_calls_identified].
Qed.

Lemma queue_next_identifiers_checked (env : environment) (failed : option (task * Error.t))
    (pending : list task) (st : state) :
  queue st = pending →
  identifiers_checked st → identifiers_checked (exec (queue_next env failed pending) st).
Proof.
  intros Hq (Htrace & Hqueue & Hrooms). unfold identifiers_checked.
  destruct (queue_next_result env failed pending st Hq) as (-> & -> & -> & _).
  rewrite Hq in Hqueue. pose proof Hqueue as Hblocked.
  rewrite <- (runnable_blocked (rooms st) pending) in Hblocked.
  apply Forall_app in Hblocked as [_ Hblocked].
  split; [|by split].
  apply Forall_app. split; [done|]. rewrite Forall_forall in Hqueue.
  apply queue_calls_Forall.
  - apply catch_calls_identified.
  - intros t room Hin _. by apply join_calls_identified, Hqueue.
  - intros t Hin _. destruct (Hqueue t Hin) as [Hroom _]. by repeat constructor.
Qed.

Lemma other_events_identified (env : environment) (ev : event) :
  match ev with
  | WorkerDied _ | TimeoutExpired _ | HttpRequest _ _ => True
  | _ => False
  end →
  respects (more_calls identified) (handle env ev).
Proof.
  destruct ev; try done; intros _; unfold_handlers; respects_with more_calls_leaf.
Qed.

Lemma step_identifiers_checked (env : environment) (st : state) (ev : event) :
  identifiers_checked st → identifiers_checked (step env st ev).
Proof.
  intros Hok. destruct (exited st) as [code|] eqn:Hex;
    [by unfold step; rewrite Hex|].
  pose proof Hok as (Htrace & Hqueue & Hrooms).
  assert (∀ ev,
            match ev with
            | WorkerDied _ | TimeoutExpired _ | HttpRequest _ _ => True
            | _ => False
            end → identifiers_checked (step env st ev)) as Hother.
  { intros ev' Hev'. rewrite step_running by done.
    destruct (other_events_identified env ev' Hev' st) as (calls & Ht & Hcalls).
    destruct (other_events_same env ev' Hev' st) as [[Hr _] Hq].
    unfold identifiers_checked, exec. rewrite Ht, Hr, Hq.
    split; [by apply Forall_app | by split]. }
  destruct ev as [info|rejected|room|i|i|req answer]; try (by apply Hother).
  - destruct (protooWebSocketServer st) eqn:Hlisten;
      [|by rewrite connectionrequest_unheard].
    destruct (truthy (query_roomId info)) eqn:Hroom;
      [destruct (truthy (query_peerId info)) eqn:Hpeer|].
    + assert (task_identified (task_of info)) as Htask by done.
      destruct (queue st) as [|t0 rest0] eqn:Hq.
      * rewrite connectionrequest_idle by done.
        apply queue_next_identifiers_checked; [done|].
        split; [|split]; cbn [set_queue set_trace trace queue rooms]; try done.
        -- apply Forall_app. split; [done | by repeat constructor].
        -- by repeat constructor.
      * assert (queue st ≠ []) as Hne by (by rewrite Hq).
        rewrite connectionrequest_busy by done. rewrite Hq.
        split; [|split]; cbn [set_queue set_trace trace queue rooms]; try done.
        -- apply Forall_app. split; [done | by repeat constructor].
        -- apply Forall_app. split; [done | by repeat constructor].
    + rewrite connectionrequest_refused by (first [done | by right]).
      split; [|by split]. apply Forall_app. split; [done | by repeat constructor].
    + rewrite connectionrequest_refused by (first [done | by left]).
      split; [|by split]. apply Forall_app. split; [done | by repeat constructor].
  - destruct (queue st) as [|t rest] eqn:Hq; [by rewrite settled_idle|].
    rewrite (settled_eq env rejected t rest st Hex Hq).
    apply Forall_cons in Hqueue as [Ht Hrest].
    apply queue_next_identifiers_checked; [done|].
    destruct rejected as [e|]; cbn [resumed].
    + by split.
    + split; [|split]; cbn [set_queue set_trace with_new_room set_roomObjects set_rooms
                             trace queue rooms]; try done.
      * apply Forall_app. split; [done | by apply attempt_calls_identified].
      * intros roomId room' [[<- _] | [_ Hin]]%lookup_insert_Some; [apply Ht|].
        by apply (Hrooms roomId room').
  - rewrite step_running by done.
    destruct (room_close_only_unregisters room st) as (Hq & Ht & _ & _ & Hr).
    change (exec (handle env (RoomClosed room)) st) with (snd (room_close room st)).
    unfold identifiers_checked. rewrite Hq, Ht. split; [done|]. split; [done|].
    intros roomId room' Hin. by apply (Hrooms roomId room'), Hr.
Qed.

Lemma started_identifiers_checked (env : environment) (numWorkers : nat) :
  identifiers_checked (started env numWorkers).
Proof.
  assert (∀ remaining i,
            respects (more_calls identified) (runMediasoupWorkers_loop env remaining i))
    as Hloop.
  { induction remaining as [|n IH]; intros i; cbn [runMediasoupWorkers_loop];
      unfold_handlers; respects_with ltac:(first [apply IH | more_calls_leaf]). }
  assert (respects (more_calls identified) (require_room;; run env numWorkers)) as H.
  { unfold run, runMediasoupWorkers. unfold_handlers.
    respects_with ltac:(first [apply Hloop | more_calls_leaf]). }
  destruct (H room_js_loaded) as (calls & Ht & Hcalls).
  destruct (started_registry_ok env numWorkers) as [_ Hrun].
  assert (same_registry_and_queue room_js_loaded (started env numWorkers))
    as [[Hr _] Hq].
  { assert (respects same_registry_and_queue (require_room;; run env numWorkers)) as H'.
    { unfold run, runMediasoupWorkers. unfold_handlers.
      respects_with ltac:(first [apply runMediasoupWorkers_loop_same | by repeat split]). }
    apply H'. }
  unfold identifiers_checked, started, exec in *. rewrite Ht, Hr, Hq.
  split; [by apply Forall_app|]. split; [constructor|]. intros roomId room. cbn.
  by rewrite lookup_empty.
Qed.

(** No identifier gets past the check of the "connectionrequest"
    listener.  In every state the process can be in, every call of
    [Room.create] was made with a [roomId] and every call of
    [handleProtooConnection] with a [peerId] that are neither missing nor
    empty; so are the identifiers of the tasks in the queue; and no room is
    registered under a missing or empty [roomId]. *)
Theorem identifiers_are_checked_everywhere (env : environment) (st : state) :
  reachable env st →
  Forall identified (trace st)
  ∧ Forall task_identified (queue st)
  ∧ (∀ roomId room, rooms st !! roomId = Some room → truthy roomId = true).
Proof.
  intros (numWorkers & evs & ->).
  change (identifiers_checked (steps env evs (started env numWorkers))).
  generalize (started_identifiers_checked env numWorkers).
  generalize (started env numWorkers).
  induction evs as [|ev evs IH]; intros st Hok; [done|].
  rewrite steps_cons. by apply IH, step_identifiers_checked.
Qed.

(** ** No request is dropped *)

Lemma CallAccept_in_attempt_calls (t : task) (room : roomRef) :
  CallAccept (task_request t) ∈ attempt_calls t room.
Proof. unfold attempt_calls. apply list_elem_of_here. Qed.

Lemma CallAccept_in_queue_calls (env : environment) (registry : gmap value roomRef)
    (mediasoupWorker : option worker) (failed : option (task * Error.t))
    (pending : list task) (t : task) :
  t ∈ runnable registry pending →
  CallAccept (task_request t) ∈ queue_calls env registry mediasoupWorker failed pending.
Proof.
  revert failed. induction pending as [|t0 rest IH]; intros failed;
    cbn [runnable queue_calls]; [by intros ?%elem_of_nil|].
  destruct (registry !! task_roomId t0) as [room|] eqn:Hroom; [|by intros ?%elem_of_nil].
  intros [-> | Hin]%elem_of_cons; apply elem_of_app; right; apply elem_of_app.
  - left. apply CallAccept_in_attempt_calls.
  - right. by apply IH.
Qed.

Lemma catch_calls_in_queue_calls (env : environment) (registry : gmap value roomRef)
    (mediasoupWorker : option worker) (failed : option (task * Error.t))
    (pending : list task) (call : effect) :
  call ∈ catch_calls failed →
  call ∈ queue_calls env registry mediasoupWorker failed pending.
Proof.
  intros Hin.
  destruct (queue_calls_catch env registry mediasoupWorker failed pending)
    as (before & after & -> & _).
  apply elem_of_app. right. apply elem_of_app. by left.
Qed.

Lemma step_trace_grows (env : environment) (st : state) (ev : event) :
  ∃ calls, trace (step env st ev) = trace st ++ calls.
Proof.
  destruct (steps_no_createWorker env [ev] st) as (calls & Htrace & _). by exists calls.
Qed.

Lemma step_keeps_answered (env : environment) (st : state) (ev : event) (request : nat) :
  answered st request → answered (step env st ev) request.
Proof.
  destruct (step_trace_grows env st ev) as [calls Htrace].
  unfold answered. rewrite Htrace.
  intros [Hacc | [r Hrej]]; [left | right; exists r]; apply elem_of_app; by left.
Qed.

Lemma queue_next_queued_or_answered
    (env : environment) (failed : option (task * Error.t)) (pending : list task)
    (st : state) (t : task) :
  queue st = pending →
  t ∈ pending →
  let st' := exec (queue_next env failed pending) st in
  queued st' (task_request t) ∨ answered st' (task_request t).
Proof.
  intros Hq Hin. cbn zeta.
  destruct (queue_next_result env failed pending st Hq) as (Htrace & Hqueue & _).
  rewrite <- (runnable_blocked (rooms st) pending) in Hin.
  apply elem_of_app in Hin as [Hin | Hin].
  - right. left. rewrite Htrace. apply elem_of_app. right.
    by apply CallAccept_in_queue_calls.
  - left. exists t. by rewrite Hqueue.
Qed.

Lemma step_keeps_queued_or_answered
    (env : environment) (st : state) (ev : event) (request : nat) :
  queued st request ∨ answered st request →
  queued (step env st ev) request ∨ answered (step env st ev) request.
Proof.
  intros [(t & Hin & <-) | Hans]; [|right; by apply step_keeps_answered].
  destruct (exited st) as [code|] eqn:Hex.
  { left. unfold step. rewrite Hex. by exists t. }
  assert (∀ st', queue st' = queue st → queued st' (task_request t)) as Hsame
    by (intros st' Hq; exists t; by rewrite Hq).
  destruct ev as [info|rejected|room|i|i|req answer].
  - left. destruct (protooWebSocketServer st) eqn:Hlisten;
      [|by rewrite connectionrequest_unheard; [apply Hsame|]].
    destruct (truthy (query_roomId info)) eqn:Hroom;
      [destruct (truthy (query_peerId info)) eqn:Hpeer|].
    + assert (queue st ≠ []) as Hne by (intros Hq; rewrite Hq in Hin; by apply elem_of_nil in Hin).
      rewrite connectionrequest_busy by done. exists t. split; [|done].
      cbn [set_queue queue]. apply elem_of_app. by left.
    + rewrite connectionrequest_refused by (first [done | by right]). by apply Hsame.
    + rewrite connectionrequest_refused by (first [done | by left]). by apply Hsame.
  - destruct (queue st) as [|t0 rest] eqn:Hq; [by apply elem_of_nil in Hin|].
    rewrite (settled_eq env rejected t0 rest st Hex Hq).
    apply elem_of_cons in Hin as [-> | Hin].
    + right.
      match goal with |- context [exec (queue_next env ?f rest) ?s] =>
        destruct (queue_next_result env f rest s eq_refl) as (Htrace & _) end.
      unfold answered. rewrite Htrace. cbn [set_queue trace rooms].
      destruct rejected as [e|]; cbn [resumed resume_thrown set_trace trace].
      * right. exists (RejectError e). apply elem_of_app. right.
        apply catch_calls_in_queue_calls. cbn [fmap option_fmap option_map catch_calls].
        unfold rejected_calls. apply list_elem_of_further, list_elem_of_here.
      * left. apply elem_of_app. left. apply elem_of_app. right.
        apply CallAccept_in_attempt_calls.
    + by apply queue_next_queued_or_answered.
  - left. rewrite step_running by done.
    by apply Hsame, (other_events_same_queue env (RoomClosed room)).
  - left. rewrite step_running by done.
    by apply Hsame, (other_events_same_queue env (WorkerDied i)).
  - left. rewrite step_running by done.
    by apply Hsame, (other_events_same_queue env (TimeoutExpired i)).
  - left. rewrite step_running by done.
    by apply Hsame, (other_events_same_queue env (HttpRequest req answer)).
Qed.

(** No connection request is dropped.  Once the "connectionrequest"
    listener has run for a request, then at every later moment either the
    request waits in the queue, or [accept] or [reject] has been called
    for it; so when the queue is empty, every request that ever came has
    been accepted or rejected. *)
Theorem no_connectionrequest_is_dropped
    (env : environment) (st : state) (info : connectionRequest) (evs : list event) :
  exited st = None →
  protooWebSocketServer st = true →
  let st' := steps env evs (step env st (ConnectionRequest info)) in
  (queued st' (request info) ∨ answered st' (request info))
  ∧ (queue st' = [] → answered st' (request info)).
Proof.
  intros Hex Hlisten. cbn zeta.
  assert (queued (steps env evs (step env st (ConnectionRequest info))) (request info)
          ∨ answered (steps env evs (step env st (ConnectionRequest info))) (request info))
    as Hkept.
  { assert (queued (step env st (ConnectionRequest info)) (request info)
            ∨ answered (step env st (ConnectionRequest info)) (request info)) as Hfirst.
    { assert (∀ r, answered
                (set_trace (trace st ++ [CallReject (request info) r]) st) (request info))
        as Hrefused.
      { intros r. right. exists r. cbn [set_trace trace]. apply elem_of_app. right.
        apply list_elem_of_here. }
      destruct (truthy (query_roomId info)) eqn:Hroom;
        [destruct (truthy (query_peerId info)) eqn:Hpeer|].
      - destruct (queue st) as [|t0 rest0] eqn:Hq.
        + rewrite connectionrequest_idle by done.
          apply (queue_next_queued_or_answered env None [task_of info] _ (task_of info));
            [done | apply list_elem_of_here].
        + assert (queue st ≠ []) as Hne by (by rewrite Hq).
          rewrite connectionrequest_busy by done. left. exists (task_of info).
          split; [|done]. cbn [set_queue queue]. apply elem_of_app. right.
          apply list_elem_of_here.
      - right. rewrite connectionrequest_refused by (first [done | by right]).
        apply Hrefused.
      - right. rewrite connectionrequest_refused by (first [done | by left]).
        apply Hrefused. }
    revert Hfirst. generalize (step env st (ConnectionRequest info)).
    induction evs as [|ev evs IH]; intros st1 Hst1; [done|].
    rewrite steps_cons. by apply IH, step_keeps_queued_or_answered. }
  split; [exact Hkept|]. intros Hq. destruct Hkept as [(t & Hin & _) | Hans]; [|done].
  rewrite Hq in Hin. by apply elem_of_nil in Hin.
Qed.

(** ** Rooms over the pool *)

Lemma placements_app (l1 l2 : list effect) :
  placements (l1 ++ l2) = placements l1 ++ placements l2.
Proof.
  induction l1 as [|e l1 IH]; [done|]. destruct e; cbn; by rewrite ?IH.
Qed.

(** Rooms created one after the other go to the workers of the pool in
    turn.  For identifiers that are all different and not in the registry,
    and a pool with the cursor on worker [c], the calls of
    [getOrCreateRoom] construct one new Room each, and [Room.create] is
    called for the first identifier with worker [c], for the second with
    worker [c + 1], and so on round the pool; the cursor ends where the
    next room will go. *)
Theorem rooms_are_placed_round_the_pool (roomIds : list value) (st : state) :
  (nextMediasoupWorkerIdx st < length (mediasoupWorkers st))%nat →
  NoDup roomIds →
  (∀ roomId, roomId ∈ roomIds → rooms st !! roomId = None) →
  let pool := mediasoupWorkers st in
  let c := nextMediasoupWorkerIdx st in
  let st' := exec (getOrCreateRoom_each roomIds) st in
  fst (getOrCreateRoom_each roomIds st) =
    Returns (seq (length (roomObjects st)) (length roomIds))
  ∧ placements (trace st') =
      placements (trace st)
      ++ imap (fun i roomId => (roomId, pool !! ((c + i) `mod` length pool))) roomIds
  ∧ nextMediasoupWorkerIdx st' = ((c + length roomIds) `mod` length pool)%nat
  ∧ mediasoupWorkers st' = pool.
Proof.
  revert st. induction roomIds as [|roomId rest IH]; intros st Hc Hnodup Habs; cbn zeta.
  - cbn. rewrite Nat.add_0_r, app_nil_r, Nat.mod_small by done. repeat split; try done.
  - apply NoDup_cons in Hnodup as [Hnotin Hnodup].
    assert (rooms st !! roomId = None) as Hroom by (apply Habs, list_elem_of_here).
    assert (∃ st1, st1 = with_new_room roomId (awaiting_Room_create roomId st))
      as [st1 Hst1] by by eexists.
    assert (getOrCreateRoom_each (roomId :: rest) st =
            let (o, st2) := getOrCreateRoom_each rest st1 in
            match o with
            | Returns others => (Returns (length (roomObjects st) :: others), st2)
            | Throws e => (Throws e, st2)
            end) as Heach.
    { cbn [getOrCreateRoom_each]. unfold mbind, M_bind.
      by rewrite (getOrCreateRoom_created roomId st Hroom), Hst1. }
    unfold exec. rewrite Heach. clear Heach.
    assert (mediasoupWorkers st1 = mediasoupWorkers st
            ∧ nextMediasoupWorkerIdx st1 =
                (S (nextMediasoupWorkerIdx st) `mod` length (mediasoupWorkers st))%nat
            ∧ rooms st1 = <[roomId := length (roomObjects st)]> (rooms st)
            ∧ length (roomObjects st1) = S (length (roomObjects st))
            ∧ trace st1 =
                trace st ++
                  [Log INFO "creating a new Room [roomId:%s]" [ArgValue roomId];
                   CallRoomCreate (mediasoupWorkers st !! nextMediasoupWorkerIdx st) roomId])
      as (Hpool1 & Hc1 & Hrooms1 & Hlen1 & Htrace1).
    { rewrite Hst1. unfold awaiting_Room_create. rewrite getMediasoupWorker_in_range by done.
      cbn [snd with_new_room set_roomObjects set_rooms set_trace set_nextMediasoupWorkerIdx
           mediasoupWorkers nextMediasoupWorkerIdx rooms roomObjects trace].
      repeat split; try done. rewrite length_app. cbn. lia. }
    clear Hst1.
    destruct (IH st1) as (Hret & Hplaced & Hcursor & Hsame).
    { rewrite Hc1, Hpool1. apply Nat.mod_upper_bound. lia. }
    { done. }
    { intros roomId' Hin. rewrite Hrooms1, lookup_insert_ne; [|by intros ->].
      by apply Habs, list_elem_of_further. }
    unfold exec in *.
    destruct (getOrCreateRoom_each rest st1) as [[others|e] st2]; [|done].
    cbn [fst snd] in *. rewrite Hlen1 in Hret. injection Hret as ->.
    split; [|split; [|split]].
    + done.
    + rewrite Hplaced, Htrace1, placements_app. cbn [placements app].
      rewrite <- app_assoc. cbn [app imap]. rewrite Nat.add_0_r.
      rewrite (Nat.mod_small (nextMediasoupWorkerIdx st)) by done.
      do 2 f_equal. apply imap_ext. intros i roomId' _. cbn.
      rewrite Hc1, Hpool1. do 2 f_equal.
      rewrite Nat.Div0.add_mod_idemp_l. f_equal. lia.
    + cbn [length]. rewrite Hcursor, Hc1, Hpool1.
      rewrite Nat.Div0.add_mod_idemp_l. f_equal. lia.
    + by rewrite Hsame.
Qed.

(** ** After a failed construction *)

(** A failed construction is tried again by the next request, not by the
    one that failed.  When [Room.create] rejects while another request for
    the same room waits behind the suspended task, the task of the failed
    request is over; the task of the waiting request starts, finds no
    room, and calls [Room.create] itself, with the worker the cursor is on
    now, which is the one after the worker of the failed attempt; it is
    left suspended at the head of the queue.  The error of the failed
    request is logged and the request rejected after that call: the
    reaction to the promise of the failed task runs once the next task has
    started. *)
Theorem next_request_creates_the_room_again
    (env : environment) (st : state) (t t' : task) (rest : list task) (e : Error.t) :
  reachable env st →
  exited st = None →
  queue st = t :: t' :: rest →
  task_roomId t' = task_roomId t →
  let st' := step env st (RoomCreateSettled (Some e)) in
  queue st' = t' :: rest
  ∧ trace st' =
      trace st
      ++ [Log INFO "creating a new Room [roomId:%s]" [ArgValue (task_roomId t')];
          CallRoomCreate (mediasoupWorkers st !! nextMediasoupWorkerIdx st) (task_roomId t')]
      ++ rejected_calls t e
  ∧ rooms st' = rooms st
  ∧ roomObjects st' = roomObjects st
  ∧ Room_create_calls st' = S (Room_create_calls st).
Proof.
  intros Hreach Hex Hq Hsame. cbn zeta.
  destruct (reachable_registry_ok env st Hreach) as [_ Hrun].
  pose proof (Hrun t (t' :: rest) Hq) as Habs. rewrite <- Hsame in Habs.
  destruct (settled_result env (Some e) t (t' :: rest) st Hex Hq)
    as (Htrace & Hqueue & Hrooms & Hobjects & _).
  set (st' := step env st (RoomCreateSettled (Some e))) in *.
  cbn [resumed resume_thrown queue_calls blocked fmap option_fmap option_map catch_calls
       creation_calls] in Htrace, Hqueue, Hrooms, Hobjects.
  rewrite Habs in Htrace, Hqueue.
  split; [done|]. split; [done|]. split; [done|]. split; [done|].
  rewrite (Room_create_calls_app st st' _ Htrace), List.filter_app. cbn. lia.
Qed.

(** ** Between the death of a worker and the exit *)

(** A worker that has died stays in the rotation.  Until the exit timer
    fires the process goes on as before: the pool still holds the dead
    worker, and a connection request for a new room that arrives when the
    cursor is on it has [Room.create] called with that worker. *)
Theorem dead_worker_stays_in_rotation
    (env : environment) (st : state) (i : nat) (w : worker) (info : connectionRequest) :
  reachable env st →
  exited st = None →
  protooWebSocketServer st = true →
  queue st = [] →
  mediasoupWorkers st !! i = Some w →
  nextMediasoupWorkerIdx st = i →
  truthy (query_roomId info) = true →
  truthy (query_peerId info) = true →
  rooms st !! query_roomId info = None →
  let st1 := step env st (WorkerDied i) in
  let st2 := step env st1 (ConnectionRequest info) in
  exited st1 = None
  ∧ mediasoupWorkers st1 !! i = Some w
  ∧ trace st2 =
      trace st1 ++
        [logged_request info;
         Log INFO "creating a new Room [roomId:%s]" [ArgValue (query_roomId info)];
         CallRoomCreate (Some w) (query_roomId info)]
  ∧ queue st2 = [task_of info].
Proof.
  intros Hreach Hex Hlisten Hq Hw Hcursor Hroom Hpeer Habs. cbn zeta.
  assert (on_died w = [ExitInTwoSeconds]) as Hl.
  { apply reachable_watched in Hreach. unfold watched in Hreach.
    rewrite Forall_lookup in Hreach. by apply (Hreach i). }
  assert (step env st (WorkerDied i) =
          set_timeouts (timeouts st ++ [(ProcessExit 1, 2000%Z)])
            (set_trace
               (trace st ++
                  [Log ERROR "mediasoup Worker died, exiting  in 2 seconds... [pid:%d]"
                     [ArgNumber (pid w)]])
               st)) as ->.
  { rewrite step_running by done.
    unfold handle, worker_died. munfold. rewrite Hw, Hl.
    cbn [for_each]. unfold run_diedListener. munfold. reflexivity. }
  split; [done|]. split; [done|].
  match goal with |- context [step env ?s (ConnectionRequest info)] => set (st1 := s) end.
  rewrite (connectionrequest_idle env info st1) by done.
  destruct (queue_next_result env None [task_of info]
              (set_queue [task_of info] (set_trace (trace st1 ++ [logged_request info]) st1))
              eq_refl) as (Htrace & Hqueue & _).
  cbn [set_queue set_trace rooms trace queue_calls blocked mediasoupWorkers
       nextMediasoupWorkerIdx] in Htrace, Hqueue.
  change (task_roomId (task_of info)) with (query_roomId info) in Htrace, Hqueue.
  change (rooms st1) with (rooms st) in Htrace, Hqueue.
  rewrite Habs in Htrace, Hqueue.
  cbn [creation_calls catch_calls app] in Htrace.
  change (task_roomId (task_of info)) with (query_roomId info) in Htrace.
  change (mediasoupWorkers st1) with (mediasoupWorkers st) in Htrace.
  change (nextMediasoupWorkerIdx st1) with (nextMediasoupWorkerIdx st) in Htrace.
  rewrite Hcursor, Hw, <- app_assoc in Htrace.
  by split.
Qed.

(** ** From the gateway to the Express application and back *)

(** The registry ties the two files together.  A room the gateway has
    constructed for a connection request (under the [roomId] of the
    request, a string) is the room [expressApp.param("roomId", ...)] puts
    in [req.room] for a path with that [roomId]; and once that Room has
    closed, the same path is refused with the error of an unknown room. *)
Theorem gateway_room_is_the_room_of_the_path
    (env : environment) (st : state) (info : connectionRequest) (roomId : string) :
  exited st = None →
  protooWebSocketServer st = true →
  queue st = [] →
  query_roomId info = Str roomId →
  truthy (query_roomId info) = true →
  truthy (query_peerId info) = true →
  rooms st !! Str roomId = None →
  let room := length (roomObjects st) in
  let st1 := step env (step env st (ConnectionRequest info)) (RoomCreateSettled None) in
  let st2 := step env st1 (RoomClosed room) in
  param_roomId roomId st1 = (Returns (Some room), st1)
  ∧ param_roomId roomId st2 = (Throws (room_not_found roomId), st2).
Proof.
  intros Hex Hlisten Hq Hid Hroom Hpeer Habs. cbn zeta.
  assert (Forall (asks_for (Str roomId)) [info]) as Hasks by (by repeat constructor).
  destruct (concurrent_requests_one_room env (Str roomId) [info] st Hex Hlisten Hq Habs Hasks)
    as (_ & _ & _ & _ & _ & Hobjects & Hrooms & _); [cbn; lia|].
  cbn [fmap list_fmap steps fold_left] in Hobjects, Hrooms.
  set (st1 := step env (step env st (ConnectionRequest info)) (RoomCreateSettled None)) in *.
  assert (rooms st1 !! Str roomId = Some (length (roomObjects st))) as Hfound
    by (by rewrite Hrooms, lookup_insert_eq).
  split; [by apply param_roomId_found|].
  apply param_roomId_absent.
  assert (exited st1 = None) as Hex1.
  { unfold st1.
    assert (exited (step env st (ConnectionRequest info)) = None) as Hex'.
    { rewrite step_running by done.
      destruct (handle_same_clock env (ConnectionRequest info) I st) as [_ He].
      unfold exec. by rewrite He. }
    rewrite step_running by done.
    destruct (handle_same_clock env (RoomCreateSettled None) I
                (step env st (ConnectionRequest info))) as [_ He].
    unfold exec. by rewrite He. }
  rewrite step_running by done.
  change (exec (handle env (RoomClosed (length (roomObjects st)))) st1)
    with (exec (room_close (length (roomObjects st))) st1).
  rewrite (room_close_live _ (new_room (Str roomId))); try done.
  - cbn [set_rooms rooms set_roomObjects new_room room_id]. by rewrite lookup_delete_eq.
  - by rewrite Hobjects, lookup_app_r, Nat.sub_diag.
Qed.

(** ** The further theorems at work on the examples *)

(** Start-up with two workers. *)
Lemma startup_launches_every_worker_witness :
  (∀ i, i < 2 → createWorker example_env i = Returns (1000 + Z.of_nat i)%Z)
  ∧ mediasoupWorkers example_started = [launched 1000; launched 1001]
  ∧ protooWebSocketServer example_started = true.
Proof.
  assert (∀ i, i < 2 → createWorker example_env i = Returns (1000 + Z.of_nat i)%Z)
    as Hpids by done.
  split; [exact Hpids|].
  pose proof (proj2 (proj2 (startup_launches_every_worker example_env 2
                              (fun i => (1000 + Z.of_nat i)%Z) Hpids))) as Hstarted.
  split.
  - exact (f_equal mediasoupWorkers Hstarted).
  - exact (f_equal protooWebSocketServer Hstarted).
Defined.

(** Start-up with three workers asked for, the second of which fails. *)
Lemma startup_stops_at_the_first_failed_worker_witness :
  createWorker example_env_failing 1 = Throws plain_error
  ∧ mediasoupWorkers (started example_env_failing 3) = [launched 1000]
  ∧ protooWebSocketServer (started example_env_failing 3) = false.
Proof.
  assert (createWorker example_env_failing 1 = Throws plain_error) as Hfails
    by reflexivity.
  assert (∀ i, i < 1 → createWorker example_env_failing i = Returns (1000 + Z.of_nat i)%Z)
    as Hpids by (intros [|i] Hi; [reflexivity | lia]).
  assert (1 < 3) as Hk by lia.
  split; [exact Hfails|].
  pose proof (proj1 (proj2 (proj2
                (startup_stops_at_the_first_failed_worker example_env_failing 3 1
                   (fun i => (1000 + Z.of_nat i)%Z) plain_error
                   Hk Hpids Hfails)))) as Hstarted.
  split.
  - exact (f_equal mediasoupWorkers Hstarted).
  - exact (f_equal protooWebSocketServer Hstarted).
Defined.

(** Three calls on the pool of a process without workers. *)
Lemma getMediasoupWorker_without_workers_witness :
  mediasoupWorkers example_no_worker = []
  ∧ getMediasoupWorker_times 3 example_no_worker =
      (Returns [None; None; None], set_nextMediasoupWorkerIdx 3 example_no_worker).
Proof.
  assert (mediasoupWorkers example_no_worker = []) as Hpool by reflexivity.
  split; [exact Hpool|].
  exact (proj1 (getMediasoupWorker_without_workers example_no_worker 3 Undefined Hpool)).
Defined.

Lemma get_room_A_from_express : from_express get_room_A.
Proof. split; [by intros body [= <-] | done]. Defined.

(** [GET /rooms/room-A] once alice is in "room-A", were the application
    to get the request: whatever the Room returns is sent, and a promise
    that rejects is answered with 200 and [{}]. *)
Lemma rest_request_is_served_by_its_room_witness :
  from_express get_room_A
  ∧ req_parsed get_room_A = Returns (JObject [])
  ∧ rooms example_with_room !! Str "room-A" = Some 0
  ∧ calls_without_await (req_route get_room_A) = true
  ∧ ∃ c,
      (∀ data,
         expressApp get_room_A (Gives data) example_with_room =
           (Returns tt,
            set_trace
              (trace example_with_room ++
                 [CallRoom 0 c;
                  Respond {| res_status := 200; res_statusMessage := None;
                             res_body := SendJson data |}])
              example_with_room))
      ∧ (∀ e,
           expressApp get_room_A (Rejects e) example_with_room =
             (Returns tt,
              set_trace
                (trace example_with_room ++
                   [CallRoom 0 c;
                    Respond {| res_status := 200; res_statusMessage := None;
                               res_body := SendJson (JObject []) |}])
                example_with_room)).
Proof.
  assert (calls_without_await (req_route get_room_A) = true) as Hawait by reflexivity.
  split; [exact get_room_A_from_express|]. split; [reflexivity|]. split; [reflexivity|].
  split; [exact Hawait|].
  destruct (rest_request_is_served_by_its_room example_env get_room_A (JObject [])
              get_room_A_from_express eq_refl) as [c Hc].
  exists c. split.
  - exact (proj1 (Hc example_with_room 0 eq_refl)).
  - exact (proj2 (proj1 (proj2 (proj2 (proj2 (Hc example_with_room 0 eq_refl)))) Hawait)).
Defined.


(** Bob asks for "room-A" once alice is in it. *)
Lemma connectionrequest_joins_registered_room_witness :
  rooms example_with_room !! query_roomId bob = Some 0
  ∧ trace (step example_env example_with_room (ConnectionRequest bob)) =
      trace example_with_room ++
        [logged_request bob; CallAccept 2; CallHandleProtooConnection 0 (Str "bob") 2].
Proof.
  assert (rooms example_with_room !! query_roomId bob = Some 0) as Hroom by reflexivity.
  split; [exact Hroom|].
  exact (proj1 (proj2
           (connectionrequest_joins_registered_room example_env bob 0 example_with_room
              eq_refl eq_refl eq_refl eq_refl eq_refl Hroom)) eq_refl eq_refl).
Defined.

(** Carol asks for "room-B" while the task of alice awaits "room-A";
    and "room-A" is constructed while bob waits behind alice. *)
Lemma queue_is_first_in_first_out_witness :
  queue example_awaiting ≠ []
  ∧ queue (step example_env example_awaiting (ConnectionRequest carol)) =
      [alice_task; task_of carol]
  ∧ exited example_two_waiting = None
  ∧ queue example_two_waiting = alice_task :: [bob_task]
  ∧ let st' := step example_env example_two_waiting (RoomCreateSettled None) in
    ∃ finished,
      [bob_task] = finished ++ queue st'
      ∧ accepted (trace st') =
          accepted (trace example_two_waiting) ++ [task_request alice_task]
          ++ (task_request <$> finished)
      ∧ Forall (fun t' => is_Some (rooms st' !! task_roomId t')) finished
      ∧ (∀ t' rest', queue st' = t' :: rest' → rooms st' !! task_roomId t' = None).
Proof.
  assert (queue example_awaiting ≠ []) as Hbusy by done.
  assert (exited example_two_waiting = None) as Hrun by reflexivity.
  assert (queue example_two_waiting = alice_task :: [bob_task]) as Hq by reflexivity.
  split; [exact Hbusy|]. split; [|split; [exact Hrun | split; [exact Hq|]]].
  - exact (proj1 (proj1 (queue_is_first_in_first_out example_env) carol example_awaiting
                    eq_refl eq_refl eq_refl eq_refl Hbusy)).
  - exact (proj2 (queue_is_first_in_first_out example_env) None alice_task [bob_task]
             example_two_waiting Hrun Hq).
Defined.

(** Carol's request does not make the gateway call [Room.create]; and
    when the construction of "room-A" fails while bob waits behind alice,
    [Room.create] is called once, for the task of bob. *)
Lemma Room_create_one_at_a_time_witness :
  queue example_awaiting ≠ []
  ∧ Room_create_calls (step example_env example_awaiting (ConnectionRequest carol)) =
      Room_create_calls example_awaiting
  ∧ let st' := step example_env example_two_waiting (RoomCreateSettled (Some plain_error)) in
    ∃ t rest mediasoupWorker,
      queue st' = t :: rest
      ∧ rooms st' !! task_roomId t = None
      ∧ ∃ before after,
          trace st' =
            trace example_two_waiting ++ before
            ++ [CallRoomCreate mediasoupWorker (task_roomId t)] ++ after
          ∧ Forall not_Room_create before
          ∧ (after = [] ∨ ∃ t0 e, after = rejected_calls t0 e).
Proof.
  assert (queue example_awaiting ≠ []) as Hbusy by done.
  split; [exact Hbusy|]. split.
  - exact (proj1 (proj2 (Room_create_one_at_a_time example_env example_awaiting
                           (ConnectionRequest carol)) Hbusy eq_refl)).
  - destruct (proj1 (Room_create_one_at_a_time example_env example_two_waiting
                       (RoomCreateSettled (Some plain_error)))) as [Hsame | [_ Hcalled]].
    + vm_compute in Hsame. discriminate Hsame.
    + exact Hcalled.
Defined.

(** Dave asks for "room-D" and carol for "room-B" behind him; the Room
    of dave is constructed, and [accept] throws: "room-D" stays, and the
    task of carol calls [Room.create] before the request of dave is
    rejected. *)
Lemma room_stays_registered_when_join_fails_witness :
  exited example_dave_carol = None
  ∧ queue example_dave_carol = [task_of dave; task_of carol]
  ∧ task_accept (task_of dave) = Some plain_error
  ∧ rooms (step example_env example_dave_carol (RoomCreateSettled None)) =
      <[Str "room-D" := 0]> ∅
  ∧ trace (step example_env example_dave_carol (RoomCreateSettled None)) =
      trace example_dave_carol ++
        [CallAccept 5;
         Log INFO "creating a new Room [roomId:%s]" [ArgValue (Str "room-B")];
         CallRoomCreate (Some (launched 1001)) (Str "room-B");
         Log ERROR "room creation or room joining failed:%o" [ArgError plain_error];
         CallReject 5 (RejectError plain_error)].
Proof.
  assert (exited example_dave_carol = None) as Hrun by reflexivity.
  assert (queue example_dave_carol = [task_of dave; task_of carol]) as Hq by reflexivity.
  assert (task_accept (task_of dave) = Some plain_error) as Hthrows by reflexivity.
  split; [exact Hrun|]. split; [exact Hq|]. split; [exact Hthrows|].
  destruct (room_stays_registered_when_join_fails example_env example_dave_carol
              (task_of dave) [task_of carol] plain_error Hrun Hq (or_introl Hthrows))
    as (Hrooms & _ & _ & before & after & Htrace & Hshape).
  split; [exact Hrooms|].
  rewrite Htrace.
  change (<[task_roomId (task_of dave) := length (roomObjects example_dave_carol)]>
            (rooms example_dave_carol) !! task_roomId (task_of carol))
    with (@None nat) in Hshape.
  destruct Hshape as [-> ->]. reflexivity.
Defined.

(** A failed construction does not end the process. *)
Lemma exit_only_after_a_worker_died_witness :
  Forall (fun ev => is_WorkerDied ev = false)
    [ConnectionRequest alice; RoomCreateSettled (Some plain_error)]
  ∧ exited (steps example_env
              [ConnectionRequest alice; RoomCreateSettled (Some plain_error)]
              example_started) = None.
Proof.
  assert (Forall (fun ev => is_WorkerDied ev = false)
            [ConnectionRequest alice; RoomCreateSettled (Some plain_error)]) as Hquiet
    by (by repeat constructor).
  split; [exact Hquiet|].
  exact (proj2 (proj2 (proj2 (exit_only_after_a_worker_died example_env 2
                                [ConnectionRequest alice;
                                 RoomCreateSettled (Some plain_error)]))
                  Hquiet)).
Defined.

(** The identifiers of the example process. *)
Lemma identifiers_are_checked_everywhere_witness :
  reachable example_env example_with_room
  ∧ Forall identified (trace example_with_room).
Proof.
  split; [exact example_with_room_reachable|].
  exact (proj1 (identifiers_are_checked_everywhere example_env example_with_room
                  example_with_room_reachable)).
Defined.

(** The request of alice, once [Room.create] has resolved. *)
Lemma no_connectionrequest_is_dropped_witness :
  queue (steps example_env [RoomCreateSettled None]
           (step example_env example_started (ConnectionRequest alice))) = []
  ∧ answered
      (steps example_env [RoomCreateSettled None]
         (step example_env example_started (ConnectionRequest alice)))
      (request alice).
Proof.
  assert (queue (steps example_env [RoomCreateSettled None]
                   (step example_env example_started (ConnectionRequest alice))) = [])
    as Hq by (vm_compute; reflexivity).
  split; [exact Hq|].
  exact (proj2 (no_connectionrequest_is_dropped example_env example_started alice
                  [RoomCreateSettled None] eq_refl eq_refl) Hq).
Defined.

(** Three rooms on the two workers of the example. *)
Lemma rooms_are_placed_round_the_pool_witness :
  NoDup [Str "room-1"; Str "room-2"; Str "room-3"]
  ∧ placements
      (trace (exec (getOrCreateRoom_each [Str "room-1"; Str "room-2"; Str "room-3"])
                example_started)) =
      [(Str "room-1", Some (launched 1000));
       (Str "room-2", Some (launched 1001));
       (Str "room-3", Some (launched 1000))].
Proof.
  assert (NoDup [Str "room-1"; Str "room-2"; Str "room-3"]) as Hnodup
    by (apply (bool_decide_unpack _); vm_compute; exact I).
  assert (nextMediasoupWorkerIdx example_started
          < length (mediasoupWorkers example_started))%nat as Hc by (vm_compute; lia).
  assert (∀ roomId, roomId ∈ [Str "room-1"; Str "room-2"; Str "room-3"] →
                    rooms example_started !! roomId = None) as Habs by done.
  split; [exact Hnodup|].
  exact (proj1 (proj2 (rooms_are_placed_round_the_pool
                         [Str "room-1"; Str "room-2"; Str "room-3"] example_started
                         Hc Hnodup Habs))).
Defined.

Lemma example_two_waiting_reachable : reachable example_env example_two_waiting.
Proof. by exists 2, [ConnectionRequest alice; ConnectionRequest bob]. Defined.

(** The construction of "room-A" fails while bob waits behind alice. *)
Lemma next_request_creates_the_room_again_witness :
  queue example_two_waiting = [task_of alice; task_of bob]
  ∧ queue (step example_env example_two_waiting (RoomCreateSettled (Some plain_error))) =
      [task_of bob]
  ∧ trace (step example_env example_two_waiting (RoomCreateSettled (Some plain_error))) =
      trace example_two_waiting
      ++ [Log INFO "creating a new Room [roomId:%s]" [ArgValue (task_roomId (task_of bob))];
          CallRoomCreate
            (mediasoupWorkers example_two_waiting
               !! nextMediasoupWorkerIdx example_two_waiting)
            (task_roomId (task_of bob))]
      ++ rejected_calls (task_of alice) plain_error
  ∧ mediasoupWorkers example_two_waiting !! nextMediasoupWorkerIdx example_two_waiting =
      Some (launched 1001)
  ∧ Room_create_calls
      (step example_env example_two_waiting (RoomCreateSettled (Some plain_error))) =
      S (Room_create_calls example_two_waiting).
Proof.
  assert (queue example_two_waiting = [task_of alice; task_of bob]) as Hq by reflexivity.
  split; [exact Hq|].
  destruct (next_request_creates_the_room_again example_env example_two_waiting
              (task_of alice) (task_of bob) [] plain_error
              example_two_waiting_reachable eq_refl Hq eq_refl)
    as (Hqueue & Htrace & _ & _ & Hcalls).
  split; [exact Hqueue|]. split; [exact Htrace|]. split; [reflexivity | exact Hcalls].
Defined.

(** The first worker dies, then alice asks for "room-A". *)
Lemma dead_worker_stays_in_rotation_witness :
  mediasoupWorkers example_started !! 0 = Some (launched 1000)
  ∧ trace (step example_env (step example_env example_started (WorkerDied 0))
             (ConnectionRequest alice)) =
      trace (step example_env example_started (WorkerDied 0)) ++
        [logged_request alice;
         Log INFO "creating a new Room [roomId:%s]" [ArgValue (query_roomId alice)];
         CallRoomCreate (Some (launched 1000)) (query_roomId alice)].
Proof.
  assert (mediasoupWorkers example_started !! 0 = Some (launched 1000)) as Hw
    by reflexivity.
  split; [exact Hw|].
  exact (proj1 (proj2 (proj2
           (dead_worker_stays_in_rotation example_env example_started 0 (launched 1000)
              alice example_started_reachable eq_refl eq_refl eq_refl Hw eq_refl
              eq_refl eq_refl eq_refl)))).
Defined.

(** Alice gets "room-A" constructed; the path [/rooms/room-A] leads to
    it until it closes. *)
Lemma gateway_room_is_the_room_of_the_path_witness :
  rooms example_started !! Str "room-A" = None
  ∧ param_roomId "room-A"
      (step example_env (step example_env example_started (ConnectionRequest alice))
         (RoomCreateSettled None)) =
      (Returns (Some 0),
       step example_env (step example_env example_started (ConnectionRequest alice))
         (RoomCreateSettled None)).
Proof.
  assert (rooms example_started !! Str "room-A" = None) as Habs by reflexivity.
  split; [exact Habs|].
  exact (proj1 (gateway_room_is_the_room_of_the_path example_env example_started alice
                  "room-A" eq_refl eq_refl eq_refl eq_refl eq_refl eq_refl Habs)).
Defined.
